(** * llm-mux: thinking-budget resolution, request translation, token
      accounting and login flows

    A shallow embedding of the Go sources of llm-mux
    (package [util]: thinking budgets and the Gemini token counter;
    package [providers]: the Claude request translator; package [login]:
    the Claude authenticator; package [misc]: credential logging) together
    with the properties stated about them.

    Conventions.
    - Go [int] and [int64] values are integers in [Z]; where the code does
      64-bit arithmetic or conversion the wrap-around is written out with
      [wrap64].
    - Go strings are [string]; a Go type declared as [string]
      (ThinkingLevel) is [string] as well.
    - The model registry is a finite map from model names to records.
    - A request body is kept as the JSON document that gjson reads from its
      bytes; paths are lists of member names. *)

From Stdlib Require Import ZArith String Ascii List Bool Lia.
From stdpp Require Import base option list gmap strings.

Local Open Scope string_scope.
Local Open Scope Z_scope.

(** ** Strings (the Go [strings] functions the sources call) *)

Module Strings.

(** [strings.HasSuffix]: [len(s) >= len(suffix) && s[len(s)-len(suffix):] == suffix]. *)
Definition HasSuffix (s suffix : string) : bool :=
  (String.length suffix <=? String.length s)%nat &&
  String.eqb
    (substring (String.length s - String.length suffix)
               (String.length suffix) s)
    suffix.

(** Last byte of a string, if any. *)
Fixpoint last_byte (s : string) : option ascii :=
  match s with
  | EmptyString => None
  | String c EmptyString => Some c
  | String _ s' => last_byte s'
  end.

End Strings.

(** ** Package registry (declarations used by the sources) *)

Module Registry.

(** Modelled from the spec: the declarations of package registry are not
    among the sources. The sources compare a [registry.ThinkingLevel]
    with the empty string, so it is a string type; its four constants
    are the level names of the specification. *)
Definition ThinkingLevel := string.
Definition ThinkingLevelLow : ThinkingLevel := "low".
Definition ThinkingLevelMedium : ThinkingLevel := "medium".
Definition ThinkingLevelHigh : ThinkingLevel := "high".
Definition ThinkingLevelMax : ThinkingLevel := "max".

(** Modelled from the spec: [registry.ThinkingBudgets], the per-level
    budget table, with the four fields the sources read. *)
Record ThinkingBudgets := {
  Low : Z;
  Medium : Z;
  High : Z;
  Max : Z
}.

(** The Go comparison [budgets == registry.ThinkingBudgets{}]. *)
Definition ThinkingBudgets_is_zero (b : ThinkingBudgets) : bool :=
  (Low b =? 0) && (Medium b =? 0) && (High b =? 0) && (Max b =? 0).

(** Modelled from the spec: the thinking sub-record of a model, with the
    fields the sources read. [TMax] is its field [Max], renamed because
    the budget table has a [Max] of its own. *)
Record ThinkingSupport := {
  Min : Z;
  TMax : Z;
  DefaultLevel : ThinkingLevel;
  Budgets : ThinkingBudgets
}.

(** Modelled from the spec: [registry.ModelInfo], with the fields the
    sources read. [Thinking] is a pointer, [None] when nil. *)
Record ModelInfo := {
  Thinking : option ThinkingSupport;
  MaxCompletionTokens : Z
}.

(** The process-wide registry enters as its lookup: what
    [registry.GetGlobalRegistry().GetModelInfo(name)] hands back for each
    name, [None] for nil. How the registry is filled is not among the
    sources and is left open. *)
Definition ModelRegistry := string -> option ModelInfo.

Definition GetModelInfo (reg : ModelRegistry) (name : string)
  : option ModelInfo := reg name.

(** A registry given by a table of names. *)
Definition registry_of (table : gmap string ModelInfo) : ModelRegistry :=
  fun name => table !! name.

End Registry.

(** ** Package util, thinking budgets *)

Module Util.
Import Registry.

Definition DefaultThinkingBudget : Z := 1024.

Definition DefaultThinkingBudgets : ThinkingBudgets :=
  {| Low := 1024; Medium := 8192; High := 24576; Max := 32768 |}.

Definition ThinkingLevel := string.
Definition ThinkingLevelLow : ThinkingLevel := "low".
Definition ThinkingLevelMedium : ThinkingLevel := "medium".
Definition ThinkingLevelHigh : ThinkingLevel := "high".
Definition ThinkingLevelMax : ThinkingLevel := "max".

Definition ModelSupportsThinking (reg : ModelRegistry) (model : string) : bool :=
  if String.eqb model "" then false
  else match GetModelInfo reg model with
       | Some info => match Thinking info with Some _ => true | None => false end
       | None => false
       end.

Definition GetModelThinkingMin (reg : ModelRegistry) (model : string) : Z :=
  if String.eqb model "" then 0
  else match GetModelInfo reg model with
       | Some info =>
           match Thinking info with
           | Some ts => Min ts
           | None => 0
           end
       | None => 0
       end.

Definition GetDefaultThinkingBudget (reg : ModelRegistry) (model : string) : Z :=
  let min := GetModelThinkingMin reg model in
  if 0 <? min then min else DefaultThinkingBudget.

Definition GetAutoAppliedThinkingConfig (reg : ModelRegistry) (model : string)
  : Z * bool * bool :=
  if ModelSupportsThinking reg model
  then (GetDefaultThinkingBudget reg model, true, true)
  else (0, false, false).

(** The switch of [ParseThinkingSuffix]: the first matching case wins. *)
Definition ParseThinkingSuffix (modelName : string) : ThinkingLevel * bool :=
  if Strings.HasSuffix modelName "-thinking-max" then (ThinkingLevelMax, true)
  else if Strings.HasSuffix modelName "-thinking-high" then (ThinkingLevelHigh, true)
  else if Strings.HasSuffix modelName "-thinking-medium" then (ThinkingLevelMedium, true)
  else if Strings.HasSuffix modelName "-thinking-low" then (ThinkingLevelLow, true)
  else if Strings.HasSuffix modelName "-thinking" then (ThinkingLevelMax, true)
  else ("", false).

(** The level lookup of priority 2: an unknown level gives 0. *)
Definition suffix_level_budget (budgets : ThinkingBudgets) (lvl : ThinkingLevel) : Z :=
  if String.eqb lvl ThinkingLevelLow then Low budgets
  else if String.eqb lvl ThinkingLevelMedium then Medium budgets
  else if String.eqb lvl ThinkingLevelHigh then High budgets
  else if String.eqb lvl ThinkingLevelMax then Max budgets
  else 0.

(** The level lookup of priority 3: an unknown level gives [Min]. *)
Definition default_level_budget (ts : ThinkingSupport) (budgets : ThinkingBudgets) : Z :=
  let lvl := DefaultLevel ts in
  if String.eqb lvl Registry.ThinkingLevelLow then Low budgets
  else if String.eqb lvl Registry.ThinkingLevelMedium then Medium budgets
  else if String.eqb lvl Registry.ThinkingLevelHigh then High budgets
  else if String.eqb lvl Registry.ThinkingLevelMax then Max budgets
  else Min ts.

(** [budgets := ts.Budgets; if budgets == ThinkingBudgets{} { budgets = DefaultThinkingBudgets }]. *)
Definition effective_budgets (ts : ThinkingSupport) : ThinkingBudgets :=
  if ThinkingBudgets_is_zero (Budgets ts) then DefaultThinkingBudgets
  else Budgets ts.

(** The two clamping statements at the end of [GetThinkingBudget], in
    the order of the source. *)
Definition apply_min_max (ts : ThinkingSupport) (budget : Z) : Z :=
  let budget := if (budget <? Min ts) && (0 <? Min ts) then Min ts else budget in
  let budget := if (TMax ts <? budget) && (0 <? TMax ts) then TMax ts else budget in
  budget.

Definition GetThinkingBudget (reg : ModelRegistry) (model : string)
    (suffixLevel : ThinkingLevel) (userBudget : Z) : Z * bool :=
  match GetModelInfo reg model with
  | None => (0, false)
  | Some info =>
      match Thinking info with
      | None => (0, false)
      | Some ts =>
          let budget :=
            if 0 <? userBudget then userBudget
            else if negb (String.eqb suffixLevel "") then
              suffix_level_budget (effective_budgets ts) suffixLevel
            else if negb (String.eqb (DefaultLevel ts) "") then
              default_level_budget ts (effective_budgets ts)
            else Min ts in
          let budget := apply_min_max ts budget in
          (budget, 0 <? budget)
      end
  end.

(** The clamp as the specification words it: raise to [min] when
    [min > 0] and the budget is below it, then lower to [max] when
    [max > 0] and the budget is above it. *)
Definition clamp_spec (min max budget : Z) : Z :=
  let raised := if decide (0 < min ∧ budget < min) then min else budget in
  if decide (0 < max ∧ max < raised) then max else raised.

End Util.

(** ** JSON documents, read with gjson and written with sjson

    The sources never inspect the bytes of a body themselves: they read
    it with [gjson.GetBytes] and write it with [sjson.SetBytes]. A body is
    therefore kept as the document these libraries see. Members of an
    object are an association list in the order of the text, duplicates
    included. The paths of the sources are dot-separated plain member
    names (no index, wildcard or modifier). Bytes that are not the text
    of a document are followed through the scan of the libraries in
    [GjsonBytes] and [SjsonBytes] below. *)

Module Json.

(** A document. [JNum n] is a number written as an integer. [JReal
    text i] is a number written otherwise (with a fraction or an
    exponent): its text, and the integer [Result.Int()] makes of it,
    which is the library's conversion of the text to a [float64] and of
    that to an [int64] and is not computed here. *)
#[warnings="-register-all"] Inductive json : Type :=
| JNull
| JBool (b : bool)
| JNum (n : Z)
| JReal (text : string) (i : Z)
| JStr (s : string)
| JArr (items : list json)
| JObj (members : list (string * json)).

(** A [gjson.Result]: [None] when the path matched nothing. *)
Definition Result := option json.

(** Two's-complement reading of an integer as an [int64]. *)
Definition wrap64 (z : Z) : Z := (z + 2 ^ 63) mod 2 ^ 64 - 2 ^ 63.

Definition is_digit (c : ascii) : bool :=
  let n := N_of_ascii c in (48 <=? n)%N && (n <=? 57)%N.

(** Splits a path at its dots. *)
Fixpoint split_path_go (cur : string) (s : string) : list string :=
  match s with
  | EmptyString => [cur]
  | String c s' =>
      if Ascii.eqb c "."%char then cur :: split_path_go "" s'
      else split_path_go (cur ++ String c "")%string s'
  end.

Definition split_path (path : string) : list string :=
  if String.eqb path "" then [] else split_path_go "" path.

(** Object lookup of gjson: members are scanned in order; a member whose
    name matches is taken if the rest of the path resolves inside it,
    otherwise the scan goes on. *)
Fixpoint find_member (rest : json -> Result) (key : string)
    (ms : list (string * json)) : Result :=
  match ms with
  | [] => None
  | (k, v) :: ms' =>
      if String.eqb k key then
        match rest v with
        | Some r => Some r
        | None => find_member rest key ms'
        end
      else find_member rest key ms'
  end.

Fixpoint Get_path (p : list string) (j : json) : Result :=
  match p with
  | [] => Some j
  | key :: rest =>
      match j with
      | JObj ms => find_member (Get_path rest) key ms
      | _ => None
      end
  end.

(** [gjson.GetBytes(body, path)] and [Result.Get(path)]. *)
Definition Get (j : json) (path : string) : Result :=
  Get_path (split_path path) j.

Definition Result_Get (r : Result) (path : string) : Result :=
  match r with
  | Some j => Get j path
  | None => None
  end.

Definition Result_Exists (r : Result) : bool :=
  match r with Some _ => true | None => false end.

Definition Result_IsArray (r : Result) : bool :=
  match r with Some (JArr _) => true | _ => false end.

(** The loop of gjson's [parseInt]: [n = n*10 + int64(s[i]-'0')]. *)
Fixpoint parse_digits (s : string) (n : Z) : Z * bool :=
  match s with
  | EmptyString => (n, true)
  | String c s' =>
      if is_digit c
      then parse_digits s' (wrap64 (n * 10 + (Z.of_N (N_of_ascii c) - 48)))
      else (0, false)
  end.

Definition parseInt (s : string) : Z * bool :=
  match s with
  | EmptyString => (0, false)
  | String c s' =>
      if Ascii.eqb c "-"%char then
        match s' with
        | EmptyString => (0, false)
        | _ => let '(n, ok) := parse_digits s' 0 in
               if ok then (wrap64 (n * -1), true) else (0, false)
        end
      else parse_digits s 0
  end.

(** [Result.Int()]. *)
Definition Result_Int (r : Result) : Z :=
  match r with
  | Some (JBool true) => 1
  | Some (JStr s) => fst (parseInt s)
  | Some (JNum n) => wrap64 n
  | Some (JReal _ i) => wrap64 i
  | _ => 0
  end.

Section RawText.
(** The text of a number, array or object inside the body, which
    [Result.String()] hands back as it stands. *)
Variable raw : json -> string.

(** [Result.String()]. *)
Definition Result_String (r : Result) : string :=
  match r with
  | None => ""
  | Some JNull => ""
  | Some (JBool true) => "true"
  | Some (JBool false) => "false"
  | Some (JStr s) => s
  | Some j => raw j
  end.
End RawText.

(** The elements [Result.ForEach] visits in an array. *)
Definition array_items (r : Result) : list json :=
  match r with Some (JArr items) => items | _ => [] end.

(** sjson builds the missing tail of a path as nested objects. *)
Fixpoint build (p : list string) (v : json) : json :=
  match p with
  | [] => v
  | key :: rest => JObj [(key, build rest v)]
  end.

Definition has_member (key : string) (ms : list (string * json)) : bool :=
  existsb (fun kv => String.eqb (fst kv) key) ms.

(** Rewrites the value of the first member named [key]. *)
Fixpoint update_first (f : json -> option json) (key : string)
    (ms : list (string * json)) : option (list (string * json)) :=
  match ms with
  | [] => Some []
  | (k, v) :: ms' =>
      if String.eqb k key then
        match f v with
        | Some v' => Some ((k, v') :: ms')
        | None => None
        end
      else
        match update_first f key ms' with
        | Some ms'' => Some ((k, v) :: ms'')
        | None => None
        end
  end.

(** sjson's [set] on a simple path; [None] is an error. The first
    component is looked up with gjson: when found, the value is replaced
    (last component) or rewritten inside (more components); when not
    found, a member is appended to an object, a scalar document is
    replaced by a fresh object, and an array is an error (the name is no
    index). *)
Fixpoint Set_path (p : list string) (v : json) (j : json) : option json :=
  match p with
  | [] => None
  | key :: rest =>
      match j with
      | JObj ms =>
          if has_member key ms then
            match rest with
            | [] =>
                match update_first (fun _ => Some v) key ms with
                | Some ms' => Some (JObj ms')
                | None => None
                end
            | _ :: _ =>
                match update_first (Set_path rest v) key ms with
                | Some ms' => Some (JObj ms')
                | None => None
                end
            end
          else Some (JObj (ms ++ [(key, build rest v)]))
      | JArr _ => None
      | _ => Some (JObj [(key, build rest v)])
      end
  end.

(** [body, _ = sjson.SetBytes(body, path, value)]: on an error sjson
    hands the input back and the caller drops the error. *)
Definition SetBytes (body : json) (path : string) (v : json) : json :=
  match Set_path (split_path path) v body with
  | Some body' => body'
  | None => body
  end.

End Json.

(** ** Package providers, thinking configuration *)

Module Providers.
Import Registry Json.

Record ThinkingConfig := {
  Enabled : bool;
  BudgetTokens : Z
}.

(** [None] is the nil pointer. *)
Definition ParseClaudeThinkingFromModel (reg : ModelRegistry) (modelName : string)
  : option ThinkingConfig :=
  let '(suffixLevel, isThinking) := Util.ParseThinkingSuffix modelName in
  if negb isThinking then None
  else
    let '(budget, _) := Util.GetThinkingBudget reg modelName suffixLevel 0 in
    if budget <=? 0 then None
    else Some {| Enabled := true; BudgetTokens := budget |}.

(** The receiver [t] is a pointer, [None] when nil. *)
Definition ApplyToClaude (t : option ThinkingConfig) (body : json) : json :=
  match t with
  | None => body
  | Some t =>
      if negb (Enabled t) then body
      else if Result_Exists (Get body "thinking") then body
      else
        let body := SetBytes body "thinking.type" (JStr "enabled") in
        let body := SetBytes body "thinking.budget_tokens" (JNum (BudgetTokens t)) in
        body
  end.

Definition fallbackBuffer : Z := 4000.

Section RawText.
Variable raw : json -> string.

Definition EnsureClaudeMaxTokens (reg : ModelRegistry) (modelName : string)
    (body : json) : json :=
  let thinkingType := Result_String raw (Get body "thinking.type") in
  if negb (String.eqb thinkingType "enabled") then body
  else
    let budgetTokens := Result_Int (Get body "thinking.budget_tokens") in
    if budgetTokens <=? 0 then body
    else
      let maxTokens := Result_Int (Get body "max_tokens") in
      let maxCompletionTokens :=
        match GetModelInfo reg modelName with
        | Some modelInfo => MaxCompletionTokens modelInfo
        | None => 0
        end in
      let requiredMaxTokens := wrap64 (budgetTokens + fallbackBuffer) in
      let requiredMaxTokens :=
        if 0 <? maxCompletionTokens then wrap64 maxCompletionTokens
        else requiredMaxTokens in
      if maxTokens <? requiredMaxTokens
      then SetBytes body "max_tokens" (JNum requiredMaxTokens)
      else body.
End RawText.

End Providers.

(** ** Package util, the Gemini token counter *)

Module Tokenizer.
Import Json.

(** [genai.Part] and [genai.Content], with the fields the counter fills. *)
Record Part := { Text : string }.
Record Content := { Role : string; Parts : list Part }.

Definition NewPartFromText (text : string) : Part := {| Text := text |}.

(** [s[i:i+len(sub)] == sub]. *)
Definition slice_eq (s sub : string) (i : nat) : bool :=
  String.eqb (substring i (String.length sub) s) sub.

(** The inner loop of [containsAny] for one [sub]. *)
Definition contains (s sub : string) : bool :=
  (String.length sub <=? String.length s)%nat &&
  existsb (slice_eq s sub) (seq 0 (String.length s - String.length sub + 1)).

Definition containsAny (s : string) (substrs : list string) : bool :=
  existsb (contains s) substrs.

Definition normalizeModelForTokenizer (model : string) : string :=
  if containsAny model ["gemini-3"; "gemini-2.5"; "gemini-2.0"] then "gemini-2.0-flash"
  else if containsAny model ["gemini-1.5"] then "gemini-1.5-flash"
  else if containsAny model ["gemini-1.0"; "gemini-pro"] then "gemini-1.0-pro"
  else "gemini-2.0-flash".

Section Counter.
(** The text of composite values, see [Json.Result_String]. *)
Variable raw : json -> string.
(** The tokenizer library: handles, Go errors, the constructor and the
    count call ([TotalTokens] of its result, an [int32]). *)
Variable LocalTokenizer : Type.
Variable error : Type.
Variable NewLocalTokenizer : string -> LocalTokenizer + error.
Variable CountTokens : LocalTokenizer -> list Content -> Z + error.

(** [None] is the nil content. *)
Definition parseContent (value : json) (role : string) : option Content :=
  let parts := Get value "parts" in
  if negb (Result_IsArray parts) then None
  else
    let genaiParts :=
      flat_map
        (fun part =>
           match Get part "text" with
           | Some text => [NewPartFromText (Result_String raw (Some text))]
           | None => []
           end)
        (array_items parts) in
    match genaiParts with
    | [] => None
    | _ :: _ => Some {| Role := role; Parts := genaiParts |}
    end.

(** The choice between the wrapped and the native schema:
    [(contentsPath, systemPath)]. *)
Definition schema_paths (payload : json) : string * string :=
  if Result_Exists (Get payload "request.contents")
  then ("request.contents", "request.systemInstruction")
  else ("contents", "systemInstruction").

Definition extractContentsFromPayload (payload : json) : list Content :=
  let '(contentsPath, systemPath) := schema_paths payload in
  let contents :=
    match Get payload systemPath with
    | Some systemInstruction =>
        match parseContent systemInstruction "user" with
        | Some content => [content]
        | None => []
        end
    | None => []
    end in
  let contentsArr := Get payload contentsPath in
  if negb (Result_IsArray contentsArr) then contents
  else
    contents ++
    flat_map
      (fun value =>
         let role := Result_String raw (Get value "role") in
         let role := if String.eqb role "" then "user" else role in
         match parseContent value role with
         | Some content => [content]
         | None => []
         end)
      (array_items contentsArr).

(** [getOrCreateTokenizer] run by one caller at a time: the cache is
    threaded through. The interleaved runs are in [Concurrent]. *)
Definition getOrCreateTokenizer (model : string)
    (tokenizerCache : gmap string LocalTokenizer)
  : (LocalTokenizer + error) * gmap string LocalTokenizer :=
  let baseModel := normalizeModelForTokenizer model in
  match tokenizerCache !! baseModel with
  | Some tok => (inl tok, tokenizerCache)
  | None =>
      match tokenizerCache !! baseModel with
      | Some tok => (inl tok, tokenizerCache)
      | None =>
          match NewLocalTokenizer baseModel with
          | inr err => (inr err, tokenizerCache)
          | inl tok => (inl tok, <[baseModel := tok]> tokenizerCache)
          end
      end
  end.

Definition CountTokensFromGeminiRequest (model : string) (payload : json)
    (tokenizerCache : gmap string LocalTokenizer)
  : Z * gmap string LocalTokenizer :=
  match getOrCreateTokenizer model tokenizerCache with
  | (inr _, cache') => (0, cache')
  | (inl tok, cache') =>
      let contents := extractContentsFromPayload payload in
      if (length contents =? 0)%nat then (0, cache')
      else
        match CountTokens tok contents with
        | inr _ => (0, cache')
        | inl totalTokens => (totalTokens, cache')
        end
  end.
End Counter.

End Tokenizer.

(** ** Concurrent callers of getOrCreateTokenizer

    Each caller runs the statements of [getOrCreateTokenizer] one at a
    time; the callers share the cache and the read-write mutex, and a run
    of the process is an interleaving of their steps. A read lock is
    granted when no caller holds the write lock, the write lock when no
    caller holds either; Go's mutex also makes new readers wait behind a
    waiting writer, which only rules out some of the interleavings
    considered here.

    What [tokenizer.NewLocalTokenizer] hands back is not a function of
    its argument: it may fail for one caller and hand the next one an
    instance, and every instance it hands back is a new one. The
    constructor is therefore given by its calls: [NewLocalTokenizer n key]
    is what the call number [n] of the process (counted from 0) hands
    back when asked for [key]. The theorems hold for every such
    sequence of calls. *)

Module Concurrent.
Import Tokenizer.

Section Threads.
Variable LocalTokenizer : Type.
Variable error : Type.
Variable NewLocalTokenizer : nat -> string -> LocalTokenizer + error.

(** Where a caller stands in the body of the function. *)
Inductive pc : Type :=
| AtRLock     (* tokenizerCacheMu.RLock() *)
| AtRead      (* tok, ok := tokenizerCache[baseModel] *)
| AtRUnlock (hit : option LocalTokenizer)
              (* tokenizerCacheMu.RUnlock(); if ok { return tok, nil } *)
| AtLock      (* tokenizerCacheMu.Lock(); defer tokenizerCacheMu.Unlock() *)
| AtRecheck   (* if tok, ok := tokenizerCache[baseModel]; ok { return } *)
| AtNew       (* tok, err := tokenizer.NewLocalTokenizer(baseModel) *)
| AtInsert (tok : LocalTokenizer)
              (* tokenizerCache[baseModel] = tok; return tok, nil *)
| Returned (r : LocalTokenizer + error).

Record thread := {
  model : string;
  at_pc : pc
}.

Definition baseModel (t : thread) : string :=
  normalizeModelForTokenizer (model t).

(** The process-wide state: the cache, the state of
    [tokenizerCacheMu] (number of read holders, write holder), and two
    logs of the calls of [NewLocalTokenizer], latest first: the keys for
    which a call handed back an instance, and the keys for which a call
    handed back an error. *)
Record shared := {
  tokenizerCache : gmap string LocalTokenizer;
  readers : nat;
  writer : bool;
  constructed : list string;
  failed : list string
}.

(** How many calls of the constructor the process has made. *)
Definition calls (sh : shared) : nat :=
  (length (constructed sh) + length (failed sh))%nat.

Inductive thread_step (key : string) : pc * shared -> pc * shared -> Prop :=
| step_rlock sh :
    writer sh = false ->
    thread_step key (AtRLock, sh)
      (AtRead, {| tokenizerCache := tokenizerCache sh; readers := S (readers sh);
                  writer := writer sh; constructed := constructed sh;
                  failed := failed sh |})
| step_read sh :
    thread_step key (AtRead, sh) (AtRUnlock (tokenizerCache sh !! key), sh)
| step_runlock_hit sh tok :
    thread_step key (AtRUnlock (Some tok), sh)
      (Returned (inl tok),
       {| tokenizerCache := tokenizerCache sh; readers := pred (readers sh);
          writer := writer sh; constructed := constructed sh;
          failed := failed sh |})
| step_runlock_miss sh :
    thread_step key (AtRUnlock None, sh)
      (AtLock,
       {| tokenizerCache := tokenizerCache sh; readers := pred (readers sh);
          writer := writer sh; constructed := constructed sh;
          failed := failed sh |})
| step_lock sh :
    writer sh = false -> readers sh = 0%nat ->
    thread_step key (AtLock, sh)
      (AtRecheck, {| tokenizerCache := tokenizerCache sh; readers := readers sh;
                     writer := true; constructed := constructed sh;
                     failed := failed sh |})
| step_recheck_hit sh tok :
    tokenizerCache sh !! key = Some tok ->
    thread_step key (AtRecheck, sh)
      (Returned (inl tok),
       {| tokenizerCache := tokenizerCache sh; readers := readers sh;
          writer := false; constructed := constructed sh;
          failed := failed sh |})
| step_recheck_miss sh :
    tokenizerCache sh !! key = None ->
    thread_step key (AtRecheck, sh) (AtNew, sh)
| step_new_err sh err :
    NewLocalTokenizer (calls sh) key = inr err ->
    thread_step key (AtNew, sh)
      (Returned (inr err),
       {| tokenizerCache := tokenizerCache sh; readers := readers sh;
          writer := false; constructed := constructed sh;
          failed := key :: failed sh |})
| step_new_ok sh tok :
    NewLocalTokenizer (calls sh) key = inl tok ->
    thread_step key (AtNew, sh)
      (AtInsert tok,
       {| tokenizerCache := tokenizerCache sh; readers := readers sh;
          writer := writer sh; constructed := key :: constructed sh;
          failed := failed sh |})
| step_insert sh tok :
    thread_step key (AtInsert tok, sh)
      (Returned (inl tok),
       {| tokenizerCache := <[key := tok]> (tokenizerCache sh);
          readers := readers sh; writer := false;
          constructed := constructed sh; failed := failed sh |}).

Record config := {
  threads : list thread;
  mem : shared
}.

(** One step of the process: some caller [i] takes its next step. *)
Inductive step : config -> config -> Prop :=
| step_thread (i : nat) (t : thread) (ts : list thread) (sh sh' : shared) (p' : pc) :
    ts !! i = Some t ->
    thread_step (baseModel t) (at_pc t, sh) (p', sh') ->
    step {| threads := ts; mem := sh |}
         {| threads := <[i := {| model := model t; at_pc := p' |}]> ts;
            mem := sh' |}.

(** [N] callers, given by their model names, about to enter the
    function, over a cache [c0] with the mutex free. *)
Definition initial (models : list string) (c0 : gmap string LocalTokenizer) : config :=
  {| threads := map (fun m => {| model := m; at_pc := AtRLock |}) models;
     mem := {| tokenizerCache := c0; readers := 0; writer := false;
               constructed := []; failed := [] |} |}.

Definition reachable (models : list string) (c0 : gmap string LocalTokenizer)
    (c : config) : Prop :=
  rtc step (initial models c0) c.

Definition is_returned (p : pc) : bool :=
  match p with Returned _ => true | _ => false end.

(** Every caller has returned. *)
Definition finished (c : config) : Prop :=
  Forall (fun t => is_returned (at_pc t) = true) (threads c).

(** How many instances were constructed for [key]. *)
Definition instances (key : string) (c : config) : nat :=
  count_occ String.string_dec (constructed (mem c)) key.

(** How many calls of the constructor for [key] handed back an
    error. *)
Definition failures (key : string) (c : config) : nat :=
  count_occ String.string_dec (failed (mem c)) key.

Definition is_error (p : pc) : bool :=
  match p with Returned (inr _) => true | _ => false end.

(** How many callers for [key] have returned an error. *)
Definition errors_returned (key : string) (c : config) : nat :=
  length (List.filter (fun t => is_error (at_pc t) && String.eqb (baseModel t) key)
            (threads c)).

(** The caller holds the write lock. *)
Definition holds_lock (p : pc) : bool :=
  match p with
  | AtRecheck | AtNew | AtInsert _ => true
  | _ => false
  end.

(** The step relation as a function: the next step of a caller, if it
    can take one ([None] when it waits for the mutex or has
    returned). *)
Definition thread_exec (key : string) (p : pc) (sh : shared) : option (pc * shared) :=
  match p with
  | AtRLock =>
      if writer sh then None
      else Some (AtRead,
                 {| tokenizerCache := tokenizerCache sh; readers := S (readers sh);
                    writer := writer sh; constructed := constructed sh;
                    failed := failed sh |})
  | AtRead => Some (AtRUnlock (tokenizerCache sh !! key), sh)
  | AtRUnlock (Some tok) =>
      Some (Returned (inl tok),
            {| tokenizerCache := tokenizerCache sh; readers := pred (readers sh);
               writer := writer sh; constructed := constructed sh;
               failed := failed sh |})
  | AtRUnlock None =>
      Some (AtLock,
            {| tokenizerCache := tokenizerCache sh; readers := pred (readers sh);
               writer := writer sh; constructed := constructed sh;
               failed := failed sh |})
  | AtLock =>
      if writer sh then None
      else if (readers sh =? 0)%nat then
        Some (AtRecheck,
              {| tokenizerCache := tokenizerCache sh; readers := readers sh;
                 writer := true; constructed := constructed sh;
                 failed := failed sh |})
      else None
  | AtRecheck =>
      match tokenizerCache sh !! key with
      | Some tok =>
          Some (Returned (inl tok),
                {| tokenizerCache := tokenizerCache sh; readers := readers sh;
                   writer := false; constructed := constructed sh;
                   failed := failed sh |})
      | None => Some (AtNew, sh)
      end
  | AtNew =>
      match NewLocalTokenizer (calls sh) key with
      | inr err =>
          Some (Returned (inr err),
                {| tokenizerCache := tokenizerCache sh; readers := readers sh;
                   writer := false; constructed := constructed sh;
                   failed := key :: failed sh |})
      | inl tok =>
          Some (AtInsert tok,
                {| tokenizerCache := tokenizerCache sh; readers := readers sh;
                   writer := writer sh; constructed := key :: constructed sh;
                   failed := failed sh |})
      end
  | AtInsert tok =>
      Some (Returned (inl tok),
            {| tokenizerCache := <[key := tok]> (tokenizerCache sh);
               readers := readers sh; writer := false;
               constructed := constructed sh; failed := failed sh |})
  | Returned _ => None
  end.

(** Caller [i] takes a step. *)
Definition exec (i : nat) (c : config) : option config :=
  match threads c !! i with
  | None => None
  | Some t =>
      match thread_exec (baseModel t) (at_pc t) (mem c) with
      | None => None
      | Some (p', sh') =>
          Some {| threads := <[i := {| model := model t; at_pc := p' |}]> (threads c);
                  mem := sh' |}
      end
  end.

(** The callers step in the order of a schedule. *)
Fixpoint run (schedule : list nat) (c : config) : option config :=
  match schedule with
  | [] => Some c
  | i :: rest =>
      match exec i c with
      | None => None
      | Some c' => run rest c'
      end
  end.

Definition is_insert (p : pc) : bool :=
  match p with AtInsert _ => true | _ => false end.

(** A caller is about to insert an instance for [key]. *)
Definition pending (key : string) (c : config) : bool :=
  existsb (fun t => is_insert (at_pc t) && String.eqb (baseModel t) key) (threads c).

(** What holds in every state of a run from [initial models c0]. *)
Record invariant (models : list string) (c0 : gmap string LocalTokenizer)
    (c : config) : Prop := {
  inv_models : map model (threads c) = models;
  inv_cache_grows : c0 ⊆ tokenizerCache (mem c);
  inv_writer_free :
    writer (mem c) = false ->
    forall i t, threads c !! i = Some t -> holds_lock (at_pc t) = false;
  inv_writer_one :
    forall i j ti tj,
      threads c !! i = Some ti -> threads c !! j = Some tj ->
      holds_lock (at_pc ti) = true -> holds_lock (at_pc tj) = true -> i = j;
  inv_miss :
    forall i t,
      threads c !! i = Some t ->
      at_pc t = AtNew \/ (exists tok, at_pc t = AtInsert tok) ->
      tokenizerCache (mem c) !! baseModel t = None;
  inv_pending :
    forall i t tok,
      threads c !! i = Some t -> at_pc t = AtInsert tok ->
      instances (baseModel t) c = 1%nat /\
      exists n, NewLocalTokenizer n (baseModel t) = inl tok;
  inv_settled :
    forall key,
      (forall i t tok, threads c !! i = Some t -> at_pc t = AtInsert tok ->
                       baseModel t <> key) ->
      instances key c =
        if decide (c0 !! key = None /\ is_Some (tokenizerCache (mem c) !! key))
        then 1%nat else 0%nat;
  inv_inserted :
    forall key tok,
      c0 !! key = None -> tokenizerCache (mem c) !! key = Some tok ->
      exists n, NewLocalTokenizer n key = inl tok;
  inv_hit :
    forall i t tok,
      threads c !! i = Some t -> at_pc t = AtRUnlock (Some tok) ->
      is_Some (tokenizerCache (mem c) !! baseModel t);
  inv_returned_ok :
    forall i t tok,
      threads c !! i = Some t -> at_pc t = Returned (inl tok) ->
      is_Some (tokenizerCache (mem c) !! baseModel t);
  inv_returned_err :
    forall i t err,
      threads c !! i = Some t -> at_pc t = Returned (inr err) ->
      exists n, NewLocalTokenizer n (baseModel t) = inr err;
  inv_failures :
    forall key, failures key c = errors_returned key c
}.
End Threads.

Arguments AtRLock {LocalTokenizer error}.
Arguments AtRead {LocalTokenizer error}.
Arguments AtRUnlock {LocalTokenizer error} hit.
Arguments AtLock {LocalTokenizer error}.
Arguments AtRecheck {LocalTokenizer error}.
Arguments AtNew {LocalTokenizer error}.
Arguments AtInsert {LocalTokenizer error} tok.
Arguments Returned {LocalTokenizer error} r.
Arguments Build_thread {LocalTokenizer error} model at_pc.
Arguments model {LocalTokenizer error} t.
Arguments at_pc {LocalTokenizer error} t.
Arguments baseModel {LocalTokenizer error} t.
Arguments Build_shared {LocalTokenizer} tokenizerCache readers writer constructed failed.
Arguments tokenizerCache {LocalTokenizer} s.
Arguments readers {LocalTokenizer} s.
Arguments writer {LocalTokenizer} s.
Arguments constructed {LocalTokenizer} s.
Arguments failed {LocalTokenizer} s.
Arguments calls {LocalTokenizer} sh.
Arguments Build_config {LocalTokenizer error} threads mem.
Arguments threads {LocalTokenizer error} c.
Arguments mem {LocalTokenizer error} c.
Arguments thread_step {LocalTokenizer error} NewLocalTokenizer key _ _.
Arguments step {LocalTokenizer error} NewLocalTokenizer _ _.
Arguments initial {LocalTokenizer} error models c0.
Arguments reachable {LocalTokenizer error} NewLocalTokenizer models c0 c.
Arguments is_returned {LocalTokenizer error} p.
Arguments finished {LocalTokenizer error} c.
Arguments instances {LocalTokenizer error} key c.
Arguments failures {LocalTokenizer error} key c.
Arguments is_error {LocalTokenizer error} p.
Arguments errors_returned {LocalTokenizer error} key c.
Arguments holds_lock {LocalTokenizer error} p.
Arguments is_insert {LocalTokenizer error} p.
Arguments pending {LocalTokenizer error} key c.
Arguments invariant {LocalTokenizer error} NewLocalTokenizer models c0 c.
Arguments thread_exec {LocalTokenizer error} NewLocalTokenizer key p sh.
Arguments exec {LocalTokenizer error} NewLocalTokenizer i c.
Arguments run {LocalTokenizer error} NewLocalTokenizer schedule c.

End Concurrent.

(** ** Package login, the Claude authenticator *)

Module Login.

Definition nl : string := String (ascii_of_nat 10) "".

(** Go strings are byte strings; [byte_at s i] is [s[i]]. *)
Definition byte_at (s : string) (i : nat) : N :=
  match String.get i s with
  | Some c => N_of_ascii c
  | None => 0%N
  end.

(** [s[i:]]. *)
Definition slice_from (s : string) (i : nat) : string :=
  substring i (String.length s - i) s.

(** *** Package utf8 of the Go library *)

Definition RuneError : N := 0xFFFD%N.
Definition RuneSelf : N := 0x80%N.

(** The table [first] for a byte that is not ASCII: the size of the
    encoding it starts and the range accepted for the second byte; size
    0 for a byte that starts no encoding. *)
Definition first_byte (s0 : N) : nat * N * N :=
  (if s0 <? 0xC2 then (0%nat, 0, 0)
   else if s0 <=? 0xDF then (2%nat, 0x80, 0xBF)
   else if s0 =? 0xE0 then (3%nat, 0xA0, 0xBF)
   else if s0 =? 0xED then (3%nat, 0x80, 0x9F)
   else if s0 <=? 0xEF then (3%nat, 0x80, 0xBF)
   else if s0 =? 0xF0 then (4%nat, 0x90, 0xBF)
   else if s0 <=? 0xF3 then (4%nat, 0x80, 0xBF)
   else if s0 =? 0xF4 then (4%nat, 0x80, 0x8F)
   else (0%nat, 0, 0))%N.

(** [utf8.DecodeRuneInString]: the first rune of [s] and its width in
    bytes; [(RuneError, 1)] for a byte sequence that is no encoding. *)
Definition DecodeRuneInString (s : string) : N * nat :=
  let n := String.length s in
  if (n <? 1)%nat then (RuneError, 0%nat)
  else
    let s0 := byte_at s 0 in
    if (s0 <? RuneSelf)%N then (s0, 1%nat)
    else
      let '(sz, lo, hi) := first_byte s0 in
      if (sz =? 0)%nat then (RuneError, 1%nat)
      else if (n <? sz)%nat then (RuneError, 1%nat)
      else
        let s1 := byte_at s 1 in
        if ((s1 <? lo) || (hi <? s1))%N then (RuneError, 1%nat)
        else if (sz <=? 2)%nat
        then (N.lor (N.shiftl (N.land s0 0x1F) 6) (N.land s1 0x3F), 2%nat)
        else
          let s2 := byte_at s 2 in
          if ((s2 <? 0x80) || (0xBF <? s2))%N then (RuneError, 1%nat)
          else if (sz <=? 3)%nat
          then (N.lor (N.lor (N.shiftl (N.land s0 0x0F) 12)
                             (N.shiftl (N.land s1 0x3F) 6))
                      (N.land s2 0x3F), 3%nat)
          else
            let s3 := byte_at s 3 in
            if ((s3 <? 0x80) || (0xBF <? s3))%N then (RuneError, 1%nat)
            else (N.lor (N.lor (N.lor (N.shiftl (N.land s0 0x07) 18)
                                      (N.shiftl (N.land s1 0x3F) 12))
                               (N.shiftl (N.land s2 0x3F) 6))
                        (N.land s3 0x3F), 4%nat).

(** [utf8.RuneStart]: the byte is not a continuation byte. *)
Definition RuneStart (b : N) : bool := negb (N.land b 0xC0 =? 0x80)%N.

(** The loop of [DecodeLastRuneInString] that walks back to the start
    of the last rune, [for start--; start >= lim; start--], which looks
    at no more than [UTFMax - 1] bytes. *)
Fixpoint rune_start_back (n : nat) (s : string) (start lim : Z) : Z :=
  match n with
  | O => start
  | S n' =>
      if start <? lim then start
      else if RuneStart (byte_at s (Z.to_nat start)) then start
      else rune_start_back n' s (start - 1) lim
  end.

(** [utf8.DecodeLastRuneInString]: the last rune of [s] and its
    width. *)
Definition DecodeLastRuneInString (s : string) : N * nat :=
  let end_ := Z.of_nat (String.length s) in
  if end_ =? 0 then (RuneError, 0%nat)
  else
    let start := end_ - 1 in
    let r := byte_at s (Z.to_nat start) in
    if (r <? RuneSelf)%N then (r, 1%nat)
    else
      let lim := Z.max 0 (end_ - 4) in
      let start := rune_start_back 4 s (start - 1) lim in
      let start := if start <? 0 then 0 else start in
      let '(r, size) :=
        DecodeRuneInString (substring (Z.to_nat start) (Z.to_nat (end_ - start)) s) in
      if negb (start + Z.of_nat size =? end_) then (RuneError, 1%nat)
      else (r, size).

(** *** Package unicode of the Go library *)

(** [unicode.IsSpace]: in Latin-1 the six ASCII blanks, U+0085 and
    U+00A0; beyond, the code points with the White_Space property. *)
Definition IsSpace (r : N) : bool :=
  (if r <=? 0xFF
   then ((9 <=? r) && (r <=? 13)) || (r =? 0x20) || (r =? 0x85) || (r =? 0xA0)
   else (r =? 0x1680) || ((0x2000 <=? r) && (r <=? 0x200A)) ||
        (r =? 0x2028) || (r =? 0x2029) || (r =? 0x202F) || (r =? 0x205F) ||
        (r =? 0x3000))%N.

(** *** Package strings of the Go library *)

(** [indexFunc]: the index of the first rune [r] of [s], from byte [i]
    on, with [f r = truth]; [None] is -1. *)
Fixpoint indexFunc_from (fuel : nat) (s : string) (f : N -> bool) (truth : bool)
    (i : nat) : option nat :=
  match fuel with
  | O => None
  | S fuel' =>
      if (String.length s <=? i)%nat then None
      else
        let '(r, size) := DecodeRuneInString (slice_from s i) in
        if Bool.eqb (f r) truth then Some i
        else indexFunc_from fuel' s f truth (i + size)
  end.

Definition indexFunc (s : string) (f : N -> bool) (truth : bool) : option nat :=
  indexFunc_from (S (String.length s)) s f truth 0.

(** [lastIndexFunc]: the index of the last rune [r] of [s[0:i]] with
    [f r = truth]. *)
Fixpoint lastIndexFunc_from (fuel : nat) (s : string) (f : N -> bool) (truth : bool)
    (i : nat) : option nat :=
  match fuel with
  | O => None
  | S fuel' =>
      if (i =? 0)%nat then None
      else
        let '(r, size) := DecodeLastRuneInString (substring 0 i s) in
        let i := (i - size)%nat in
        if Bool.eqb (f r) truth then Some i
        else lastIndexFunc_from fuel' s f truth i
  end.

Definition lastIndexFunc (s : string) (f : N -> bool) (truth : bool) : option nat :=
  lastIndexFunc_from (S (String.length s)) s f truth (String.length s).

Definition TrimLeftFunc (s : string) (f : N -> bool) : string :=
  match indexFunc s f false with
  | None => ""
  | Some i => slice_from s i
  end.

Definition TrimRightFunc (s : string) (f : N -> bool) : string :=
  match lastIndexFunc s f false with
  | Some i =>
      if (RuneSelf <=? byte_at s i)%N
      then substring 0 (i + snd (DecodeRuneInString (slice_from s i))) s
      else substring 0 (i + 1) s
  | None => substring 0 0 s
  end.

Definition TrimFunc (s : string) (f : N -> bool) : string :=
  TrimRightFunc (TrimLeftFunc s f) f.

(** [strings.TrimSpace]: [s] without its leading and trailing white
    space, as Unicode defines it. The library goes through the ASCII
    blanks at both ends byte by byte first and hands the rest to
    [TrimFunc] and [TrimRightFunc] with [unicode.IsSpace], which gives
    what [TrimFunc] gives on the whole of [s]. *)
Definition TrimSpace (s : string) : string := TrimFunc s IsSpace.

(** [claude.ErrCodeExchangeFailed], the code the flow passes to
    [claude.NewAuthenticationError]. *)
Inductive ErrorCode : Type := ErrCodeExchangeFailed.

(** Go errors: one handed over by a collaborator, one made by
    [fmt.Errorf] (format and, with [%w], the wrapped error), and the
    structured authentication error of package claude. *)
#[warnings="-register-all"] Inductive error : Type :=
| External (msg : string)
| Errorf (format : string) (wrapped : option error)
| AuthenticationError (code : ErrorCode) (cause : error).

Record PKCECodes := { CodeVerifier : string; CodeChallenge : string }.
Record ClaudeAuthBundle := { APIKey : string; TokenData : string }.
Record ClaudeTokenStorage := { Email : string; AccessToken : string }.

Record LoginOptions := {
  NoBrowser : bool;
  Metadata : gmap string string
}.

Record Auth := {
  ID : string;
  Provider : string;
  FileName : string;
  Storage : ClaudeTokenStorage;
  AuthMetadata : gmap string string
}.

(** What [scanner.Scan()] finds on standard input: a line (without its
    end-of-line), the end of a closed input, or a read error. *)
Inductive ScanOutcome : Type :=
| ScanLine (text : string)
| ScanEOF
| ScanError (err : error).

(** The collaborators of the flow, as what they answer. *)
Record world := {
  GeneratePKCECodes : PKCECodes + error;
  GenerateRandomState : string + error;
  GenerateAuthURL : string -> PKCECodes -> (string * string) + error;
  browser_IsAvailable : bool;
  browser_OpenURL : string -> option error;
  stdin : ScanOutcome;
  ExchangeCodeForTokens : string -> string -> PKCECodes -> ClaudeAuthBundle + error;
  CreateTokenStorage : ClaudeAuthBundle -> option ClaudeTokenStorage
}.

(** What the flow does that can be observed from outside. *)
Inductive event : Type :=
| Stdout (text : string)
| LogWarnf (format : string) (err : error)
| LogDebug (text : string)
| OpenedURL (url : string)
| Exchanged (code state : string) (pkce : PKCECodes).

(** The flow runs in a monad of a result or an error, with the events
    so far. *)
Definition M (A : Type) : Type := list event * (A + error).

Definition ret {A} (a : A) : M A := ([], inl a).
Definition fail {A} (e : error) : M A := ([], inr e).
Definition emit (ev : event) : M unit := ([ev], inl tt).
Definition bind {A B} (m : M A) (k : A -> M B) : M B :=
  match m with
  | (evs, inr e) => (evs, inr e)
  | (evs, inl a) => let '(evs', r) := k a in ((evs ++ evs')%list, r)
  end.
(** [x, err := call; if err != nil { return nil, wrap(err) }]. *)
Definition or_fail {A} (r : A + error) (wrap : error -> error) : M A :=
  match r with
  | inl a => ret a
  | inr e => fail (wrap e)
  end.

#[global] Instance M_ret : MRet M := @ret.
#[global] Instance M_bind : MBind M := fun A B k m => bind m k.

Definition is_exchange (ev : event) : bool :=
  match ev with Exchanged _ _ _ => true | _ => false end.

(** The flow tried to exchange a code for tokens. *)
Definition exchange_attempted {A} (m : M A) : bool := existsb is_exchange (fst m).

(** The errors for a missing authorisation code: a read error, a closed
    input, an empty code. *)
Definition user_input_missing (e : error) : bool :=
  match e with
  | Errorf format (Some _) => String.eqb format "failed to read authorisation code: %w"
  | Errorf format None =>
      String.eqb format "no authorisation code provided" ||
      String.eqb format "empty authorisation code provided"
  | _ => false
  end.

Section Flow.
(** [config.Config] is only tested for nil. *)
Variable Config : Type.

Definition ClaudeAuthenticator_Provider : string := "claude".

(** [Login]; the context is handed on to the exchange untouched and
    is left out. [cfg] and [opts] are pointers. *)
Definition ClaudeAuthenticator_Login (w : world) (cfg : option Config)
    (opts : option LoginOptions) : M Auth :=
  match cfg with
  | None => fail (Errorf "cliproxy auth: configuration is required" None)
  | Some _ =>
      let opts := match opts with
                  | Some o => o
                  | None => {| NoBrowser := false; Metadata := ∅ |}
                  end in
      pkceCodes ← or_fail (GeneratePKCECodes w)
        (fun err => Errorf "claude pkce generation failed: %w" (Some err));
      state ← or_fail (GenerateRandomState w)
        (fun err => Errorf "claude state generation failed: %w" (Some err));
      url_state ← or_fail (GenerateAuthURL w state pkceCodes)
        (fun err => Errorf "claude authorisation url generation failed: %w" (Some err));
      let '(authURL, returnedState) := url_state in
      let state := returnedState in
      (if negb (NoBrowser opts) && browser_IsAvailable w then
         emit (Stdout ("Opening browser for Claude authentication..." ++ nl)) ;;
         emit (OpenedURL authURL) ;;
         match browser_OpenURL w authURL with
         | Some err => emit (LogWarnf "Failed to open browser automatically: %v" err)
         | None => ret tt
         end
       else ret tt) ;;
      emit (Stdout ("Visit the following URL to authenticate:" ++ nl ++ authURL ++ nl ++ nl)) ;;
      emit (Stdout "Paste the authorisation code from the browser: ") ;;
      text ← match stdin w with
             | ScanError err =>
                 fail (Errorf "failed to read authorisation code: %w" (Some err))
             | ScanEOF => fail (Errorf "no authorisation code provided" None)
             | ScanLine text => ret text
             end;
      let code := TrimSpace text in
      if String.eqb code "" then fail (Errorf "empty authorisation code provided" None)
      else
        emit (LogDebug "Claude authorisation code received; exchanging for tokens") ;;
        emit (Exchanged code state pkceCodes) ;;
        authBundle ← or_fail (ExchangeCodeForTokens w code state pkceCodes)
          (fun err => AuthenticationError ErrCodeExchangeFailed err);
        match CreateTokenStorage w authBundle with
        | None => fail (Errorf "claude token storage missing account information" None)
        | Some tokenStorage =>
            if String.eqb (Email tokenStorage) ""
            then fail (Errorf "claude token storage missing account information" None)
            else
              let fileName := ("claude-" ++ Email tokenStorage ++ ".json")%string in
              let metadata : gmap string string := {[ "email" := Email tokenStorage ]} in
              (if negb (String.eqb (APIKey authBundle) "")
               then emit (Stdout ("Claude API key obtained and stored" ++ nl))
               else ret tt) ;;
              ret {| ID := fileName;
                     Provider := ClaudeAuthenticator_Provider;
                     FileName := fileName;
                     Storage := tokenStorage;
                     AuthMetadata := metadata |}
        end
  end.
End Flow.

End Login.

(** ** Package misc, credential logging *)

Module Misc.

(** Splits a path at a separator byte. *)
Fixpoint split_on (sep : ascii) (cur : string) (s : string) : list string :=
  match s with
  | EmptyString => [cur]
  | String c s' =>
      if Ascii.eqb c sep then cur :: split_on sep "" s'
      else split_on sep (cur ++ String c "")%string s'
  end.

(** One path element of [filepath.Clean]: the kept names (last first)
    and the number of leading [..] of a path that is not rooted. *)
Definition clean_elem (rooted : bool) (st : list string * nat) (e : string)
  : list string * nat :=
  let '(kept, dotdots) := st in
  if String.eqb e "" || String.eqb e "." then st
  else if String.eqb e ".." then
    match kept with
    | _ :: kept' => (kept', dotdots)
    | [] => if rooted then st else ([], S dotdots)
    end
  else (e :: kept, dotdots).

(** [filepath.Clean] for slash-separated paths. *)
Definition Clean (path : string) : string :=
  if String.eqb path "" then "."
  else
    let rooted := String.prefix "/" path in
    let '(kept, dotdots) := fold_left (clean_elem rooted) (split_on "/" "" path) ([], 0%nat) in
    let out := String.concat "/" (repeat ".." dotdots ++ rev kept) in
    if rooted then ("/" ++ out)%string
    else if String.eqb out "" then "." else out.

(** [strings.Replace(s, old, new, 1)]: the leftmost occurrence of [old]
    is replaced; an empty [old] matches at the start. *)
Fixpoint Replace1 (s old new : string) : string :=
  if String.prefix old s
  then (new ++ substring (String.length old) (String.length s - String.length old) s)%string
  else match s with
       | EmptyString => EmptyString
       | String c s' => String c (Replace1 s' old new)
       end.

(** The home-directory prefix replaced by [~], as the specification
    words the display path: a path that starts with the home directory
    has that prefix replaced, any other path is shown as it is. *)
Definition replace_home_prefix_spec (home clean : string) : string :=
  if negb (String.eqb home "") && String.prefix home clean
  then ("~" ++ substring (String.length home) (String.length clean - String.length home) clean)%string
  else clean.

(** The path shown to the user. *)
Definition display_path (home path : string) : string :=
  Replace1 (Clean path) home "~".

(** [LogSavingCredentials]: what is printed on standard output;
    [home] is [os.Getenv("HOME")]. *)
Definition LogSavingCredentials (home path : string) : list string :=
  if String.eqb path "" then []
  else
    let clean := Replace1 (Clean path) home "~" in
    [("Saving credentials to to " ++ clean ++ Login.nl)%string].

End Misc.

(** ** Concrete registries, bodies and payloads of the scenarios *)

Module Scenarios.
Import Registry Json.

Definition sonnet_thinking : ThinkingSupport :=
  {| Min := 1024; TMax := 32768; DefaultLevel := "";
     Budgets := {| Low := 1024; Medium := 8192; High := 24576; Max := 32768 |} |}.

Definition sonnet_info : ModelInfo :=
  {| Thinking := Some sonnet_thinking; MaxCompletionTokens := 0 |}.

Definition sonnet_registry : ModelRegistry :=
  registry_of {[ "claude-sonnet-thinking-high" := sonnet_info ]}.

(** The same record under the base name only. *)
Definition base_only_registry : ModelRegistry :=
  registry_of {[ "claude-sonnet" := sonnet_info ]}.

(** Scenario S4: a body with too small a [max_tokens]. *)
Definition body_s4 : json :=
  JObj [("max_tokens", JNum 1000);
        ("thinking", JObj [("type", JStr "enabled"); ("budget_tokens", JNum 20000)])].

(** A body that asks for more output than the model's limit. *)
Definition body_large : json :=
  JObj [("max_tokens", JNum 100000);
        ("thinking", JObj [("type", JStr "enabled"); ("budget_tokens", JNum 1000)])].

Definition limited_info : ModelInfo :=
  {| Thinking := Some sonnet_thinking; MaxCompletionTokens := 8192 |}.

Definition limited_registry : ModelRegistry :=
  registry_of {[ "claude-sonnet" := limited_info ]}.

(** A registry that knows no model. *)
Definition empty_registry : ModelRegistry := registry_of ∅.

Definition no_raw : json -> string := fun _ => "".

(** Scenario S5: a wrapped payload with a text part and an image part,
    and the same payload in the native form. *)
Definition native_s5 : json :=
  JObj [("contents",
         JArr [JObj [("role", JStr "user");
                     ("parts", JArr [JObj [("text", JStr "hi")];
                                     JObj [("inline_data", JObj [])]])]])].

Definition wrapped_s5 : json := JObj [("request", native_s5)].

(** A tokenizer that takes every character of a text for a token, and
    that cannot be built for the 1.0 family. *)
Definition char_tokenizer_new (baseModel : string) : unit + string :=
  if String.eqb baseModel "gemini-1.0-pro" then inr "no vocabulary" else inl tt.

Definition char_tokenizer_count (_ : unit) (contents : list Tokenizer.Content)
  : Z + string :=
  inl (Z.of_nat
         (list_sum
            (map (fun c => list_sum (map (fun p => String.length (Tokenizer.Text p))
                                         (Tokenizer.Parts c)))
                 contents))).

(** Scenario S6: a world in which the user sends an empty line at the
    prompt, and one in which the exchange is refused. *)
Definition pkce_s6 : Login.PKCECodes :=
  {| Login.CodeVerifier := "verifier"; Login.CodeChallenge := "challenge" |}.

Definition world_with (input : Login.ScanOutcome) : Login.world :=
  {| Login.GeneratePKCECodes := inl pkce_s6;
     Login.GenerateRandomState := inl "state-1";
     Login.GenerateAuthURL := fun state _ => inl ("https://auth.example/authorize", state);
     Login.browser_IsAvailable := true;
     Login.browser_OpenURL := fun _ => Some (Login.External "no display");
     Login.stdin := input;
     Login.ExchangeCodeForTokens := fun _ _ _ => inr (Login.External "invalid_grant");
     Login.CreateTokenStorage := fun _ => None |}.

Definition world_s6 : Login.world := world_with (Login.ScanLine "").

Definition world_refused : Login.world := world_with (Login.ScanLine " abc123 ").

(** The two bytes of the text of the empty object, and a reader that
    knows this text. *)
Definition empty_object_bytes : list Byte.byte := [Byte.x7b; Byte.x7d].

Definition read_empty_object (bytes : list Byte.byte) : json :=
  match bytes with
  | [Byte.x7b; Byte.x7d] => JObj []
  | _ => JNull
  end.

(** The constructor of [char_tokenizer_new] at every call of the
    process. *)
Definition char_tokenizer_calls (_ : nat) (baseModel : string) : unit + string :=
  char_tokenizer_new baseModel.

(** Two first-use callers whose models share the key
    [gemini-2.0-flash]; both miss on the optimistic read before either
    takes the write lock. *)
Definition two_callers : list string := ["gemini-3-pro"; "gemini-2.5-flash"].

Definition racing_schedule : list nat :=
  [0; 1; 0; 1; 0; 1; 0; 0; 0; 0; 1; 1]%nat.

Definition after_race : Concurrent.config unit string :=
  {| Concurrent.threads :=
       [ {| Concurrent.model := "gemini-3-pro";
            Concurrent.at_pc := Concurrent.Returned (inl tt) |};
         {| Concurrent.model := "gemini-2.5-flash";
            Concurrent.at_pc := Concurrent.Returned (inl tt) |} ];
     Concurrent.mem :=
       {| Concurrent.tokenizerCache := {[ "gemini-2.0-flash" := tt ]};
          Concurrent.readers := 0;
          Concurrent.writer := false;
          Concurrent.constructed := ["gemini-2.0-flash"];
          Concurrent.failed := [] |} |}.

(** Two first-use callers of the 1.0 family, for which the tokenizer
    cannot be built; both miss on the optimistic read before either takes
    the write lock. *)
Definition failing_callers : list string := ["gemini-pro"; "gemini-1.0-pro-latest"].

Definition failing_schedule : list nat :=
  [0; 1; 0; 1; 0; 1; 0; 0; 0; 1; 1; 1]%nat.

Definition after_failures : Concurrent.config unit string :=
  {| Concurrent.threads :=
       [ {| Concurrent.model := "gemini-pro";
            Concurrent.at_pc := Concurrent.Returned (inr "no vocabulary") |};
         {| Concurrent.model := "gemini-1.0-pro-latest";
            Concurrent.at_pc := Concurrent.Returned (inr "no vocabulary") |} ];
     Concurrent.mem :=
       {| Concurrent.tokenizerCache := ∅;
          Concurrent.readers := 0;
          Concurrent.writer := false;
          Concurrent.constructed := [];
          Concurrent.failed := ["gemini-1.0-pro"; "gemini-1.0-pro"] |} |}.

End Scenarios.


(** ** Package providers, the unified request *)

Module IR.
Import Registry Json.

(** Two's-complement reading of an integer as an [int32]. *)
Definition wrap32 (z : Z) : Z := (z + 2 ^ 31) mod 2 ^ 32 - 2 ^ 31.

(** Modelled from the spec: [ir.ThinkingConfig], whose declaration is not
    among the sources, with the two fields [ApplyThinkingToIR] sets;
    [ThinkingBudget] is a pointer to an [int32]. *)
Record ThinkingConfig := {
  IncludeThoughts : bool;
  ThinkingBudget : option Z
}.

(** Modelled from the spec: [ir.UnifiedChatRequest], whose declaration is
    not among the sources.  [MaxTokens] and [Thinking] are the two
    pointer fields [ApplyThinkingToIR] reads and writes; every other
    field of the request is carried along in [Other]. *)
Record UnifiedChatRequest (Payload : Type) := {
  Other : Payload;
  MaxTokens : option Z;
  Thinking : option ThinkingConfig
}.
Arguments Other {Payload} _.
Arguments MaxTokens {Payload} _.
Arguments Thinking {Payload} _.
Arguments Build_UnifiedChatRequest {Payload} _ _ _.

(** [ApplyThinkingToIR] mutates the request it is given; the mutated
    request is handed back. *)
Definition ApplyThinkingToIR {Payload : Type} (reg : ModelRegistry) (model : string)
    (req : UnifiedChatRequest Payload) : UnifiedChatRequest Payload :=
  if match Thinking req with
     | Some th => IncludeThoughts th
     | None => false
     end
  then req
  else
    match Providers.ParseClaudeThinkingFromModel reg model with
    | None => req
    | Some cfg =>
        let budget := wrap32 (Providers.BudgetTokens cfg) in
        let thinking := {| IncludeThoughts := true; ThinkingBudget := Some budget |} in
        let info := GetModelInfo reg model in
        let minMaxTokens := wrap64 (Providers.BudgetTokens cfg + 4000) in
        let minMaxTokens :=
          match info with
          | Some info =>
              if 0 <? MaxCompletionTokens info then MaxCompletionTokens info
              else minMaxTokens
          | None => minMaxTokens
          end in
        let maxTokens :=
          match MaxTokens req with
          | None => Some minMaxTokens
          | Some mt => if mt <? minMaxTokens then Some minMaxTokens else Some mt
          end in
        {| Other := Other req; MaxTokens := maxTokens; Thinking := Some thinking |}
    end.

End IR.

(** ** The mutex of the tokenizer cache, seen from the callers *)

Module Locking.
Import Tokenizer Concurrent.

Section Holders.
Variable LocalTokenizer : Type.
Variable error : Type.

(** The caller holds a read lock: between [RLock] and [RUnlock]. *)
Definition holds_rlock (p : pc LocalTokenizer error) : bool :=
  match p with
  | AtRead | AtRUnlock _ => true
  | _ => false
  end.

(** How many callers stand at a statement that [f] selects. *)
Definition holders (f : pc LocalTokenizer error -> bool)
    (ts : list (thread LocalTokenizer error)) : nat :=
  length (List.filter (fun t => f (at_pc t)) ts).

(** The statements a caller has before it at most, the return
    included. *)
Definition remaining (p : pc LocalTokenizer error) : nat :=
  match p with
  | AtRLock => 7
  | AtRead => 6
  | AtRUnlock _ => 5
  | AtLock => 4
  | AtRecheck => 3
  | AtNew => 2
  | AtInsert _ => 1
  | Returned _ => 0
  end.

Definition steps_left (c : config LocalTokenizer error) : nat :=
  list_sum (map (fun t => remaining (at_pc t)) (threads c)).

(** The state of [tokenizerCacheMu] is the one its holders account
    for. *)
Record lock_invariant (c : config LocalTokenizer error) : Prop := {
  lock_readers : readers (mem c) = holders holds_rlock (threads c);
  lock_writer :
    holders holds_lock (threads c) = if writer (mem c) then 1%nat else 0%nat;
  lock_exclusive : writer (mem c) = true -> readers (mem c) = 0%nat
}.

(** The tokenizer a caller was handed, by the read of the cache or at
    its return. *)
Definition handed (p : pc LocalTokenizer error) : option LocalTokenizer :=
  match p with
  | AtRUnlock (Some tok) => Some tok
  | Returned (inl tok) => Some tok
  | _ => None
  end.
End Holders.

Arguments holds_rlock {LocalTokenizer error} p.
Arguments holders {LocalTokenizer error} f ts.
Arguments remaining {LocalTokenizer error} p.
Arguments steps_left {LocalTokenizer error} c.
Arguments lock_invariant {LocalTokenizer error} c.
Arguments handed {LocalTokenizer error} p.

End Locking.

(** ** The request body as bytes

    [Json] reads a body as the document it is the text of. The functions
    of gjson and sjson take any bytes, and on bytes that are not the
    text of a document they go by what they scan. This part follows
    their scanning byte by byte, for paths of plain member names (no
    number, wildcard, modifier or escape), which is what the translators
    pass them. Three conversions of the libraries are not modelled and
    are taken as they are: the unescaping of a string that holds a
    backslash, and the conversions of a number that is not written as a
    plain integer to an [int64] and to a text. *)

Module GjsonBytes.

Definition byte (json : string) (i : nat) : N :=
  match String.get i json with
  | Some c => N_of_ascii c
  | None => 0%N
  end.

(** [json[a:b]] and [json[a:]]. *)
Definition slice (json : string) (a b : nat) : string := substring a (b - a) json.
Definition slice_from (json : string) (a : nat) : string :=
  substring a (String.length json - a) json.

Definition ch (c : ascii) : N := N_of_ascii c.

(** The double quote. *)
Definition quote : N := 34.

(** The conversions that are left to the libraries. *)
Record Conversions := {
  unescape : string -> string;     (* gjson's unescape *)
  float_int : string -> Z;         (* Result.Int() of a number not a plain integer *)
  float_text : string -> string    (* Result.String() of such a number *)
}.

Inductive Type_ : Type := TNull | TFalse | TNumber | TString | TTrue | TJSON.

(** A [gjson.Result] of a value that was found. *)
Record Result := {
  type : Type_;
  Raw : string;
  Str : string;
  Index : nat
}.

(** The loop [for j := i - 2; j > stop; j--] that counts the
    backslashes before an escaped quote. *)
Fixpoint backslashes (json : string) (stop : nat) (j : nat) : nat :=
  match j with
  | O => O
  | S j' =>
      if (j <=? stop)%nat then O
      else if (byte json j =? ch "\")%N then S (backslashes json stop j')
      else O
  end.

(** The inner loop of [parseString], after a backslash was seen. *)
Fixpoint parseString_escaped (n : nat) (json : string) (s i : nat)
  : nat * string * bool * bool :=
  match n with
  | O => (i, slice_from json (s - 1), false, false)
  | S n' =>
      if (String.length json <=? i)%nat
      then (i, slice_from json (s - 1), false, false)
      else
        let c := byte json i in
        if (ch "\" <? c)%N then parseString_escaped n' json s (i + 1)
        else if (c =? quote)%N then
          if (byte json (i - 1) =? ch "\")%N
             && Nat.even (backslashes json 0 (i - 2))
          then parseString_escaped n' json s (i + 1)
          else ((i + 1)%nat, slice json (s - 1) (i + 1), true, true)
        else parseString_escaped n' json s (i + 1)
  end.

(** [parseString(json, i)], called behind the opening quote: the index
    behind the string, the string with its quotes, whether it holds an
    escape, and whether it is closed. *)
Fixpoint parseString_loop (n : nat) (json : string) (s i : nat)
  : nat * string * bool * bool :=
  match n with
  | O => (i, slice_from json (s - 1), false, false)
  | S n' =>
      if (String.length json <=? i)%nat
      then (i, slice_from json (s - 1), false, false)
      else
        let c := byte json i in
        if (ch "\" <? c)%N then parseString_loop n' json s (i + 1)
        else if (c =? quote)%N
        then ((i + 1)%nat, slice json (s - 1) (i + 1), false, true)
        else if (c =? ch "\")%N
        then parseString_escaped n' json s (i + 1)
        else parseString_loop n' json s (i + 1)
  end.

Definition parseString (json : string) (i : nat) : nat * string * bool * bool :=
  parseString_loop (S (String.length json)) json i i.

(** The string loop inside [parseSquash]: the index of the closing
    quote, or the length of [json]. *)
Fixpoint squash_string (n : nat) (json : string) (s2 i : nat) : nat :=
  match n with
  | O => i
  | S n' =>
      if (String.length json <=? i)%nat then i
      else
        let c := byte json i in
        if (ch "\" <? c)%N then squash_string n' json s2 (i + 1)
        else if (c =? quote)%N then
          if (byte json (i - 1) =? ch "\")%N
             && Nat.even (backslashes json (s2 - 1) (i - 2))
          then squash_string n' json s2 (i + 1)
          else i
        else squash_string n' json s2 (i + 1)
  end.

(** The loop of [parseSquash]: [s] is where the value starts. *)
Fixpoint parseSquash_loop (n : nat) (json : string) (s i depth : nat)
  : nat * string :=
  match n with
  | O => (i, slice_from json s)
  | S n' =>
      if (String.length json <=? i)%nat then (i, slice_from json s)
      else
        let c := byte json i in
        if (c =? quote)%N then
          parseSquash_loop n' json s
            (squash_string (String.length json) json (i + 1) (i + 1) + 1) depth
        else if ((c =? ch "{") || (c =? ch "[") || (c =? ch "("))%N then
          parseSquash_loop n' json s (i + 1) (depth + 1)
        else if ((c =? ch "}") || (c =? ch "]") || (c =? ch ")"))%N then
          if (depth - 1 =? 0)%nat then ((i + 1)%nat, slice json s (i + 1))
          else parseSquash_loop n' json s (i + 1) (depth - 1)
        else parseSquash_loop n' json s (i + 1) depth
  end.

(** [parseSquash(json, i)], called at the opening bracket. *)
Definition parseSquash (json : string) (i : nat) : nat * string :=
  parseSquash_loop (S (String.length json)) json i (i + 1) 1.

Fixpoint parseLiteral_loop (n : nat) (json : string) (s i : nat) : nat * string :=
  match n with
  | O => (i, slice_from json s)
  | S n' =>
      if (String.length json <=? i)%nat then (i, slice_from json s)
      else
        let c := byte json i in
        if ((c <? ch "a") || (ch "z" <? c))%N then (i, slice json s i)
        else parseLiteral_loop n' json s (i + 1)
  end.

Definition parseLiteral (json : string) (i : nat) : nat * string :=
  parseLiteral_loop (S (String.length json)) json i (i + 1).

Fixpoint parseNumber_loop (n : nat) (json : string) (s i : nat) : nat * string :=
  match n with
  | O => (i, slice_from json s)
  | S n' =>
      if (String.length json <=? i)%nat then (i, slice_from json s)
      else
        let c := byte json i in
        if ((c <=? ch " ") || (c =? ch ",") || (c =? ch "]") || (c =? ch "}"))%N
        then (i, slice json s i)
        else parseNumber_loop n' json s (i + 1)
  end.

Definition parseNumber (json : string) (i : nat) : nat * string :=
  parseNumber_loop (S (String.length json)) json i (i + 1).

(** The bytes at which the value switch takes a number. *)
Definition number_start (c : N) : bool :=
  ((c =? ch "+") || (c =? ch "-") || ((ch "0" <=? c) && (c <=? ch "9")) ||
   (c =? ch "i") || (c =? ch "I") || (c =? ch "N"))%N.

(** [n] that does not start [null]: [i+1 < len(json) && json[i+1] != 'u']. *)
Definition nan_start (json : string) (i : nat) : bool :=
  (i + 1 <? String.length json)%nat && negb (byte json (i + 1) =? ch "u")%N.

(** [parseArray] for a path whose first part is a plain member name:
    no element is that part, so the elements are passed over up to the
    closing bracket; the index behind it. The end of [json] counts as a
    closing bracket. *)
Fixpoint parseArray_loop (n : nat) (json : string) (i : nat) : nat :=
  match n with
  | O => i
  | S n' =>
      if (String.length json <? i)%nat then i
      else if (i =? String.length json)%nat then (i + 1)%nat
      else
        let c := byte json i in
        if (c =? quote)%N then
          let '(i', _, _, ok) := parseString json (i + 1) in
          if ok then parseArray_loop n' json i' else i'
        else if ((c =? ch "{") || (c =? ch "["))%N then
          parseArray_loop n' json (fst (parseSquash json i))
        else if (c =? ch "]")%N then (i + 1)%nat
        else if (c =? ch "n")%N && nan_start json i then
          parseArray_loop n' json (fst (parseNumber json i))
        else if ((c =? ch "n") || (c =? ch "t") || (c =? ch "f"))%N then
          parseArray_loop n' json (fst (parseLiteral json i))
        else if number_start c then
          parseArray_loop n' json (fst (parseNumber json i))
        else parseArray_loop n' json (i + 1)
  end.

Definition parseArray (json : string) (i : nat) : nat :=
  parseArray_loop (S (S (String.length json))) json i.

(** The key scan of [parseObject]: up to the next quote, the key
    behind it; [inl i] when a closing brace comes first, and when the
    key is not closed or [json] ends. *)
Fixpoint key_escaped (n : nat) (json : string) (s i : nat) : nat + (nat * string * bool) :=
  match n with
  | O => inl i
  | S n' =>
      if (String.length json <=? i)%nat then inl i
      else
        let c := byte json i in
        if (ch "\" <? c)%N then key_escaped n' json s (i + 1)
        else if (c =? quote)%N then
          if (byte json (i - 1) =? ch "\")%N
             && Nat.even (backslashes json 0 (i - 2))
          then key_escaped n' json s (i + 1)
          else inr ((i + 1)%nat, slice json s i, true)
        else key_escaped n' json s (i + 1)
  end.

Fixpoint key_string (n : nat) (json : string) (s i : nat) : nat + (nat * string * bool) :=
  match n with
  | O => inl i
  | S n' =>
      if (String.length json <=? i)%nat then inl i
      else
        let c := byte json i in
        if (ch "\" <? c)%N then key_string n' json s (i + 1)
        else if (c =? quote)%N then inr ((i + 1)%nat, slice json s i, false)
        else if (c =? ch "\")%N then key_escaped n' json s (i + 1)
        else key_string n' json s (i + 1)
  end.

Section Scan.
Variable lib : Conversions.

(** What [parseObject] does at the value of a member. *)
Inductive at_value : Type :=
| Found (r : Result)          (* the value is the one looked for *)
| Passed (i : nat)            (* the value was passed over *)
| Stopped (i : nat).          (* a string that is not closed *)

(** [parseObject(c, i, path)], called behind the opening brace, for
    the path of the plain member names [part :: rest]. [None] when
    nothing was found; the index is where the scan stopped. Every turn
    of a loop and every call inside takes one of [n]; they each move on
    by a byte at least, so [n] above the length of [json] is never used
    up. *)
Fixpoint parseObject (n : nat) (json : string) (i : nat) (part : string)
    (rest : list string) : nat * option Result :=
  match n with
  | O => (i, None)
  | S n' =>
      if (String.length json <=? i)%nat then (i, None)
      else
        let c := byte json i in
        if (c =? ch "}")%N then ((i + 1)%nat, None)
        else if negb (c =? quote)%N then parseObject n' json (i + 1) part rest
        else
          match key_string (S (String.length json)) json (i + 1) (i + 1) with
          | inl i' => (i', None)
          | inr (i', key, kesc) =>
              let pmatch :=
                String.eqb part (if kesc : bool then unescape lib key else key) in
              let more := match rest with [] => false | _ :: _ => true end in
              let hit := pmatch && negb more in
              (* the value loop *)
              (fix value (m : nat) (i : nat) {struct m} : nat * option Result :=
                 match m with
                 | O => (i, None)
                 | S m' =>
                     if (String.length json <=? i)%nat then (i, None)
                     else
                       let c := byte json i in
                       if (c =? quote)%N then
                         let '(i', val, vesc, ok) := parseString json (i + 1) in
                         if negb ok then (i', None)
                         else if hit then
                           let inner := slice val 1 (String.length val - 1) in
                           (i', Some {| type := TString; Raw := val;
                                        Str := if vesc : bool then unescape lib inner
                                               else inner;
                                        Index := i |})
                         else parseObject n' json i' part rest
                       else if (c =? ch "{")%N then
                         if pmatch && negb hit then
                           match rest with
                           | part' :: rest' =>
                               match parseObject n' json (i + 1) part' rest' with
                               | (i', Some r) => (i', Some r)
                               | (i', None) => parseObject n' json i' part rest
                               end
                           | [] => (i, None)
                           end
                         else
                           let '(i', val) := parseSquash json i in
                           if hit
                           then (i', Some {| type := TJSON; Raw := val; Str := "";
                                             Index := i |})
                           else parseObject n' json i' part rest
                       else if (c =? ch "[")%N then
                         if pmatch && negb hit then
                           parseObject n' json (parseArray json (i + 1)) part rest
                         else
                           let '(i', val) := parseSquash json i in
                           if hit
                           then (i', Some {| type := TJSON; Raw := val; Str := "";
                                             Index := i |})
                           else parseObject n' json i' part rest
                       else if ((c =? ch "n") && negb (nan_start json i)
                                || (c =? ch "t") || (c =? ch "f"))%N then
                         let '(i', val) := parseLiteral json i in
                         if hit
                         then (i', Some {| type := if (c =? ch "t")%N then TTrue
                                                   else if (c =? ch "f")%N then TFalse
                                                   else TNull;
                                           Raw := val; Str := ""; Index := i |})
                         else parseObject n' json i' part rest
                       else if ((c =? ch "n")%N || number_start c) then
                         let '(i', val) := parseNumber json i in
                         if hit
                         then (i', Some {| type := TNumber; Raw := val; Str := "";
                                           Index := i |})
                         else parseObject n' json i' part rest
                       else value m' (i + 1)%nat
                 end) n' i'
          end
  end.

(** The loop of [Get] that looks for the first brace or bracket. *)
Fixpoint Get_loop (n : nat) (json : string) (i : nat) (part : string)
    (rest : list string) : option Result :=
  match n with
  | O => None
  | S n' =>
      if (String.length json <=? i)%nat then None
      else
        let c := byte json i in
        if (c =? ch "{")%N
        then snd (parseObject (S (S (String.length json))) json (i + 1) part rest)
        else if (c =? ch "[")%N then None
        else Get_loop n' json (i + 1) part rest
  end.

(** [gjson.Get(json, path)] for the path of the plain member names
    [keys]; the index of the result is the place of its text in
    [json]. *)
Definition Get (json : string) (keys : list string) : option Result :=
  match keys with
  | [] => None
  | part :: rest => Get_loop (S (String.length json)) json 0 part rest
  end.

Definition Exists (r : option Result) : bool :=
  match r with Some _ => true | None => false end.

Fixpoint all_digits (s : string) : bool :=
  match s with
  | EmptyString => true
  | String c s' => Json.is_digit c && all_digits s'
  end.

(** The text behind an optional minus sign. *)
Definition unsigned (s : string) : string :=
  match s with
  | String c s' => if Ascii.eqb c "-" then s' else s
  | EmptyString => s
  end.

(** [Result.String()]: the text of a number is handed back as it
    stands when it is digits behind an optional minus sign, and goes
    through the float otherwise. *)
Definition Result_String (r : option Result) : string :=
  match r with
  | None => ""
  | Some r =>
      match type r with
      | TNull => ""
      | TFalse => "false"
      | TTrue => "true"
      | TString => Str r
      | TJSON => Raw r
      | TNumber =>
          if all_digits (unsigned (Raw r)) then Raw r else float_text lib (Raw r)
      end
  end.

(** [Result.Int()]: for a number written as digits behind an optional
    minus sign, the conversion of the float and [parseInt] of the text
    come to the same [int64], which is what [Json.parseInt] makes of
    the text. *)
Definition Result_Int (r : option Result) : Z :=
  match r with
  | None => 0
  | Some r =>
      match type r with
      | TTrue => 1
      | TString => fst (Json.parseInt (Str r))
      | TNumber =>
          if all_digits (unsigned (Raw r)) && negb (String.eqb (unsigned (Raw r)) "")
          then fst (Json.parseInt (Raw r))
          else float_int lib (Raw r)
      | _ => 0
      end
  end.
End Scan.

End GjsonBytes.

Module SjsonBytes.
Import GjsonBytes.

(** [strconv.FormatInt(v, 10)]. *)
Fixpoint digits (n : nat) (v : N) (acc : string) : string :=
  match n with
  | O => acc
  | S n' =>
      let acc := String (ascii_of_N (48 + v mod 10)) acc in
      if (v / 10 =? 0)%N then acc else digits n' (v / 10)%N acc
  end.

Definition FormatInt (v : Z) : string :=
  if v <? 0 then ("-" ++ digits (S (N.to_nat (N.log2 (Z.to_N (- v))))) (Z.to_N (- v)) "")%string
  else digits (S (N.to_nat (N.log2 (Z.to_N v)))) (Z.to_N v) "".

(** [appendStringify] of a text with no byte that is to be escaped. *)
Definition appendStringify (s : string) : string :=
  String (ascii_of_N quote) (s ++ String (ascii_of_N quote) "")%string.

(** [appendBuild(buf, false, paths, raw, false)]. *)
Fixpoint appendBuild (part : string) (rest : list string) (raw : string) : string :=
  (appendStringify part ++ ":" ++
   match rest with
   | [] => raw
   | part' :: rest' => "{" ++ appendBuild part' rest' raw ++ "}"
   end)%string.

(** The text [gjson.Parse] takes for an object or an array: from the
    first byte above a blank on, when that byte is a brace or a
    bracket. *)
Fixpoint Parse_loop (n : nat) (jstr : string) (i : nat) : option string :=
  match n with
  | O => None
  | S n' =>
      if (String.length jstr <=? i)%nat then None
      else
        let c := byte jstr i in
        if ((c =? ch "{") || (c =? ch "["))%N then Some (slice_from jstr i)
        else if (c <=? ch " ")%N then Parse_loop n' jstr (i + 1)
        else None
  end.

Definition Parse_json (jstr : string) : option string :=
  Parse_loop (S (String.length jstr)) jstr 0.

(** [comma]: the object or array has an element. *)
Fixpoint has_element (n : nat) (raw : string) (i : nat) : bool :=
  match n with
  | O => false
  | S n' =>
      if (String.length raw <=? i)%nat then false
      else
        let c := byte raw i in
        if (c <=? ch " ")%N then has_element n' raw (i + 1)
        else negb ((c =? ch "}") || (c =? ch "]"))%N
  end.

(** [for ; end > 0; end--]: the last closing brace behind the first
    byte, 0 when there is none. *)
Fixpoint last_brace (raw : string) (end_ : nat) : nat :=
  match end_ with
  | O => O
  | S e => if (byte raw end_ =? ch "}")%N then end_ else last_brace raw e
  end.

Section SetValue.
Variable lib : Conversions.

(** [appendRawPaths(nil, jstr, paths, raw, false, false)] for the plain
    member names [part :: rest]; [None] is an error. *)
Fixpoint appendRawPaths (jstr : string) (part : string) (rest : list string)
    (raw : string) {struct rest} : option string :=
  let res := Get lib jstr [part] in
  let found := match res with Some r => (0 <? Index r)%nat | None => false end in
  if found then
    match res with
    | Some r =>
        let before := slice jstr 0 (Index r) in
        let after := slice_from jstr (Index r + String.length (Raw r)) in
        match rest with
        | part' :: rest' =>
            match appendRawPaths (Raw r) part' rest' raw with
            | Some inner => Some (before ++ inner ++ after)%string
            | None => None
            end
        | [] => Some (before ++ raw ++ after)%string
        end
    | None => None
    end
  else
    let jsres := match Parse_json jstr with
                 | Some text => text
                 | None => "{}"
                 end in
    if (byte jsres 0 =? ch "{")%N then
      let end_ := last_brace jsres (String.length jsres - 1) in
      Some (slice jsres 0 end_ ++
            (if has_element (String.length jsres) jsres 1 then "," else "") ++
            appendBuild part rest raw ++ "}")%string
    else None.

(** [sjson.SetBytes(json, path, value)] with the text [raw] of the
    value; on an error the translators go on with the body they
    had. *)
Definition SetBytes (json : string) (keys : list string) (raw : string) : string :=
  match keys with
  | [] => json
  | part :: rest =>
      match appendRawPaths json part rest raw with
      | Some njson => njson
      | None => json
      end
  end.
End SetValue.

End SjsonBytes.

Module ProvidersBytes.
Import Registry Json GjsonBytes SjsonBytes.

Section Translators.
Variable lib : Conversions.

(** [ApplyToClaude] on the bytes of the body. *)
Definition ApplyToClaude (t : option Providers.ThinkingConfig) (body : string) : string :=
  match t with
  | None => body
  | Some t =>
      if negb (Providers.Enabled t) then body
      else if Exists (Get lib body ["thinking"]) then body
      else
        let body := SetBytes lib body ["thinking"; "type"] (appendStringify "enabled") in
        let body := SetBytes lib body ["thinking"; "budget_tokens"]
                      (FormatInt (Providers.BudgetTokens t)) in
        body
  end.

(** [EnsureClaudeMaxTokens] on the bytes of the body. *)
Definition EnsureClaudeMaxTokens (reg : ModelRegistry) (modelName : string)
    (body : string) : string :=
  let thinkingType := Result_String lib (Get lib body ["thinking"; "type"]) in
  if negb (String.eqb thinkingType "enabled") then body
  else
    let budgetTokens := Result_Int lib (Get lib body ["thinking"; "budget_tokens"]) in
    if budgetTokens <=? 0 then body
    else
      let maxTokens := Result_Int lib (Get lib body ["max_tokens"]) in
      let maxCompletionTokens :=
        match GetModelInfo reg modelName with
        | Some modelInfo => MaxCompletionTokens modelInfo
        | None => 0
        end in
      let requiredMaxTokens := wrap64 (budgetTokens + Providers.fallbackBuffer) in
      let requiredMaxTokens :=
        if 0 <? maxCompletionTokens then wrap64 maxCompletionTokens
        else requiredMaxTokens in
      if maxTokens <? requiredMaxTokens
      then SetBytes lib body ["max_tokens"] (FormatInt requiredMaxTokens)
      else body.
End Translators.

End ProvidersBytes.

(** ** More concrete data *)

Module Examples.
Import Registry Json.

(** A model whose registry record leaves the budget table empty. *)
Definition plain_thinking : ThinkingSupport :=
  {| Min := 2048; TMax := 16384; DefaultLevel := "";
     Budgets := {| Low := 0; Medium := 0; High := 0; Max := 0 |} |}.

Definition plain_info : ModelInfo :=
  {| Thinking := Some plain_thinking; MaxCompletionTokens := 0 |}.

Definition plain_registry : ModelRegistry :=
  registry_of {[ "claude-opus-thinking" := plain_info ]}.

(** A request that asks for 1000 tokens and says nothing of thinking. *)
Definition request_s1 : IR.UnifiedChatRequest (list string) :=
  {| IR.Other := ["hello"]; IR.MaxTokens := Some 1000; IR.Thinking := None |}.

(** A body with a model and a small [max_tokens], no [thinking]. *)
Definition body_plain : json :=
  JObj [("model", JStr "claude-sonnet-thinking-high"); ("max_tokens", JNum 1000)].

(** The race of [Scenarios.two_callers] after eight steps of
    [Scenarios.racing_schedule]: the first caller holds the write lock
    and is about to construct, the second waits for the lock. *)
Definition mid_race : Concurrent.config unit string :=
  {| Concurrent.threads :=
       [ {| Concurrent.model := "gemini-3-pro"; Concurrent.at_pc := Concurrent.AtNew |};
         {| Concurrent.model := "gemini-2.5-flash";
            Concurrent.at_pc := Concurrent.AtLock |} ];
     Concurrent.mem :=
       {| Concurrent.tokenizerCache := ∅;
          Concurrent.readers := 0;
          Concurrent.writer := true;
          Concurrent.constructed := [];
          Concurrent.failed := [] |} |}.

(** A constructor whose instances are told apart: the call number [n]
    of the process hands back instance [n]. After the race of
    [Scenarios.two_callers] both callers hold instance 0. *)
Definition numbered_new (n : nat) (_ : string) : nat + string := inl n.

Definition after_numbered_race : Concurrent.config nat string :=
  {| Concurrent.threads :=
       [ {| Concurrent.model := "gemini-3-pro";
            Concurrent.at_pc := Concurrent.Returned (inl 0%nat) |};
         {| Concurrent.model := "gemini-2.5-flash";
            Concurrent.at_pc := Concurrent.Returned (inl 0%nat) |} ];
     Concurrent.mem :=
       {| Concurrent.tokenizerCache := {[ "gemini-2.0-flash" := 0%nat ]};
          Concurrent.readers := 0;
          Concurrent.writer := false;
          Concurrent.constructed := ["gemini-2.0-flash"];
          Concurrent.failed := [] |} |}.

(** A constructor that fails at the first call of the process and hands
    back numbered instances from then on. The first of
    [Scenarios.failing_callers] gets the error, the second calls the
    constructor again and gets instance 1. *)
Definition flaky_new (n : nat) (_ : string) : nat + string :=
  if (n =? 0)%nat then inr "download failed" else inl n.

Definition flaky_schedule : list nat :=
  [0; 1; 0; 1; 0; 1; 0; 0; 0; 1; 1; 1; 1]%nat.

Definition after_flaky : Concurrent.config nat string :=
  {| Concurrent.threads :=
       [ {| Concurrent.model := "gemini-pro";
            Concurrent.at_pc := Concurrent.Returned (inr "download failed") |};
         {| Concurrent.model := "gemini-1.0-pro-latest";
            Concurrent.at_pc := Concurrent.Returned (inl 1%nat) |} ];
     Concurrent.mem :=
       {| Concurrent.tokenizerCache := {[ "gemini-1.0-pro" := 1%nat ]};
          Concurrent.readers := 0;
          Concurrent.writer := false;
          Concurrent.constructed := ["gemini-1.0-pro"];
          Concurrent.failed := ["gemini-1.0-pro"] |} |}.

(** A world in which every collaborator answers, the user pastes a code
    with blanks around it, and no API key comes with the tokens. *)
Definition storage_ok : Login.ClaudeTokenStorage :=
  {| Login.Email := "a@b.c"; Login.AccessToken := "token" |}.

Definition world_ok : Login.world :=
  {| Login.GeneratePKCECodes := inl Scenarios.pkce_s6;
     Login.GenerateRandomState := inl "state-1";
     Login.GenerateAuthURL :=
       fun state _ => inl ("https://auth.example/authorize", (state ++ "-signed")%string);
     Login.browser_IsAvailable := true;
     Login.browser_OpenURL := fun _ => Some (Login.External "no display");
     Login.stdin := Login.ScanLine " abc123 ";
     Login.ExchangeCodeForTokens :=
       fun _ _ _ => inl {| Login.APIKey := ""; Login.TokenData := "data" |};
     Login.CreateTokenStorage := fun _ => Some storage_ok |}.

(** Lines that hold white space only, in UTF-8: a no-break space
    (U+00A0), and a tab, an em space (U+2003), an ideographic space
    (U+3000) and a next-line character (U+0085). *)
Definition no_break_space : string :=
  String (ascii_of_nat 194) (String (ascii_of_nat 160) "").

Definition unicode_blanks : string :=
  fold_right (fun n s => String (ascii_of_nat n) s) ""
    [9; 226; 128; 131; 227; 128; 128; 194; 133]%nat.

(** A lone byte 0xA0 is no encoding of a no-break space. *)
Definition latin1_no_break_space : string := String (ascii_of_nat 160) "".

Definition world_blank : Login.world := Scenarios.world_with (Login.ScanLine no_break_space).

(** The world [w] with another browser. *)
Definition with_browser (w : Login.world) (available : bool)
    (open : string -> option Login.error) : Login.world :=
  {| Login.GeneratePKCECodes := Login.GeneratePKCECodes w;
     Login.GenerateRandomState := Login.GenerateRandomState w;
     Login.GenerateAuthURL := Login.GenerateAuthURL w;
     Login.browser_IsAvailable := available;
     Login.browser_OpenURL := open;
     Login.stdin := Login.stdin w;
     Login.ExchangeCodeForTokens := Login.ExchangeCodeForTokens w;
     Login.CreateTokenStorage := Login.CreateTokenStorage w |}.

(** Bodies as bytes. They are written with ['] where the body has a
    double quote. *)
Fixpoint body_text (s : string) : string :=
  match s with
  | EmptyString => EmptyString
  | String c s' =>
      String (if Ascii.eqb c "'" then ascii_of_N GjsonBytes.quote else c) (body_text s')
  end.

(** A body that was cut off before its last brace. *)
Definition truncated_body : string :=
  body_text "{'thinking':{'type':'enabled','budget_tokens':9}".

(** The same body in full. *)
Definition closed_body : string :=
  body_text "{'thinking':{'type':'enabled','budget_tokens':9}}".

(** A body without [thinking] that was cut off before its last brace. *)
Definition unclosed_body : string :=
  body_text "{'metadata':{'user_id':'u1'}".

(** Scenario S4 as bytes. *)
Definition body_s4_text : string :=
  body_text "{'max_tokens':1000,'thinking':{'type':'enabled','budget_tokens':20000}}".

Definition thinking_9 : Providers.ThinkingConfig :=
  {| Providers.Enabled := true; Providers.BudgetTokens := 9 |}.

(** A body whose budget is written with a fraction. *)
Definition body_fraction : json :=
  JObj [("max_tokens", JReal "1000.5" 1000);
        ("thinking", JObj [("type", JStr "enabled");
                           ("budget_tokens", JReal "2048.75" 2048)])].

End Examples.

(** * Properties *)

(** ** Facts about strings *)

Lemma string_app_length (s t : string) :
  String.length (s ++ t)%string = (String.length s + String.length t)%nat.
Proof. induction s as [|c s IH]; simpl; [reflexivity | now rewrite IH]. Qed.

Lemma substring_all (s : string) : substring 0 (String.length s) s = s.
Proof. induction s as [|c s IH]; simpl; [reflexivity | now rewrite IH]. Qed.

Lemma substring_app_skip (s t : string) (n : nat) :
  substring (String.length s) n (s ++ t)%string = substring 0 n t.
Proof. induction s as [|c s IH]; simpl; [reflexivity | exact IH]. Qed.

Lemma substring_split (s : string) (n : nat) :
  (n <= String.length s)%nat ->
  s = (substring 0 n s ++ substring n (String.length s - n) s)%string.
Proof.
  revert n; induction s as [|c s IH]; intros [|n] Hn; simpl in *.
  - reflexivity.
  - lia.
  - now rewrite substring_all.
  - change (String c s = String c (substring 0 n s ++ substring n (String.length s - n) s)%string).
    f_equal. apply IH. lia.
Qed.

Lemma HasSuffix_app (s suffix : string) :
  Strings.HasSuffix (s ++ suffix) suffix = true.
Proof.
  unfold Strings.HasSuffix. rewrite string_app_length.
  apply andb_true_iff; split.
  - apply Nat.leb_le. lia.
  - replace (String.length s + String.length suffix - String.length suffix)%nat
      with (String.length s) by lia.
    rewrite substring_app_skip, substring_all. apply String.eqb_refl.
Qed.

Lemma HasSuffix_inv (s suffix : string) :
  Strings.HasSuffix s suffix = true -> exists p, s = (p ++ suffix)%string.
Proof.
  unfold Strings.HasSuffix. intros H.
  apply andb_true_iff in H as [Hlen Heq].
  apply Nat.leb_le in Hlen. apply String.eqb_eq in Heq.
  exists (substring 0 (String.length s - String.length suffix) s).
  pose proof (substring_split s (String.length s - String.length suffix)) as Hsplit.
  replace (String.length s - (String.length s - String.length suffix))%nat
    with (String.length suffix) in Hsplit by lia.
  rewrite Heq in Hsplit. apply Hsplit. lia.
Qed.

Lemma last_byte_app (p s : string) :
  s <> EmptyString -> Strings.last_byte (p ++ s) = Strings.last_byte s.
Proof.
  intros Hs. induction p as [|c p IH]; simpl; [reflexivity|].
  rewrite IH. destruct (p ++ s)%string eqn:E; [|reflexivity].
  destruct p; simpl in E; [contradiction | discriminate].
Qed.

(** A name that ends in [s1] does not end in [s2] when the two suffixes
    end in different bytes. *)
Lemma HasSuffix_other (base s1 s2 : string) :
  s1 <> EmptyString -> s2 <> EmptyString ->
  Strings.last_byte s1 <> Strings.last_byte s2 ->
  Strings.HasSuffix (base ++ s1) s2 = false.
Proof.
  intros H1 H2 Hne. destruct (Strings.HasSuffix (base ++ s1) s2) eqn:E; [|reflexivity].
  apply HasSuffix_inv in E as [p Hp].
  apply (f_equal Strings.last_byte) in Hp.
  rewrite !last_byte_app in Hp by assumption. contradiction.
Qed.

Ltac other_suffix :=
  rewrite HasSuffix_other by (simpl; discriminate).

(** ** The thinking-budget resolver *)

Section Resolver.
Import Registry Util Scenarios.

Lemma apply_min_max_clamp_spec (ts : ThinkingSupport) (budget : Z) :
  apply_min_max ts budget = clamp_spec (Min ts) (TMax ts) budget.
Proof.
  unfold apply_min_max, clamp_spec. cbv zeta.
  destruct (Z.ltb_spec budget (Min ts)), (Z.ltb_spec 0 (Min ts)); simpl;
    destruct (decide (0 < Min ts /\ budget < Min ts)); try lia;
    match goal with
    | |- context [(TMax ts <? ?b)] =>
        destruct (Z.ltb_spec (TMax ts) b), (Z.ltb_spec 0 (TMax ts)); simpl;
        destruct (decide (0 < TMax ts /\ TMax ts < b)); lia
    end.
Qed.

(** C1. For a model whose registry record has a thinking sub-record, a
    positive user budget is what [GetThinkingBudget] returns, clamped to
    the model's bounds (raised to [Min] when [Min > 0] and the budget is
    below it, lowered to [Max] when [Max > 0] and the budget is above
    it), whatever the suffix level, paired with the flag [budget > 0]. *)
Theorem GetThinkingBudget_user_budget
    (reg : ModelRegistry) (model : string) (info : ModelInfo)
    (ts : ThinkingSupport) (suffixLevel : ThinkingLevel) (userBudget : Z) :
  GetModelInfo reg model = Some info ->
  Thinking info = Some ts ->
  0 < userBudget ->
  GetThinkingBudget reg model suffixLevel userBudget =
    (clamp_spec (Min ts) (TMax ts) userBudget,
     bool_decide (0 < clamp_spec (Min ts) (TMax ts) userBudget))
  /\ forall otherLevel : ThinkingLevel,
       GetThinkingBudget reg model otherLevel userBudget =
       GetThinkingBudget reg model suffixLevel userBudget.
Proof.
  intros Hinfo Hts Hpos.
  assert (Hall : forall lvl,
    GetThinkingBudget reg model lvl userBudget =
      (clamp_spec (Min ts) (TMax ts) userBudget,
       bool_decide (0 < clamp_spec (Min ts) (TMax ts) userBudget))).
  { intros lvl. unfold GetThinkingBudget. rewrite Hinfo, Hts.
    apply Z.ltb_lt in Hpos. rewrite Hpos. cbv zeta.
    rewrite apply_min_max_clamp_spec. f_equal.
    destruct (Z.ltb_spec 0 (clamp_spec (Min ts) (TMax ts) userBudget)).
    - now rewrite bool_decide_eq_true_2.
    - rewrite bool_decide_eq_false_2; [reflexivity | lia]. }
  split; [apply Hall | intros l'; now rewrite !Hall].
Qed.

(** Scenario S2: a user budget of 50000 is lowered to 32768. *)
Lemma GetThinkingBudget_user_budget_witness :
  GetThinkingBudget sonnet_registry "claude-sonnet-thinking-high" "high" 50000
    = (32768, true).
Proof.
  destruct (GetThinkingBudget_user_budget sonnet_registry
              "claude-sonnet-thinking-high" sonnet_info sonnet_thinking
              "high" 50000) as [H _].
  - reflexivity.
  - reflexivity.
  - lia.
  - rewrite H. reflexivity.
Defined.

(** Scenario S1: without a user budget the suffix level selects 24576. *)
Example GetThinkingBudget_suffix_high :
  GetThinkingBudget sonnet_registry "claude-sonnet-thinking-high" "high" 0
    = (24576, true).
Proof. reflexivity. Qed.
End Resolver.

(** ** The suffix parser *)

Lemma string_app_same_length_tail (a b s1 s2 : string) :
  String.length s1 = String.length s2 ->
  (a ++ s1)%string = (b ++ s2)%string -> s1 = s2.
Proof.
  revert b; induction a as [|c a IH]; intros [|d b] Hlen Heq.
  - exact Heq.
  - change (s1 = String d (b ++ s2)%string) in Heq.
    apply (f_equal String.length) in Heq. simpl in Heq.
    rewrite string_app_length in Heq. lia.
  - change (String c (a ++ s1)%string = s2) in Heq.
    apply (f_equal String.length) in Heq. simpl in Heq.
    rewrite string_app_length in Heq. lia.
  - change (String c (a ++ s1)%string = String d (b ++ s2)%string) in Heq.
    injection Heq as _ Heq. eapply IH; eassumption.
Qed.

(** A name that ends in [s1] does not end in a different [s2] of the
    same length. *)
Lemma HasSuffix_same_length (base s1 s2 : string) :
  String.length s1 = String.length s2 -> s1 <> s2 ->
  Strings.HasSuffix (base ++ s1) s2 = false.
Proof.
  intros Hlen Hne. destruct (Strings.HasSuffix (base ++ s1) s2) eqn:E; [|reflexivity].
  apply HasSuffix_inv in E as [p Hp].
  apply string_app_same_length_tail in Hp; [contradiction | assumption].
Qed.

Section SuffixParser.
Import Util.

(** C3, as amended. For every base name the parser maps
    [base-thinking-L] to [(L, true)] for each level [L] and the bare
    [base-thinking] to [(max, true)]; the match is on the exact bytes,
    so a suffix in another case is none. The result carries the level
    and the flag only. *)
Theorem ParseThinkingSuffix_levels (base : string) :
  ParseThinkingSuffix (base ++ "-thinking-" ++ "low") = (ThinkingLevelLow, true) /\
  ParseThinkingSuffix (base ++ "-thinking-" ++ "medium") = (ThinkingLevelMedium, true) /\
  ParseThinkingSuffix (base ++ "-thinking-" ++ "high") = (ThinkingLevelHigh, true) /\
  ParseThinkingSuffix (base ++ "-thinking-" ++ "max") = (ThinkingLevelMax, true) /\
  ParseThinkingSuffix (base ++ "-thinking") = (ThinkingLevelMax, true) /\
  ParseThinkingSuffix (base ++ "-THINKING-HIGH") = ("", false) /\
  ParseThinkingSuffix (base ++ "-Thinking") = ("", false).
Proof.
  unfold ParseThinkingSuffix. cbn [String.append].
  repeat split.
  - repeat other_suffix. now rewrite HasSuffix_app.
  - repeat other_suffix. now rewrite HasSuffix_app.
  - repeat other_suffix. now rewrite HasSuffix_app.
  - now rewrite HasSuffix_app.
  - repeat other_suffix. now rewrite HasSuffix_app.
  - repeat other_suffix. reflexivity.
  - repeat other_suffix.
    rewrite HasSuffix_same_length; [reflexivity | reflexivity | discriminate].
Qed.

(** C3, as stated, fails: the result of the parser holds no base name.
    Were the base part of the result, it could be read off it; but
    [a-thinking-low] and [b-thinking-low] give the same result. *)
Lemma ParseThinkingSuffix_result_has_no_base :
  ParseThinkingSuffix "a-thinking-low" = ("low", true) /\
  ParseThinkingSuffix "b-thinking-low" = ("low", true) /\
  ~ exists base_of : ThinkingLevel * bool -> string,
      forall base : string,
        base_of (ParseThinkingSuffix (base ++ "-thinking-" ++ "low")) = base.
Proof.
  split; [reflexivity|]. split; [reflexivity|].
  intros [base_of H].
  pose proof (H "a") as Ha. pose proof (H "b") as Hb.
  vm_compute in Ha, Hb. rewrite Ha in Hb. discriminate.
Qed.

(** Every name the parser takes for a thinking name ends, byte for
    byte, in one of the five suffixes, and the level is one of the four
    levels. *)
Lemma ParseThinkingSuffix_true_inv (modelName : string) (lvl : ThinkingLevel) :
  ParseThinkingSuffix modelName = (lvl, true) ->
  In lvl ["low"; "medium"; "high"; "max"] /\
  exists base suffix,
    In suffix ["-thinking-max"; "-thinking-high"; "-thinking-medium";
               "-thinking-low"; "-thinking"] /\
    modelName = (base ++ suffix)%string.
Proof.
  unfold ParseThinkingSuffix.
  repeat match goal with
         | |- context [Strings.HasSuffix modelName ?s] =>
             let E := fresh "E" in
             destruct (Strings.HasSuffix modelName s) eqn:E;
             [ apply HasSuffix_inv in E as [p Hp];
               intros [= <-]; split; [simpl; tauto |];
               exists p; eexists; split; [|exact Hp]; simpl; tauto | ]
         end.
  discriminate.
Qed.

(** A name that ends in none of the five suffixes passes as not
    thinking, with the level unset. *)
Lemma ParseThinkingSuffix_level_values (modelName : string) :
  In (fst (ParseThinkingSuffix modelName)) ["low"; "medium"; "high"; "max"; ""].
Proof.
  unfold ParseThinkingSuffix.
  repeat match goal with
         | |- context [Strings.HasSuffix modelName ?s] =>
             destruct (Strings.HasSuffix modelName s); [simpl; tauto |]
         end.
  simpl; tauto.
Qed.
End SuffixParser.

(** ** Registry lookups of a suffixed name *)

Section SuffixedLookup.
Import Registry Util Providers Scenarios.

(** [GetThinkingBudget] reports thinking only for a name that is a key
    of the registry. *)
Lemma GetThinkingBudget_needs_entry (reg : ModelRegistry)
    (model : string) (lvl : ThinkingLevel) (userBudget budget : Z) :
  GetThinkingBudget reg model lvl userBudget = (budget, true) ->
  exists info ts, GetModelInfo reg model = Some info /\ Thinking info = Some ts /\ 0 < budget.
Proof.
  unfold GetThinkingBudget.
  destruct (GetModelInfo reg model) as [info|]; [|discriminate].
  destruct (Thinking info) as [ts|] eqn:Hts; [|discriminate].
  intros [= Hb Hflag]. exists info, ts. rewrite Hb in Hflag.
  split; [reflexivity|]. split; [assumption|]. now apply Z.ltb_lt.
Qed.

Lemma GetThinkingBudget_same_entry (reg reg' : ModelRegistry)
    (model : string) (lvl : ThinkingLevel) (userBudget : Z) :
  GetModelInfo reg' model = GetModelInfo reg model ->
  GetThinkingBudget reg' model lvl userBudget = GetThinkingBudget reg model lvl userBudget.
Proof. intros H. unfold GetThinkingBudget. now rewrite H. Qed.

(** C7. [ParseThinkingSuffix] hands back a level and a flag, no base
    name, and both [GetThinkingBudget] and
    [ParseClaudeThinkingFromModel] look the registry up under the full
    model name: when a suffixed name resolves to a configuration, the
    registry has a record, with a thinking sub-record, for that very
    name, the positive budget is the one [GetThinkingBudget] gives for
    the full name, and what the registry holds under other names does
    not matter. *)
Theorem ParseClaudeThinkingFromModel_needs_own_entry
    (reg : ModelRegistry) (modelName : string) (cfg : ThinkingConfig) :
  ParseClaudeThinkingFromModel reg modelName = Some cfg ->
  exists (lvl : ThinkingLevel) (info : ModelInfo) (ts : ThinkingSupport),
    ParseThinkingSuffix modelName = (lvl, true) /\
    In lvl ["low"; "medium"; "high"; "max"] /\
    GetModelInfo reg modelName = Some info /\
    Thinking info = Some ts /\
    GetThinkingBudget reg modelName lvl 0 = (BudgetTokens cfg, true) /\
    0 < BudgetTokens cfg /\
    Enabled cfg = true /\
    forall reg' : ModelRegistry,
      GetModelInfo reg' modelName = GetModelInfo reg modelName ->
      ParseClaudeThinkingFromModel reg' modelName = Some cfg.
Proof.
  unfold ParseClaudeThinkingFromModel.
  destruct (ParseThinkingSuffix modelName) as [lvl isThinking] eqn:Hparse.
  destruct isThinking; simpl; [|discriminate].
  destruct (GetThinkingBudget reg modelName lvl 0) as [budget flag] eqn:Hbudget.
  destruct (Z.leb_spec budget 0) as [Hle|Hpos]; [discriminate|].
  intros [= <-]. simpl.
  assert (Hentry : exists info ts,
             GetModelInfo reg modelName = Some info /\ Thinking info = Some ts /\ flag = true).
  { unfold GetThinkingBudget in Hbudget.
    destruct (GetModelInfo reg modelName) as [info|] eqn:Hinfo; [|injection Hbudget; lia].
    destruct (Thinking info) as [ts|] eqn:Hts; [|injection Hbudget; lia].
    injection Hbudget as Hb Hf. exists info, ts.
    split; [reflexivity|]. split; [assumption|].
    rewrite <- Hf, Hb. now apply Z.ltb_lt. }
  destruct Hentry as (info & ts & Hinfo & Hts & ->).
  exists lvl, info, ts. repeat split; try assumption.
  - eapply ParseThinkingSuffix_true_inv; eassumption.
  - intros reg' Hsame.
    rewrite (GetThinkingBudget_same_entry reg reg') by assumption.
    rewrite Hbudget.
    destruct (Z.leb_spec budget 0); [lia | reflexivity].
Qed.

(** The suffixed name of scenario S1 is itself a key of the registry. *)
Lemma ParseClaudeThinkingFromModel_needs_own_entry_witness :
  exists info, GetModelInfo sonnet_registry "claude-sonnet-thinking-high" = Some info.
Proof.
  destruct (ParseClaudeThinkingFromModel_needs_own_entry sonnet_registry
              "claude-sonnet-thinking-high"
              {| Enabled := true; BudgetTokens := 24576 |})
    as (lvl & info & ts & _ & _ & Hinfo & _).
  - reflexivity.
  - exists info. exact Hinfo.
Defined.

(** A registry that knows the base name only gives the suffixed name
    no configuration. *)
Example ParseClaudeThinkingFromModel_base_entry_only :
  ParseClaudeThinkingFromModel base_only_registry "claude-sonnet-thinking-high" = None
  /\ GetThinkingBudget base_only_registry "claude-sonnet-thinking-high" "high" 0 = (0, false)
  /\ GetThinkingBudget base_only_registry "claude-sonnet" "high" 0 = (24576, true).
Proof. repeat split; reflexivity. Qed.
End SuffixedLookup.

(** ** Reading and writing members of a document *)

Section JsonFacts.
Import Json.

Lemma wrap64_range (z : Z) : - 2 ^ 63 <= wrap64 z < 2 ^ 63.
Proof.
  unfold wrap64.
  pose proof (Z.mod_pos_bound (z + 2 ^ 63) (2 ^ 64) ltac:(lia)). lia.
Qed.

Lemma wrap64_small (z : Z) : - 2 ^ 63 <= z < 2 ^ 63 -> wrap64 z = z.
Proof. intros H. unfold wrap64. rewrite Z.mod_small; lia. Qed.

Lemma wrap64_idem (z : Z) : wrap64 (wrap64 z) = wrap64 z.
Proof. apply wrap64_small, wrap64_range. Qed.

Lemma has_member_find (key : string) (ms : list (string * json)) :
  has_member key ms = true ->
  Result_Exists (find_member (Get_path []) key ms) = true.
Proof.
  induction ms as [|[k v] ms IH]; simpl; [discriminate|].
  destruct (String.eqb k key); simpl; [reflexivity | exact IH].
Qed.

Lemma find_has_member (rest : json -> Result) (key : string)
    (ms : list (string * json)) :
  has_member key ms = false -> find_member rest key ms = None.
Proof.
  induction ms as [|[k v] ms IH]; simpl; [reflexivity|].
  destruct (String.eqb k key); simpl; [discriminate | exact IH].
Qed.

Lemma has_member_app (key : string) (ms ms' : list (string * json)) :
  has_member key (ms ++ ms') = has_member key ms || has_member key ms'.
Proof. unfold has_member. apply existsb_app. Qed.

Lemma update_first_has_member (f : json -> option json) (key key' : string)
    (ms ms' : list (string * json)) :
  update_first f key ms = Some ms' -> has_member key' ms' = has_member key' ms.
Proof.
  revert ms'; induction ms as [|[k v] ms IH]; intros ms'; simpl.
  - now intros [= <-].
  - destruct (String.eqb k key).
    + destruct (f v); [|discriminate]. now intros [= <-].
    + destruct (update_first f key ms) as [ms''|]; [|discriminate].
      intros [= <-]. simpl. now rewrite (IH ms'').
Qed.

(** Rewriting a member leaves the members of another name as they
    are, in their order. *)
Lemma find_member_update_other (f : json -> option json)
    (rest : json -> Result) (key key' : string) (ms ms' : list (string * json)) :
  key <> key' ->
  update_first f key' ms = Some ms' ->
  find_member rest key ms' = find_member rest key ms.
Proof.
  intros Hne. revert ms'; induction ms as [|[k v] ms IH]; intros ms'; simpl.
  - now intros [= <-].
  - destruct (String.eqb_spec k key') as [->|Hk].
    + destruct (f v); [|discriminate]. intros [= <-]. simpl.
      destruct (String.eqb_spec key' key); [congruence | reflexivity].
    + destruct (update_first f key' ms) as [ms''|]; [|discriminate].
      intros [= <-]. simpl. rewrite (IH ms'') by reflexivity. reflexivity.
Qed.

Lemma find_member_app_other (rest : json -> Result) (key key' : string)
    (ms : list (string * json)) (v : json) :
  key <> key' ->
  find_member rest key (ms ++ [(key', v)]) = find_member rest key ms.
Proof.
  intros Hne. induction ms as [|[k w] ms IH]; simpl.
  - destruct (String.eqb_spec key' key); [congruence | reflexivity].
  - now rewrite IH.
Qed.

Lemma find_member_update_same (key : string) (v : json)
    (ms ms' : list (string * json)) :
  has_member key ms = true ->
  update_first (fun _ => Some v) key ms = Some ms' ->
  find_member (Get_path []) key ms' = Some v.
Proof.
  revert ms'; induction ms as [|[k w] ms IH]; intros ms'; simpl; [discriminate|].
  destruct (String.eqb k key) eqn:E; simpl.
  - intros _ [= <-]. simpl. now rewrite E.
  - intros Hm. destruct (update_first _ key ms) as [ms''|]; [|discriminate].
    intros [= <-]. simpl. rewrite E. now apply IH.
Qed.

Lemma find_member_app_same (key : string) (v : json) (ms : list (string * json)) :
  has_member key ms = false ->
  find_member (Get_path []) key (ms ++ [(key, v)]) = Some v.
Proof.
  induction ms as [|[k w] ms IH]; simpl.
  - intros _. now rewrite String.eqb_refl.
  - destruct (String.eqb k key); simpl; [discriminate | exact IH].
Qed.

Lemma update_first_total (key : string) (v : json) (ms : list (string * json)) :
  exists ms', update_first (fun _ => Some v) key ms = Some ms'.
Proof.
  induction ms as [|[k w] ms [ms' IH]]; simpl; [eauto|].
  destruct (String.eqb k key); [eauto|]. rewrite IH. eauto.
Qed.

(** After a successful write the first component of the path is a
    member of the document. *)
Lemma Set_path_exists (key : string) (rest : list string) (v j j' : json) :
  Set_path (key :: rest) v j = Some j' ->
  Result_Exists (Get_path [key] j') = true.
Proof.
  simpl. destruct j as [| | | | | |ms]; try discriminate;
    try (intros [= <-]; simpl; now rewrite String.eqb_refl).
  destruct (has_member key ms) eqn:Hm.
  - assert (Hkeep : forall f ms', update_first f key ms = Some ms' ->
              Result_Exists (Get_path [key] (JObj ms')) = true).
    { intros f ms' Hu. simpl. apply has_member_find.
      now rewrite (update_first_has_member f key key ms ms' Hu). }
    destruct rest as [|k' rest'].
    + destruct (update_first _ key ms) as [ms'|] eqn:Hu; [|discriminate].
      intros [= <-]. eapply Hkeep; eassumption.
    + destruct (update_first _ key ms) as [ms'|] eqn:Hu; [|discriminate].
      intros [= <-]. eapply Hkeep; eassumption.
  - intros [= <-]. simpl. apply has_member_find.
    rewrite has_member_app. simpl. rewrite String.eqb_refl.
    now rewrite orb_true_r.
Qed.

(** Writing a top-level member: it reads back, and the paths through
    members of another name read as before. *)
Lemma Set_member_read (key : string) (v : json) (ms : list (string * json)) :
  exists ms',
    Set_path [key] v (JObj ms) = Some (JObj ms') /\
    Get_path [key] (JObj ms') = Some v /\
    forall key' rest, key' <> key ->
      Get_path (key' :: rest) (JObj ms') = Get_path (key' :: rest) (JObj ms).
Proof.
  simpl. destruct (has_member key ms) eqn:Hm.
  - destruct (update_first_total key v ms) as [ms' Hu]. rewrite Hu.
    exists ms'. split; [reflexivity|]. split.
    + eapply find_member_update_same; eassumption.
    + intros key' rest Hne. eapply find_member_update_other; eassumption.
  - eexists. split; [reflexivity|]. split.
    + now apply find_member_app_same.
    + intros key' rest Hne. now apply find_member_app_other.
Qed.

Lemma SetBytes_cases (body : json) (path : string) (v : json) :
  SetBytes body path v = body \/
  Set_path (split_path path) v body = Some (SetBytes body path v).
Proof.
  unfold SetBytes. destruct (Set_path (split_path path) v body); [right | left]; reflexivity.
Qed.
End JsonFacts.

(** ** The Claude request translator *)

Section Translator.
Import Registry Json Providers Scenarios.

Lemma Get_non_object (j : json) (key : string) (rest : list string) :
  (forall ms, j <> JObj ms) -> Get_path (key :: rest) j = None.
Proof. intros H. destruct j; try reflexivity. now destruct (H members). Qed.

Lemma ApplyToClaude_fixed (t : option ThinkingConfig) (body : json) :
  Result_Exists (Get body "thinking") = true -> ApplyToClaude t body = body.
Proof.
  intros H. unfold ApplyToClaude. destruct t as [t|]; [|reflexivity].
  destruct (Enabled t); simpl; [|reflexivity]. now rewrite H.
Qed.

(** [ApplyToClaude] either leaves the body as it is or hands back a
    body with a [thinking] member. *)
Lemma ApplyToClaude_cases (t : option ThinkingConfig) (body : json) :
  ApplyToClaude t body = body \/
  Result_Exists (Get (ApplyToClaude t body) "thinking") = true.
Proof.
  destruct t as [t|]; [|now left].
  unfold ApplyToClaude.
  destruct (negb (Enabled t)); [now left|].
  destruct (Result_Exists (Get body "thinking")) eqn:Hex; [now left|].
  set (b1 := SetBytes body "thinking.type" (JStr "enabled")).
  destruct (SetBytes_cases b1 "thinking.budget_tokens" (JNum (BudgetTokens t)))
    as [Hsame2|Hset2].
  - rewrite Hsame2.
    destruct (SetBytes_cases body "thinking.type" (JStr "enabled"))
      as [Hsame1|Hset1]; fold b1 in Hsame1 || fold b1 in Hset1.
    + now left.
    + right. exact (Set_path_exists "thinking" ["type"] _ _ _ Hset1).
  - right. exact (Set_path_exists "thinking" ["budget_tokens"] _ _ _ Hset2).
Qed.

Lemma ApplyToClaude_idempotent (t : option ThinkingConfig) (body : json) :
  ApplyToClaude t (ApplyToClaude t body) = ApplyToClaude t body.
Proof.
  destruct (ApplyToClaude_cases t body) as [Hsame|Hex].
  - now rewrite !Hsame.
  - now apply ApplyToClaude_fixed.
Qed.

Lemma EnsureClaudeMaxTokens_idempotent (raw : json -> string)
    (reg : ModelRegistry) (modelName : string) (body : json) :
  EnsureClaudeMaxTokens raw reg modelName (EnsureClaudeMaxTokens raw reg modelName body)
  = EnsureClaudeMaxTokens raw reg modelName body.
Proof.
  unfold EnsureClaudeMaxTokens at 2.
  destruct (negb (Result_String raw (Get body "thinking.type") =? "enabled")%string) eqn:Hty;
    [unfold EnsureClaudeMaxTokens; now rewrite Hty|].
  destruct (Result_Int (Get body "thinking.budget_tokens") <=? 0) eqn:Hb;
    [unfold EnsureClaudeMaxTokens; now rewrite Hty, Hb|].
  cbv zeta.
  match goal with
  | |- context [Result_Int (Get body "max_tokens") <? ?r] => set (R := r)
  end.
  destruct (Result_Int (Get body "max_tokens") <? R) eqn:Hlt;
    [|unfold EnsureClaudeMaxTokens; rewrite Hty, Hb; cbv zeta; fold R; now rewrite Hlt].
  assert (HR : wrap64 R = R).
  { subst R. destruct (0 <? _); apply wrap64_idem. }
  destruct body as [| | | | | |ms]; try discriminate Hty.
  destruct (Set_member_read "max_tokens" (JNum R) ms) as (ms' & Hset & Hread & Hother).
  assert (Hbody' : SetBytes (JObj ms) "max_tokens" (JNum R) = JObj ms').
  { unfold SetBytes. change (split_path "max_tokens") with ["max_tokens"].
    now rewrite Hset. }
  rewrite Hbody'.
  unfold EnsureClaudeMaxTokens.
  change (Get (JObj ms') "thinking.type") with (Get_path ["thinking"; "type"] (JObj ms')).
  change (Get (JObj ms') "thinking.budget_tokens")
    with (Get_path ["thinking"; "budget_tokens"] (JObj ms')).
  change (Get (JObj ms') "max_tokens") with (Get_path ["max_tokens"] (JObj ms')).
  rewrite !Hother by discriminate. rewrite Hread.
  change (Get_path ["thinking"; "type"] (JObj ms)) with (Get (JObj ms) "thinking.type").
  change (Get_path ["thinking"; "budget_tokens"] (JObj ms))
    with (Get (JObj ms) "thinking.budget_tokens").
  rewrite Hty, Hb. cbv zeta. fold R.
  change (Result_Int (Some (JNum R))) with (wrap64 R). rewrite HR.
  now rewrite Z.ltb_irrefl, Hlt, Hbody'.
Qed.

(** With thinking enabled and a positive budget, [max_tokens] becomes
    the larger of its old value and the required value. *)
Lemma EnsureClaudeMaxTokens_max (raw : json -> string)
    (reg : ModelRegistry) (modelName : string) (body : json) :
  Result_String raw (Get body "thinking.type") = "enabled" ->
  0 < Result_Int (Get body "thinking.budget_tokens") ->
  let maxCompletionTokens :=
    match GetModelInfo reg modelName with
    | Some modelInfo => MaxCompletionTokens modelInfo
    | None => 0
    end in
  let required :=
    if 0 <? maxCompletionTokens then wrap64 maxCompletionTokens
    else wrap64 (Result_Int (Get body "thinking.budget_tokens") + fallbackBuffer) in
  Result_Int (Get (EnsureClaudeMaxTokens raw reg modelName body) "max_tokens")
  = Z.max (Result_Int (Get body "max_tokens")) required.
Proof.
  intros Hty Hb mc R. unfold EnsureClaudeMaxTokens.
  rewrite Hty. change (negb ("enabled" =? "enabled")%string) with false. cbv iota.
  destruct (Z.leb_spec (Result_Int (Get body "thinking.budget_tokens")) 0); [lia|].
  cbv zeta. fold mc. fold R.
  destruct (Z.ltb_spec (Result_Int (Get body "max_tokens")) R) as [Hlt|Hge];
    [|lia].
  assert (HR : wrap64 R = R).
  { subst R. destruct (0 <? mc); apply wrap64_idem. }
  destruct body as [| | | | | |ms]; try discriminate Hty.
  destruct (Set_member_read "max_tokens" (JNum R) ms) as (ms' & Hset & Hread & _).
  unfold SetBytes. change (split_path "max_tokens") with ["max_tokens"].
  rewrite Hset.
  change (Get (JObj ms') "max_tokens") with (Get_path ["max_tokens"] (JObj ms')).
  rewrite Hread. change (Result_Int (Some (JNum R))) with (wrap64 R). lia.
Qed.

(** C2, as amended. After [EnsureClaudeMaxTokens] on a body whose
    [thinking.type] is [enabled] and whose [thinking.budget_tokens] is
    [B > 0], [max_tokens] is the larger of its old value and the
    required value: at least [B + 4000] (for [B + 4000] within the
    64-bit range) when the model's [max_completion_tokens] is unknown
    (model absent, or not positive), and at least
    [max_completion_tokens] when that is positive; a larger
    [max_tokens] of the body is kept. *)
Theorem EnsureClaudeMaxTokens_room (raw : json -> string)
    (reg : ModelRegistry) (modelName : string) (body : json) :
  Result_String raw (Get body "thinking.type") = "enabled" ->
  0 < Result_Int (Get body "thinking.budget_tokens") ->
  let B := Result_Int (Get body "thinking.budget_tokens") in
  let old_max_tokens := Result_Int (Get body "max_tokens") in
  let max_tokens :=
    Result_Int (Get (EnsureClaudeMaxTokens raw reg modelName body) "max_tokens") in
  ((GetModelInfo reg modelName = None \/
    exists info, GetModelInfo reg modelName = Some info /\
                 MaxCompletionTokens info <= 0) ->
   B + 4000 < 2 ^ 63 ->
   B + 4000 <= max_tokens /\ max_tokens = Z.max old_max_tokens (B + 4000)) /\
  (forall info,
     GetModelInfo reg modelName = Some info ->
     0 < MaxCompletionTokens info < 2 ^ 63 ->
     MaxCompletionTokens info <= max_tokens /\
     max_tokens = Z.max old_max_tokens (MaxCompletionTokens info)).
Proof.
  intros Hty Hb B old_max_tokens max_tokens.
  pose proof (EnsureClaudeMaxTokens_max raw reg modelName body Hty Hb) as Hmax.
  cbv zeta in Hmax. fold max_tokens old_max_tokens B in Hmax.
  split.
  - intros Hunknown Hrange.
    assert (Hreq : max_tokens = Z.max old_max_tokens (B + 4000)).
    { rewrite Hmax. f_equal.
      destruct Hunknown as [Hnone|(info & Hinfo & Hmc)].
      - rewrite Hnone. simpl. apply wrap64_small. unfold fallbackBuffer. lia.
      - rewrite Hinfo. destruct (Z.ltb_spec 0 (MaxCompletionTokens info)); [lia|].
        apply wrap64_small. unfold fallbackBuffer. lia. }
    split; [lia | exact Hreq].
  - intros info Hinfo Hmc.
    assert (Hreq : max_tokens = Z.max old_max_tokens (MaxCompletionTokens info)).
    { rewrite Hmax, Hinfo.
      destruct (Z.ltb_spec 0 (MaxCompletionTokens info)); [|lia].
      f_equal. apply wrap64_small. lia. }
    split; [lia | exact Hreq].
Qed.

(** Scenario S4: with no registry entry, [max_tokens] 1000 becomes
    24000 for a budget of 20000. *)
Lemma EnsureClaudeMaxTokens_room_witness :
  Result_Int (Get (EnsureClaudeMaxTokens no_raw empty_registry "claude-sonnet" body_s4) "max_tokens")
  = 24000.
Proof.
  destruct (EnsureClaudeMaxTokens_room no_raw empty_registry "claude-sonnet" body_s4)
    as [Hunknown _].
  - reflexivity.
  - vm_compute. reflexivity.
  - destruct Hunknown as [_ Heq].
    + left. reflexivity.
    + vm_compute. reflexivity.
    + rewrite Heq. vm_compute. reflexivity.
Defined.

(** C2, as stated, fails in its second half: when the body already
    asks for more than the model's positive [max_completion_tokens],
    its [max_tokens] is kept and is not equal to the limit. *)
Lemma EnsureClaudeMaxTokens_keeps_larger_max_tokens :
  GetModelInfo limited_registry "claude-sonnet" = Some limited_info /\
  MaxCompletionTokens limited_info = 8192 /\
  EnsureClaudeMaxTokens no_raw limited_registry "claude-sonnet" body_large = body_large /\
  Result_Int (Get body_large "max_tokens") = 100000 /\
  ~ (forall (raw : json -> string) (reg : ModelRegistry)
            (modelName : string) (body : json) (info : ModelInfo),
       Result_String raw (Get body "thinking.type") = "enabled" ->
       0 < Result_Int (Get body "thinking.budget_tokens") ->
       GetModelInfo reg modelName = Some info ->
       0 < MaxCompletionTokens info ->
       Result_Int (Get (EnsureClaudeMaxTokens raw reg modelName body) "max_tokens")
       = MaxCompletionTokens info).
Proof.
  repeat (split; [reflexivity|]).
  intros H.
  specialize (H no_raw limited_registry "claude-sonnet" body_large limited_info).
  vm_compute in H.
  assert (Hfalse : 100000 = 8192) by (apply H; reflexivity).
  discriminate Hfalse.
Qed.

(** C4. The translator is idempotent: applying [ApplyToClaude] twice
    gives the body that applying it once gives, and so does
    [EnsureClaudeMaxTokens] for every model name. *)
Theorem translator_idempotent :
  (forall (t : option ThinkingConfig) (body : json),
     ApplyToClaude t (ApplyToClaude t body) = ApplyToClaude t body) /\
  (forall (raw : json -> string) (reg : ModelRegistry)
          (modelName : string) (body : json),
     EnsureClaudeMaxTokens raw reg modelName
       (EnsureClaudeMaxTokens raw reg modelName body)
     = EnsureClaudeMaxTokens raw reg modelName body).
Proof.
  split; [apply ApplyToClaude_idempotent | apply EnsureClaudeMaxTokens_idempotent].
Qed.
End Translator.

(** ** The translators on bytes that are no JSON document *)

Section TranslatorBytes.
Import GjsonBytes SjsonBytes Scenarios Examples.

(** On a body that is a JSON document the scan of the bytes does what
    the reading of the document does: [max_tokens] is raised once, and
    a second call finds it raised. *)
Example EnsureClaudeMaxTokens_closed_body (lib : Conversions) :
  ProvidersBytes.EnsureClaudeMaxTokens lib empty_registry "claude-sonnet" closed_body
  = body_text "{'thinking':{'type':'enabled','budget_tokens':9},'max_tokens':4009}" /\
  ProvidersBytes.EnsureClaudeMaxTokens lib empty_registry "claude-sonnet"
    (ProvidersBytes.EnsureClaudeMaxTokens lib empty_registry "claude-sonnet" closed_body)
  = ProvidersBytes.EnsureClaudeMaxTokens lib empty_registry "claude-sonnet" closed_body.
Proof. split; vm_compute; reflexivity. Qed.

Example EnsureClaudeMaxTokens_s4_text (lib : Conversions) :
  ProvidersBytes.EnsureClaudeMaxTokens lib empty_registry "claude-sonnet" body_s4_text
  = body_text "{'max_tokens':24000,'thinking':{'type':'enabled','budget_tokens':20000}}" /\
  Json.Get (Providers.EnsureClaudeMaxTokens no_raw empty_registry "claude-sonnet" body_s4)
    "max_tokens" = Some (Json.JNum 24000).
Proof. split; vm_compute; reflexivity. Qed.

Example ApplyToClaude_bytes (lib : Conversions) :
  ProvidersBytes.ApplyToClaude lib (Some thinking_9) (body_text "{'model':'claude'}")
  = body_text "{'model':'claude','thinking':{'type':'enabled','budget_tokens':9}}" /\
  ProvidersBytes.ApplyToClaude lib (Some thinking_9) (body_text "[1,2]")
  = body_text "[1,2]" /\
  ProvidersBytes.ApplyToClaude lib (Some thinking_9) closed_body = closed_body.
Proof. repeat split; vm_compute; reflexivity. Qed.

(** A number written with a fraction is read as the [int64] the
    library makes of it. *)
Example EnsureClaudeMaxTokens_fraction :
  Json.Result_Int (Json.Get body_fraction "thinking.budget_tokens") = 2048 /\
  Json.Get (Providers.EnsureClaudeMaxTokens no_raw empty_registry "claude-sonnet"
              body_fraction) "max_tokens" = Some (Json.JNum 6048).
Proof. split; vm_compute; reflexivity. Qed.

(** C4, as stated for every body, fails on bytes that are no JSON
    document. In [truncated_body] the one closing brace closes
    [thinking]. gjson reads [thinking.type] and
    [thinking.budget_tokens] inside it, and finds no [max_tokens]
    beside [thinking]; sjson, which finds none either, writes the new
    member before the last closing brace there is, so it lands inside
    [thinking], where the next call does not look: every call appends
    [max_tokens] once more. [ApplyToClaude] does the same to
    [unclosed_body] with [thinking]. None of this goes through the
    conversions that are left to the libraries. *)
Lemma translator_appends_to_truncated_body :
  (forall lib : Conversions,
     ProvidersBytes.EnsureClaudeMaxTokens lib empty_registry "claude-sonnet" truncated_body
     = body_text "{'thinking':{'type':'enabled','budget_tokens':9,'max_tokens':4009}") /\
  (forall lib : Conversions,
     ProvidersBytes.EnsureClaudeMaxTokens lib empty_registry "claude-sonnet"
       (ProvidersBytes.EnsureClaudeMaxTokens lib empty_registry "claude-sonnet"
          truncated_body)
     = body_text
         "{'thinking':{'type':'enabled','budget_tokens':9,'max_tokens':4009,'max_tokens':4009}") /\
  (forall lib : Conversions,
     ProvidersBytes.EnsureClaudeMaxTokens lib empty_registry "claude-sonnet"
       (ProvidersBytes.EnsureClaudeMaxTokens lib empty_registry "claude-sonnet"
          truncated_body)
     <> ProvidersBytes.EnsureClaudeMaxTokens lib empty_registry "claude-sonnet"
          truncated_body) /\
  (forall lib : Conversions,
     ProvidersBytes.ApplyToClaude lib (Some thinking_9) unclosed_body
     = body_text
         "{'metadata':{'user_id':'u1','thinking':{'type':'enabled'},'thinking':{'budget_tokens':9}}") /\
  (forall lib : Conversions,
     ProvidersBytes.ApplyToClaude lib (Some thinking_9)
       (ProvidersBytes.ApplyToClaude lib (Some thinking_9) unclosed_body)
     <> ProvidersBytes.ApplyToClaude lib (Some thinking_9) unclosed_body).
Proof.
  repeat split; intros lib; vm_compute; try reflexivity; discriminate.
Qed.
End TranslatorBytes.

(** ** The token counter *)

Section TokenCounter.
Import Json Tokenizer Scenarios.

Variable raw : json -> string.
Variable LocalTokenizer : Type.
Variable error : Type.
Variable NewLocalTokenizer : string -> LocalTokenizer + error.
Variable CountTokens : LocalTokenizer -> list Content -> Z + error.

Lemma Get_wrapped (payload : json) (key : string) :
  Get_path ["request"; key] (JObj [("request", payload)]) = Get_path [key] payload.
Proof. simpl. now destruct payload as [| | | | | |ms]; [..|destruct (find_member _ key ms)]. Qed.

Lemma schema_paths_wrapped (payload : json) :
  Result_Exists (Get payload "contents") = true ->
  schema_paths (JObj [("request", payload)])
  = ("request.contents", "request.systemInstruction").
Proof.
  intros H. unfold schema_paths.
  change (Get (JObj [("request", payload)]) "request.contents")
    with (Get_path ["request"; "contents"] (JObj [("request", payload)])).
  rewrite Get_wrapped. change (Get_path ["contents"] payload) with (Get payload "contents").
  now rewrite H.
Qed.

Lemma extractContentsFromPayload_wrapped (payload : json) :
  Result_Exists (Get payload "contents") = true ->
  Result_Exists (Get payload "request.contents") = false ->
  extractContentsFromPayload raw (JObj [("request", payload)])
  = extractContentsFromPayload raw payload.
Proof.
  intros Hc Hr. unfold extractContentsFromPayload.
  rewrite schema_paths_wrapped by assumption.
  unfold schema_paths at 1. rewrite Hr.
  change (Get (JObj [("request", payload)]) "request.contents")
    with (Get_path ["request"; "contents"] (JObj [("request", payload)])).
  change (Get (JObj [("request", payload)]) "request.systemInstruction")
    with (Get_path ["request"; "systemInstruction"] (JObj [("request", payload)])).
  rewrite !Get_wrapped. reflexivity.
Qed.

(** C5. For a valid Gemini payload in the native form ([contents] at
    the root, and no [request.contents], which would make it a wrapped
    one), the counter gives the payload wrapped under [request] the
    count it gives the payload itself, for every model name; and the
    wrapped schema is the one selected exactly when the path
    [request.contents] exists. *)
Theorem schema_tolerance (model : string) (payload : json)
    (tokenizerCache : gmap string LocalTokenizer) :
  Result_Exists (Get payload "contents") = true ->
  Result_Exists (Get payload "request.contents") = false ->
  CountTokensFromGeminiRequest raw LocalTokenizer error NewLocalTokenizer
    CountTokens model (JObj [("request", payload)]) tokenizerCache
  = CountTokensFromGeminiRequest raw LocalTokenizer error NewLocalTokenizer
      CountTokens model payload tokenizerCache
  /\ forall p : json,
       (schema_paths p = ("request.contents", "request.systemInstruction") <->
        Result_Exists (Get p "request.contents") = true) /\
       (schema_paths p = ("contents", "systemInstruction") <->
        Result_Exists (Get p "request.contents") = false).
Proof.
  intros Hc Hr. split.
  - unfold CountTokensFromGeminiRequest.
    now rewrite extractContentsFromPayload_wrapped.
  - intros p. unfold schema_paths.
    destruct (Result_Exists (Get p "request.contents")); split; split;
      intros H; try reflexivity; discriminate H.
Qed.

(** The count call of the tokenizer library hands back a number of
    tokens. *)
Hypothesis CountTokens_nonneg :
  forall tok contents total, CountTokens tok contents = inl total -> 0 <= total.

(** C6. For every model name and every byte string, however gjson
    reads a document from it, [CountTokensFromGeminiRequest] is a total
    function whose result is a non-negative integer; when the tokenizer
    cannot be constructed or the count call fails the result is 0, and
    the result type has no room for an error. *)
Theorem CountTokensFromGeminiRequest_safe
    (gjson_read : list Byte.byte -> json) (model : string)
    (payload : list Byte.byte) (tokenizerCache : gmap string LocalTokenizer) :
  let count :=
    fst (CountTokensFromGeminiRequest raw LocalTokenizer error NewLocalTokenizer
           CountTokens model (gjson_read payload) tokenizerCache) in
  0 <= count /\
  (forall err cache',
     getOrCreateTokenizer LocalTokenizer error NewLocalTokenizer model tokenizerCache
       = (inr err, cache') ->
     count = 0) /\
  (forall tok err cache',
     getOrCreateTokenizer LocalTokenizer error NewLocalTokenizer model tokenizerCache
       = (inl tok, cache') ->
     CountTokens tok (extractContentsFromPayload raw (gjson_read payload)) = inr err ->
     count = 0).
Proof.
  intros count. subst count. unfold CountTokensFromGeminiRequest.
  destruct (getOrCreateTokenizer _ _ _ model tokenizerCache) as [[tok|err] cache'] eqn:Hget.
  - repeat split.
    + destruct (length _ =? 0)%nat; simpl; [lia|].
      destruct (CountTokens tok _) as [total|err] eqn:Hcount; simpl; [|lia].
      eapply CountTokens_nonneg; eassumption.
    + intros err c' [=].
    + intros tok' err c' [= <- <-] Hcount.
      destruct (length _ =? 0)%nat; simpl; [reflexivity|].
      now rewrite Hcount.
  - repeat split; simpl; try lia; reflexivity.
Qed.
End TokenCounter.

Section TokenCounterScenarios.
Import Json Tokenizer Scenarios.

(** Scenario S5: for [gemini-3-pro] the wrapped payload is counted as
    the native one. *)
Lemma schema_tolerance_witness :
  CountTokensFromGeminiRequest no_raw unit string char_tokenizer_new
    char_tokenizer_count "gemini-3-pro" wrapped_s5 ∅
  = CountTokensFromGeminiRequest no_raw unit string char_tokenizer_new
      char_tokenizer_count "gemini-3-pro" native_s5 ∅.
Proof.
  apply (schema_tolerance no_raw unit string char_tokenizer_new
           char_tokenizer_count "gemini-3-pro" native_s5 ∅); reflexivity.
Defined.

(** Scenario S5: the [gemini-2.0-flash] tokenizer is used, and of the
    two parts only the text [hi] is counted. *)
Example count_s5 :
  normalizeModelForTokenizer "gemini-3-pro" = "gemini-2.0-flash" /\
  extractContentsFromPayload no_raw wrapped_s5
    = [{| Role := "user"; Parts := [{| Text := "hi" |}] |}] /\
  CountTokensFromGeminiRequest no_raw unit string char_tokenizer_new
    char_tokenizer_count "gemini-3-pro" wrapped_s5 ∅
    = (2, {[ "gemini-2.0-flash" := tt ]}).
Proof. repeat split; reflexivity. Qed.

(** The empty object has nothing to count. *)
Lemma CountTokensFromGeminiRequest_safe_witness :
  0 <= fst (CountTokensFromGeminiRequest no_raw unit string char_tokenizer_new
              char_tokenizer_count "gemini-3-pro"
              (read_empty_object empty_object_bytes) ∅).
Proof.
  apply (CountTokensFromGeminiRequest_safe no_raw unit string char_tokenizer_new
           char_tokenizer_count
           ltac:(intros tok contents total [= <-]; apply Nat2Z.is_nonneg)
           read_empty_object "gemini-3-pro" empty_object_bytes).
Defined.

(** A tokenizer that cannot be built gives the count 0. *)
Example count_without_tokenizer :
  CountTokensFromGeminiRequest no_raw unit string char_tokenizer_new
    char_tokenizer_count "gemini-pro" wrapped_s5 ∅ = (0, ∅).
Proof. reflexivity. Qed.
End TokenCounterScenarios.

(** ** The Claude login flow *)

Section ClaudeLogin.
Import Login Scenarios.

Variable Config : Type.

Ltac run_flow :=
  unfold ClaudeAuthenticator_Login, exchange_attempted;
  unfold mbind, M_bind, bind, or_fail, emit, ret, fail;
  repeat first
    [ progress cbn
    | match goal with
      | H : _ = _ |- _ => rewrite H
      end
    | match goal with
      | |- context [if ?b then _ else _] => destruct b
      | |- context [match ?o with Some _ => _ | None => _ end] => destruct o
      end ].

(** C8. Once the flow is at the authorisation-code prompt (the
    configuration is there, the PKCE codes, the state and the URL were
    made): when the scanner yields an empty line, the input is closed
    or the scanner fails, [Login] returns an error of the
    user-input-missing kind and never attempts the exchange of a code
    for tokens; when a code was read and the exchange fails, the cause
    comes back wrapped in an [AuthenticationError] of kind
    [ExchangeFailed]. *)
Theorem Login_code_prompt (w : world) (cfg : Config) (opts : option LoginOptions)
    (pkceCodes : PKCECodes) (state authURL returnedState : string) :
  GeneratePKCECodes w = inl pkceCodes ->
  GenerateRandomState w = inl state ->
  GenerateAuthURL w state pkceCodes = inl (authURL, returnedState) ->
  let run := ClaudeAuthenticator_Login Config w (Some cfg) opts in
  ((stdin w = ScanEOF \/
    (exists err, stdin w = ScanError err) \/
    (exists text, stdin w = ScanLine text /\ TrimSpace text = "")) ->
   exists e, snd run = inr e /\
             user_input_missing e = true /\
             exchange_attempted run = false) /\
  (forall text err,
     stdin w = ScanLine text ->
     TrimSpace text <> "" ->
     ExchangeCodeForTokens w (TrimSpace text) returnedState pkceCodes = inr err ->
     snd run = inr (AuthenticationError ErrCodeExchangeFailed err) /\
     exchange_attempted run = true).
Proof.
  intros Hpkce Hstate Hurl run. subst run. split.
  - intros [Heof|[[err Herr]|(text & Hline & Hempty)]].
    + exists (Errorf "no authorisation code provided" None).
      run_flow; repeat split; reflexivity.
    + exists (Errorf "failed to read authorisation code: %w" (Some err)).
      run_flow; repeat split; reflexivity.
    + exists (Errorf "empty authorisation code provided" None).
      run_flow; repeat split; reflexivity.
  - intros text err Hline Hcode Hexchange.
    apply String.eqb_neq in Hcode.
    run_flow; repeat split; try reflexivity;
      rewrite ?existsb_app; cbn; now rewrite ?orb_true_r.
Qed.

End ClaudeLogin.

(** Scenario S6: an empty line at the prompt. *)
Lemma Login_code_prompt_witness :
  exists e,
    snd (Login.ClaudeAuthenticator_Login unit Scenarios.world_s6 (Some tt) None) = inr e /\
    Login.user_input_missing e = true /\
    Login.exchange_attempted
      (Login.ClaudeAuthenticator_Login unit Scenarios.world_s6 (Some tt) None) = false.
Proof.
  destruct (Login_code_prompt unit Scenarios.world_s6 tt None Scenarios.pkce_s6
              "state-1" "https://auth.example/authorize" "state-1")
    as [Hmissing _]; try reflexivity.
  apply Hmissing. right. right. exists "". split; reflexivity.
Defined.

(** A code that the provider refuses: the cause comes back wrapped. *)
Example Login_exchange_refused :
  Login.ClaudeAuthenticator_Login unit Scenarios.world_refused (Some tt) None
  = ([Login.Stdout ("Opening browser for Claude authentication..." ++ Login.nl);
      Login.OpenedURL "https://auth.example/authorize";
      Login.LogWarnf "Failed to open browser automatically: %v" (Login.External "no display");
      Login.Stdout ("Visit the following URL to authenticate:" ++ Login.nl
                   ++ "https://auth.example/authorize" ++ Login.nl ++ Login.nl);
      Login.Stdout "Paste the authorisation code from the browser: ";
      Login.LogDebug "Claude authorisation code received; exchanging for tokens";
      Login.Exchanged "abc123" "state-1" Scenarios.pkce_s6],
     inr (Login.AuthenticationError Login.ErrCodeExchangeFailed
            (Login.External "invalid_grant"))).
Proof. reflexivity. Qed.

(** The white space of [strings.TrimSpace] is Unicode's: lines of
    no-break, em or ideographic spaces trim to nothing, a byte that is
    no UTF-8 stays. *)
Example TrimSpace_unicode :
  Login.TrimSpace Examples.no_break_space = "" /\
  Login.TrimSpace Examples.unicode_blanks = "" /\
  Login.TrimSpace (" abc" ++ Examples.no_break_space ++ "123 " ++ Examples.unicode_blanks)
  = ("abc" ++ Examples.no_break_space ++ "123")%string /\
  Login.TrimSpace Examples.latin1_no_break_space = Examples.latin1_no_break_space.
Proof. repeat split; vm_compute; reflexivity. Qed.

(** A line that holds a no-break space only is an empty code: no
    exchange is attempted. *)
Example Login_no_break_space_line :
  snd (Login.ClaudeAuthenticator_Login unit Examples.world_blank (Some tt) None)
  = inr (Login.Errorf "empty authorisation code provided" None) /\
  Login.exchange_attempted
    (Login.ClaudeAuthenticator_Login unit Examples.world_blank (Some tt) None) = false.
Proof. split; vm_compute; reflexivity. Qed.

(** ** Credential logging *)

Section CredentialLog.
Import Misc.

(** When the cleaned path starts with a non-empty home directory, the
    leftmost occurrence that [strings.Replace] rewrites is that prefix:
    code and specification agree. *)
Lemma display_path_home_prefix (home path : string) :
  home <> "" ->
  String.prefix home (Clean path) = true ->
  display_path home path = replace_home_prefix_spec home (Clean path).
Proof.
  intros Hne Hpre. unfold display_path, replace_home_prefix_spec.
  apply String.eqb_neq in Hne. rewrite Hne, Hpre. simpl.
  destruct (Clean path); simpl in *; now rewrite Hpre.
Qed.

(** C9, where the code departs from it: with [HOME=/root], the
    credential path [/backup/root/x.json] does not start with the home
    directory, so the display path of the specification is the cleaned
    path itself; the code rewrites the occurrence of [/root] in the
    middle and prints [/backup~/x.json]. With an empty [HOME] it puts
    [~] in front of any path. *)
Theorem LogSavingCredentials_rewrites_inner_home :
  Clean "/backup/root/x.json" = "/backup/root/x.json" /\
  replace_home_prefix_spec "/root" (Clean "/backup/root/x.json") = "/backup/root/x.json" /\
  LogSavingCredentials "/root" "/backup/root/x.json"
    = ["Saving credentials to to /backup~/x.json" ++ Login.nl] /\
  LogSavingCredentials "" "/etc/llm-mux/x.json"
    = ["Saving credentials to to ~/etc/llm-mux/x.json" ++ Login.nl].
Proof. repeat split; reflexivity. Qed.

(** A path under the home directory is shown with [~]. *)
Example LogSavingCredentials_under_home :
  LogSavingCredentials "/root" "/root/.config//llm-mux/./claude-a@b.c.json"
    = ["Saving credentials to to ~/.config/llm-mux/claude-a@b.c.json" ++ Login.nl].
Proof. reflexivity. Qed.
End CredentialLog.

(** ** Concurrent first use of the tokenizer cache *)

Section AtMostOnce.
Import Tokenizer Concurrent.

Variable LocalTokenizer : Type.
Variable error : Type.
Variable NewLocalTokenizer : nat -> string -> LocalTokenizer + error.

Local Abbreviation Thread := (thread LocalTokenizer error).
Local Abbreviation Config := (config LocalTokenizer error).

Lemma lookup_thread_update (ts : list Thread) (i j : nat) (t t' tj : Thread) :
  ts !! i = Some t ->
  <[i := t']> ts !! j = Some tj ->
  (j = i /\ tj = t') \/ (j <> i /\ ts !! j = Some tj).
Proof.
  intros Hi Hj. destruct (decide (i = j)) as [->|Hne].
  - left. rewrite list_lookup_insert_eq in Hj by (eapply lookup_lt_Some; eassumption).
    split; congruence.
  - right. rewrite list_lookup_insert_ne in Hj by assumption. split; congruence.
Qed.

Lemma map_model_update (ts : list Thread) (i : nat) (t : Thread) (p' : pc LocalTokenizer error) :
  ts !! i = Some t ->
  map model (<[i := {| model := model t; at_pc := p' |}]> ts) = map model ts.
Proof.
  intros Hi. change (map model ?l) with (model <$> l).
  rewrite list_fmap_insert. simpl. apply list_insert_id.
  rewrite list_lookup_fmap, Hi. reflexivity.
Qed.

Lemma initial_invariant (models : list string) (c0 : gmap string LocalTokenizer) :
  invariant NewLocalTokenizer models c0 (initial error models c0).
Proof.
  assert (Hpc : forall i (t : Thread),
            threads (initial error models c0) !! i = Some t -> at_pc t = AtRLock).
  { intros i t. unfold initial. simpl.
    change (map ?f ?l) with (f <$> l). rewrite list_lookup_fmap.
    destruct (models !! i); simpl; [|discriminate]. now intros [= <-]. }
  constructor.
  - unfold initial. simpl. rewrite map_map. simpl. apply map_id.
  - reflexivity.
  - intros _ i t Ht. now rewrite (Hpc i t Ht).
  - intros i j ti tj Hi _ Hli. rewrite (Hpc i ti Hi) in Hli. discriminate.
  - intros i t Ht [H|[tok H]]; rewrite (Hpc i t Ht) in H; discriminate.
  - intros i t tok Ht H. rewrite (Hpc i t Ht) in H. discriminate.
  - intros key _. unfold instances. simpl.
    destruct (decide _) as [[Hnone Hsome]|]; [|reflexivity].
    rewrite Hnone in Hsome. now destruct Hsome.
  - intros key tok Hnone Hsome. simpl in Hsome. congruence.
  - intros i t tok Ht H. rewrite (Hpc i t Ht) in H. discriminate.
  - intros i t tok Ht H. rewrite (Hpc i t Ht) in H. discriminate.
  - intros i t err Ht H. rewrite (Hpc i t Ht) in H. discriminate.
  - intros key. unfold failures, errors_returned, initial. simpl. clear Hpc.
    induction models as [|m ms IH]; [reflexivity | exact IH].
Qed.

(** Counting the callers that [f] selects, after a step of caller
    [i]. *)
Lemma count_thread_update (f : Thread -> bool) (ts : list Thread) (i : nat)
    (t t' : Thread) :
  ts !! i = Some t ->
  (length (List.filter f (<[i := t']> ts)) + (if f t then 1 else 0)
   = length (List.filter f ts) + (if f t' then 1 else 0))%nat.
Proof.
  revert i; induction ts as [|t0 ts IH]; intros [|i]; simpl; try discriminate.
  - intros [= ->]. destruct (f t), (f t'); simpl; lia.
  - intros Hi. specialize (IH i Hi). destruct (f t0); simpl; lia.
Qed.

Lemma is_Some_insert_mono (cache : gmap string LocalTokenizer) (key k : string)
    (tok : LocalTokenizer) :
  is_Some (cache !! k) -> is_Some (<[key := tok]> cache !! k).
Proof.
  intros H. destruct (decide (key = k)) as [->|Hne].
  - rewrite lookup_insert_eq. eauto.
  - now rewrite lookup_insert_ne.
Qed.

(** The callers about to insert are the same before and after a step
    of a caller that neither was nor is about to insert. *)
Lemma no_pending_before (ts : list Thread) (i : nat) (t t' : Thread) (key : string) :
  ts !! i = Some t ->
  is_insert (at_pc t) = false ->
  (forall j tj tok, <[i := t']> ts !! j = Some tj -> at_pc tj = AtInsert tok ->
                    baseModel tj <> key) ->
  forall j tj tok, ts !! j = Some tj -> at_pc tj = AtInsert tok -> baseModel tj <> key.
Proof.
  intros Hi Hpc H j tj tok Hj Hins.
  destruct (decide (j = i)) as [->|Hne].
  - rewrite Hi in Hj. injection Hj as ->. rewrite Hins in Hpc. discriminate.
  - apply (H j tj tok); [|assumption]. now rewrite list_lookup_insert_ne.
Qed.

Lemma step_invariant (models : list string) (c0 : gmap string LocalTokenizer)
    (c c' : Config) :
  invariant NewLocalTokenizer models c0 c ->
  step NewLocalTokenizer c c' ->
  invariant NewLocalTokenizer models c0 c'.
Proof.
  intros [Hmodels Hgrows Hfree Hone Hmiss Hpend Hsettled Hins Hhit Hok Herr Hfail] Hstep.
  destruct Hstep as [i t ts sh sh' p' Hi Hts].
  unfold instances, baseModel in *. simpl in *.
  pose proof (fun j t' tj => lookup_thread_update ts i j t t' tj Hi) as Hlk.
  pose proof (fun t' key => no_pending_before ts i t t' key Hi) as Hnp.
  unfold baseModel in Hnp.
  (* a caller that holds the write lock is the only one, and the lock
     is marked as held *)
  assert (Hholder : holds_lock (at_pc t) = true ->
            forall j tj, j <> i -> ts !! j = Some tj -> holds_lock (at_pc tj) = false).
  { intros Hheld j tj Hne Hj. destruct (holds_lock (at_pc tj)) eqn:E; [|reflexivity].
    destruct Hne. exact (Hone j i tj t Hj Hi E Hheld). }
  assert (Hbusy : holds_lock (at_pc t) = true -> writer sh = true).
  { intros Hheld. destruct (writer sh) eqn:E; [reflexivity|].
    rewrite (Hfree eq_refl i t Hi) in Hheld. discriminate. }
  inversion Hts as [sh0 Hw Hpc|sh0 Hpc|sh0 tok Hpc|sh0 Hpc|sh0 Hw Hr Hpc
                   |sh0 tok Hc Hpc|sh0 Hc Hpc|sh0 err Hn Hpc|sh0 tok Hn Hpc|sh0 tok Hpc];
    subst; symmetry in Hpc; rewrite Hpc in Hholder, Hbusy; simpl in Hholder, Hbusy;
    constructor; unfold instances, baseModel; simpl.
  all: try (rewrite map_model_update by assumption; reflexivity).
  all: try assumption.
  all: try (intros key Hprem; apply Hsettled; eapply Hnp;
            [rewrite Hpc; reflexivity | exact Hprem]).
  all: intros;
    repeat match goal with
           | H : <[_ := _]> _ !! _ = Some _ |- _ =>
               apply Hlk in H; destruct H as [[-> ->] | [? H]]
           | H : _ \/ _ |- _ => destruct H
           | H : exists _, _ |- _ => destruct H
           end; simpl in *.
  all: try discriminate.
  all: try solve [eauto].
  all: try solve [exfalso; eauto; congruence].
  (* the other callers do not hold the lock *)
  all: try solve [eapply Hholder; eauto].
  all: try solve [
    match goal with
    | Hj : _ !! ?j = Some ?tj, Hp : at_pc ?tj = _ |- _ =>
        pose proof (Hholder eq_refl j tj ltac:(assumption) Hj) as Hno;
        rewrite Hp in Hno; discriminate Hno
    | Hj : _ !! ?j = Some ?tj, Hp : holds_lock (at_pc ?tj) = true |- _ =>
        first [ rewrite (Hholder eq_refl j tj ltac:(assumption) Hj) in Hp
              | rewrite (Hfree ltac:(assumption) j tj Hj) in Hp ];
        discriminate Hp
    | Hw : writer _ = false |- _ =>
        rewrite (Hbusy eq_refl) in Hw; discriminate Hw
    end ].
  all: try solve [
    match goal with
    | H : AtRUnlock _ = AtRUnlock _ |- _ => injection H as H; rewrite H; eauto
    end ].
  all: try solve [apply is_Some_insert_mono; eauto].
  all: try solve [rewrite lookup_insert_eq; eauto].
  all: try congruence.
  (* an error a caller returns is the constructor's *)
  all: try solve [
    match goal with
    | H : Returned _ = Returned _ |- _ => injection H as <-
    end; eexists; eassumption ].
  (* the failed calls are the errors returned *)
  all: try solve [
    match goal with
    | Hf : forall k0 : string, failures k0 _ = errors_returned k0 _
      |- failures ?k _ = errors_returned ?k _ =>
        specialize (Hf k); unfold failures, errors_returned in *; simpl in *
    end;
    match goal with
    | Hi0 : ?ts0 !! ?i0 = Some ?t0, Hp : at_pc ?t0 = _
      |- _ = length (List.filter ?f (<[?i0 := ?t']> ?ts0)) =>
        pose proof (count_thread_update f ts0 i0 t0 t' Hi0) as Hcount;
        simpl in Hcount; rewrite Hp in Hcount; unfold baseModel in *; simpl in *
    end;
    repeat match goal with
           | |- context [string_dec ?a ?b] => destruct (string_dec a b)
           end;
    repeat match goal with
           | H : context [String.eqb ?a ?b] |- _ => destruct (String.eqb_spec a b)
           end;
    simpl in *; try lia; congruence ].
  - (* the caller has just built an instance: it is the first for its key *)
    match goal with H : AtInsert _ = AtInsert _ |- _ => injection H as <- end.
    destruct (string_dec _ _) as [_|Hne]; [|now destruct Hne].
    split; [|eexists; eassumption]. f_equal.
    rewrite Hsettled.
    + destruct (decide _) as [[_ Hsome]|]; [|reflexivity].
      rewrite (Hmiss i t Hi (or_introl Hpc)) in Hsome. now destruct Hsome.
    + intros j tj tok' Hj Hp'. exfalso.
      destruct (decide (j = i)) as [->|Hji].
      * rewrite Hi in Hj. injection Hj as <-. congruence.
      * pose proof (Hholder eq_refl j tj Hji Hj) as Hno.
        rewrite Hp' in Hno. discriminate Hno.
  - (* the keys of the other callers *)
    lazymatch goal with
    | Hprem : forall a b c, _ -> _ -> _ <> ?key |- _ =>
        destruct (string_dec _ _) as [Heq|Hne];
        [ exfalso;
          apply (Hprem i {| model := model t; at_pc := AtInsert tok |} tok);
          [ apply list_lookup_insert_eq; eapply lookup_lt_Some; eassumption
          | reflexivity | exact Heq ]
        | apply Hsettled; eapply Hnp; [rewrite Hpc; reflexivity | exact Hprem] ]
    end.
  - (* the insertion keeps what the cache held *)
    apply insert_subseteq_r; [|assumption].
    eapply lookup_weaken_None; [|exact Hgrows].
    apply (Hmiss i t Hi). right. eauto.
  - (* after the insertion the key is settled *)
    lazymatch goal with
    | Hprem : forall a b c, _ -> _ -> _ <> ?key |- _ =>
        destruct (decide (normalizeModelForTokenizer (model t) = key)) as [<-|Hne];
        [ destruct (Hpend i t tok Hi Hpc) as [Hcount _]; rewrite Hcount;
          rewrite decide_True; [reflexivity|];
          split;
          [ eapply lookup_weaken_None; [|exact Hgrows];
            apply (Hmiss i t Hi); right; eauto
          | rewrite lookup_insert_eq; eauto ]
        | rewrite lookup_insert_ne by assumption;
          apply Hsettled; intros j tj tok' Hj Hp';
          destruct (decide (j = i)) as [->|Hji];
          [ rewrite Hi in Hj; injection Hj as <-; exact Hne
          | apply (Hprem j tj tok'); [|exact Hp'];
            rewrite list_lookup_insert_ne by auto; exact Hj ] ]
    end.
  - (* the inserted instance is the one that was constructed *)
    lazymatch goal with
    | Hlook : <[_ := _]> _ !! ?key = Some ?tok0 |- _ =>
        destruct (decide (normalizeModelForTokenizer (model t) = key)) as [<-|Hne];
        [ rewrite lookup_insert_eq in Hlook; injection Hlook as <-;
          exact (proj2 (Hpend i t tok Hi Hpc))
        | rewrite lookup_insert_ne in Hlook by assumption; eauto ]
    end.
Qed.

Lemma reachable_invariant (models : list string) (c0 : gmap string LocalTokenizer)
    (c : Config) :
  reachable NewLocalTokenizer models c0 c -> invariant NewLocalTokenizer models c0 c.
Proof.
  unfold reachable. intros Hrun.
  refine (rtc_ind_r (fun c => invariant NewLocalTokenizer models c0 c) _ _ _ c Hrun).
  - apply initial_invariant.
  - intros c1 c2 _ Hstep IH. eapply step_invariant; eassumption.
Qed.

(** A step never takes an entry out of the cache, nor changes one. *)
Lemma step_cache_grows (models : list string) (c0 : gmap string LocalTokenizer)
    (c c' : Config) :
  invariant NewLocalTokenizer models c0 c ->
  step NewLocalTokenizer c c' ->
  tokenizerCache (mem c) ⊆ tokenizerCache (mem c').
Proof.
  intros Hinv Hstep. destruct Hstep as [i t ts sh sh' p' Hi Hts]. simpl.
  inversion Hts; subst; simpl; try reflexivity.
  apply insert_subseteq.
  apply (inv_miss _ _ _ _ _ _ Hinv i t Hi). right. eauto.
Qed.

Lemma run_cache_grows (models : list string) (c0 : gmap string LocalTokenizer)
    (c c' : Config) :
  invariant NewLocalTokenizer models c0 c ->
  rtc (step NewLocalTokenizer) c c' ->
  tokenizerCache (mem c) ⊆ tokenizerCache (mem c').
Proof.
  intros Hinv Hrun. induction Hrun as [|c1 c2 c3 Hstep _ IH]; [reflexivity|].
  transitivity (tokenizerCache (mem c2)).
  - eapply step_cache_grows; eassumption.
  - apply IH. eapply step_invariant; eassumption.
Qed.

Lemma pending_true (key : string) (c : Config) :
  pending key c = true ->
  exists i t tok, threads c !! i = Some t /\ at_pc t = AtInsert tok /\ baseModel t = key.
Proof.
  unfold pending. intros H. apply existsb_exists in H as (t & Hin & Ht).
  apply andb_true_iff in Ht as [Hp Hk]. apply String.eqb_eq in Hk.
  apply list_elem_of_In, list_elem_of_lookup in Hin as [i Hi].
  destruct (at_pc t) as [| | | | | |tok|] eqn:E; try discriminate Hp.
  exists i, t, tok. auto.
Qed.

Lemma pending_false (key : string) (c : Config) :
  pending key c = false ->
  forall i t tok, threads c !! i = Some t -> at_pc t = AtInsert tok -> baseModel t <> key.
Proof.
  unfold pending. intros H i t tok Hi Hp Hk.
  assert (Htrue : existsb
            (fun t => is_insert (at_pc t) && (baseModel t =? key)%string) (threads c) = true).
  { apply existsb_exists. exists t. split.
    - apply list_elem_of_In, list_elem_of_lookup. eauto.
    - rewrite Hp. simpl. now apply String.eqb_eq. }
  congruence.
Qed.

Lemma invariant_at_most_once (models : list string) (c0 : gmap string LocalTokenizer)
    (c : Config) (key : string) :
  invariant NewLocalTokenizer models c0 c -> (instances key c <= 1)%nat.
Proof.
  intros Hinv. destruct (pending key c) eqn:Hp.
  - apply pending_true in Hp as (i & t & tok & Hi & Hpc & <-).
    destruct (inv_pending _ _ _ _ _ _ Hinv i t tok Hi Hpc) as [-> _]. lia.
  - rewrite (inv_settled _ _ _ _ _ _ Hinv key (pending_false key c Hp)).
    destruct (decide _); lia.
Qed.

Lemma invariant_cached_never_built (models : list string)
    (c0 : gmap string LocalTokenizer) (c : Config) (key : string) :
  invariant NewLocalTokenizer models c0 c ->
  is_Some (c0 !! key) -> instances key c = 0%nat.
Proof.
  intros Hinv [tok Hc0].
  rewrite (inv_settled _ _ _ _ _ _ Hinv key).
  - destruct (decide _) as [[Hnone _]|]; [congruence | reflexivity].
  - intros i t tok' Hi Hpc Hk.
    pose proof (inv_miss _ _ _ _ _ _ Hinv i t Hi (or_intror (ex_intro _ tok' Hpc))) as Hnone.
    rewrite Hk in Hnone.
    pose proof (lookup_weaken _ _ _ _ Hc0 (inv_cache_grows _ _ _ _ _ _ Hinv)). congruence.
Qed.

Lemma invariant_cached_built (models : list string) (c0 : gmap string LocalTokenizer)
    (c : Config) (key : string) (tok : LocalTokenizer) :
  invariant NewLocalTokenizer models c0 c ->
  c0 !! key = None ->
  tokenizerCache (mem c) !! key = Some tok ->
  instances key c = 1%nat /\ exists n, NewLocalTokenizer n key = inl tok.
Proof.
  intros Hinv Hc0 Hc. split.
  - rewrite (inv_settled _ _ _ _ _ _ Hinv key).
    + rewrite decide_True; [reflexivity|]. split; [assumption | eauto].
    + intros i t tok' Hi Hpc Hk.
      pose proof (inv_miss _ _ _ _ _ _ Hinv i t Hi (or_intror (ex_intro _ tok' Hpc)))
        as Hnone.
      rewrite Hk in Hnone. congruence.
  - exact (inv_inserted _ _ _ _ _ _ Hinv key tok Hc0 Hc).
Qed.

Lemma filter_all_length {A : Type} (f : A -> bool) (l : list A) :
  (forall x, In x l -> f x = true) -> length (List.filter f l) = length l.
Proof.
  induction l as [|x l IH]; simpl; [reflexivity|]. intros H.
  rewrite (H x (or_introl eq_refl)). simpl. f_equal. apply IH. auto.
Qed.

Lemma invariant_same_key (models : list string) (c0 : gmap string LocalTokenizer)
    (c : Config) (key : string) (i : nat) (t : Thread) :
  invariant NewLocalTokenizer models c0 c ->
  Forall (fun m => normalizeModelForTokenizer m = key) models ->
  threads c !! i = Some t ->
  baseModel t = key.
Proof.
  intros Hinv Hkeys Hi. rewrite <- (inv_models _ _ _ _ _ _ Hinv) in Hkeys.
  rewrite Forall_forall in Hkeys. apply Hkeys.
  change (map model (threads c)) with (model <$> threads c).
  apply list_elem_of_fmap. exists t. split; [reflexivity|].
  apply list_elem_of_lookup. eauto.
Qed.

(** Once the callers of one key, which was not in the cache, have all
    returned: either one instance was constructed and is in the cache,
    or none was, the cache has no entry, and every caller has called
    the constructor and returned its error. *)
Lemma invariant_finished (models : list string) (c0 : gmap string LocalTokenizer)
    (c : Config) (key : string) :
  invariant NewLocalTokenizer models c0 c ->
  Forall (fun m => normalizeModelForTokenizer m = key) models ->
  c0 !! key = None ->
  finished c ->
  (instances key c = 1%nat /\
   exists tok n, tokenizerCache (mem c) !! key = Some tok /\
                 NewLocalTokenizer n key = inl tok) \/
  (instances key c = 0%nat /\ tokenizerCache (mem c) !! key = None /\
   failures key c = length models).
Proof.
  intros Hinv Hkeys Hc0 Hfin.
  destruct (tokenizerCache (mem c) !! key) as [tok|] eqn:Hc.
  - left. destruct (invariant_cached_built models c0 c key tok Hinv Hc0 Hc) as [H1 [n Hn]].
    split; [assumption|]. exists tok, n. now split.
  - right. split; [|split; [reflexivity|]].
    + rewrite (inv_settled _ _ _ _ _ _ Hinv key).
      * rewrite decide_False; [reflexivity|]. rewrite Hc. intros [_ [x Hx]]. discriminate.
      * intros i t tok Hi Hpc _.
        unfold finished in Hfin. rewrite Forall_forall in Hfin.
        assert (Hin : t ∈ threads c) by (apply list_elem_of_lookup; eauto).
        apply Hfin in Hin. rewrite Hpc in Hin. discriminate Hin.
    + rewrite (inv_failures _ _ _ _ _ _ Hinv key). unfold errors_returned.
      rewrite filter_all_length.
      * rewrite <- (inv_models _ _ _ _ _ _ Hinv). now rewrite length_map.
      * intros t Hin. apply list_elem_of_In, list_elem_of_lookup in Hin as [i Hi].
        rewrite (invariant_same_key models c0 c key i t Hinv Hkeys Hi).
        rewrite String.eqb_refl, andb_true_r.
        unfold finished in Hfin. rewrite Forall_forall in Hfin.
        assert (Hret : is_returned (at_pc t) = true)
          by (apply Hfin, list_elem_of_lookup; eauto).
        destruct (at_pc t) as [| | | | | | |[tok|err]] eqn:E; try discriminate Hret;
          [|reflexivity].
        pose proof (inv_returned_ok _ _ _ _ _ _ Hinv i t tok Hi E) as [x Hx].
        rewrite (invariant_same_key models c0 c key i t Hinv Hkeys Hi) in Hx. congruence.
Qed.

Lemma invariant_exactly_once (models : list string) (c0 : gmap string LocalTokenizer)
    (c : Config) (key : string) :
  invariant NewLocalTokenizer models c0 c ->
  models <> [] ->
  Forall (fun m => normalizeModelForTokenizer m = key) models ->
  c0 !! key = None ->
  finished c ->
  (forall n err, NewLocalTokenizer n key <> inr err) ->
  instances key c = 1%nat /\ is_Some (tokenizerCache (mem c) !! key).
Proof.
  intros Hinv Hne Hkeys Hc0 Hfin Hnew.
  destruct (invariant_finished models c0 c key Hinv Hkeys Hc0 Hfin)
    as [(Hone & tok & n & Hc & _) | (_ & Hnone & _)]; [split; eauto|].
  exfalso.
  (* the first caller has returned an error, which the constructor gave *)
  pose proof (inv_models _ _ _ _ _ _ Hinv) as Hmodels.
  destruct (threads c) as [|t ts] eqn:Hts; [now destruct models|].
  assert (Ht : threads c !! 0%nat = Some t) by now rewrite Hts.
  assert (Hret : is_returned (at_pc t) = true).
  { unfold finished in Hfin. rewrite Hts in Hfin. now inversion Hfin. }
  pose proof (invariant_same_key models c0 c key 0%nat t Hinv Hkeys Ht) as Hkey.
  destruct (at_pc t) as [| | | | | | |[tok|err]] eqn:E; try discriminate Hret.
  - pose proof (inv_returned_ok _ _ _ _ _ _ Hinv 0%nat t tok Ht E) as [x Hx].
    rewrite Hkey in Hx. congruence.
  - destruct (inv_returned_err _ _ _ _ _ _ Hinv 0%nat t err Ht E) as [n Hn].
    rewrite Hkey in Hn. exact (Hnew n err Hn).
Qed.

Lemma invariant_never_built (models : list string) (c0 : gmap string LocalTokenizer)
    (c : Config) (key : string) :
  invariant NewLocalTokenizer models c0 c ->
  Forall (fun m => normalizeModelForTokenizer m = key) models ->
  c0 !! key = None ->
  finished c ->
  (forall n tok, NewLocalTokenizer n key <> inl tok) ->
  instances key c = 0%nat /\ tokenizerCache (mem c) !! key = None /\
  failures key c = length models.
Proof.
  intros Hinv Hkeys Hc0 Hfin Hnew.
  destruct (invariant_finished models c0 c key Hinv Hkeys Hc0 Hfin)
    as [(_ & tok & n & _ & Hn) | H]; [|exact H].
  now destruct (Hnew n tok).
Qed.

Lemma thread_exec_sound (key : string) (p p' : pc LocalTokenizer error)
    (sh sh' : shared LocalTokenizer) :
  thread_exec NewLocalTokenizer key p sh = Some (p', sh') ->
  thread_step NewLocalTokenizer key (p, sh) (p', sh').
Proof.
  destruct p as [| |[tok|]| | | |tok|r]; simpl.
  - destruct (writer sh) eqn:Hw; [discriminate|]. intros [= <- <-].
    rewrite <- Hw. now constructor.
  - intros [= <- <-]. constructor.
  - intros [= <- <-]. constructor.
  - intros [= <- <-]. constructor.
  - destruct (writer sh) eqn:Hw; [discriminate|].
    destruct (Nat.eqb_spec (readers sh) 0) as [Hr|]; [|discriminate].
    intros [= <- <-]. now constructor.
  - destruct (tokenizerCache sh !! key) eqn:Hc; intros [= <- <-]; now constructor.
  - destruct (NewLocalTokenizer (calls sh) key) eqn:Hn; intros [= <- <-]; now constructor.
  - intros [= <- <-]. constructor.
  - discriminate.
Qed.

Lemma exec_sound (i : nat) (c c' : Config) :
  exec NewLocalTokenizer i c = Some c' -> step NewLocalTokenizer c c'.
Proof.
  unfold exec. destruct c as [ts sh]. simpl.
  destruct (ts !! i) as [t|] eqn:Hi; [|discriminate].
  destruct (thread_exec _ _ _ _) as [[p' sh']|] eqn:He; [|discriminate].
  intros [= <-]. econstructor; [eassumption|]. now apply thread_exec_sound.
Qed.

Lemma run_sound (schedule : list nat) (c c' : Config) :
  run NewLocalTokenizer schedule c = Some c' -> rtc (step NewLocalTokenizer) c c'.
Proof.
  revert c; induction schedule as [|i rest IH]; intros c; simpl.
  - intros [= <-]. constructor.
  - destruct (exec _ i c) as [c1|] eqn:He; [|discriminate].
    intros Hrun. eapply rtc_l; [eapply exec_sound; eassumption | now apply IH].
Qed.

(** A caller on its own goes through the steps to the result of the
    sequential [getOrCreateTokenizer], with the first call of the
    constructor as its constructor. *)
Lemma single_caller_run (m : string) (cache : gmap string LocalTokenizer) :
  exists schedule c',
    run NewLocalTokenizer schedule (initial error [m] cache) = Some c' /\
    threads c' =
      [{| model := m;
          at_pc := Returned
                     (fst (getOrCreateTokenizer LocalTokenizer error
                             (NewLocalTokenizer 0%nat) m cache)) |}] /\
    tokenizerCache (mem c') =
      snd (getOrCreateTokenizer LocalTokenizer error (NewLocalTokenizer 0%nat) m cache) /\
    readers (mem c') = 0%nat /\ writer (mem c') = false.
Proof.
  unfold getOrCreateTokenizer.
  destruct (cache !! normalizeModelForTokenizer m) as [tok|] eqn:Hc.
  - exists [0; 0; 0]%nat. eexists. split; [unfold initial, run, exec, baseModel; simpl; rewrite Hc; simpl; reflexivity|].
    repeat split; reflexivity.
  - destruct (NewLocalTokenizer 0%nat (normalizeModelForTokenizer m)) as [tok|err] eqn:Hn.
    + exists [0; 0; 0; 0; 0; 0; 0]%nat. eexists. split;
        [unfold initial, run, exec, baseModel; simpl; rewrite Hc; simpl;
         rewrite Hc; simpl; unfold calls; simpl; rewrite Hn; simpl; reflexivity|].
      repeat split; reflexivity.
    + exists [0; 0; 0; 0; 0; 0]%nat. eexists. split;
        [unfold initial, run, exec, baseModel; simpl; rewrite Hc; simpl;
         rewrite Hc; simpl; unfold calls; simpl; rewrite Hn; simpl; reflexivity|].
      repeat split; reflexivity.
Qed.

(** C10, as amended. The constructor is any sequence of calls, each of
    which may fail or hand back a new instance. In every state of every
    interleaving of [N] callers of [getOrCreateTokenizer]: at most one
    tokenizer instance has been constructed for each normalized key,
    none for a key that was in the cache to begin with; the entries of
    the cache stay, with their instance, in all that follows. A call of
    the constructor that fails puts nothing in the cache and its error
    is returned: the failed calls for a key are as many as the callers
    that have returned an error, each such error is one the constructor
    gave, and a key that has come into the cache has its one constructed
    instance there. When the callers all came for the same key, which
    was not in the cache, then once they have all returned either one
    instance has been constructed and is in the cache, or none has, the
    cache has no entry for the key, and every one of the [N] callers has
    called the constructor again and got an error; the first is the
    case when the constructor never fails for the key, the second when
    it always does. *)
Theorem tokenizer_constructed_once (models : list string)
    (c0 : gmap string LocalTokenizer) (c : Config) :
  reachable NewLocalTokenizer models c0 c ->
  (forall key, (instances key c <= 1)%nat) /\
  (forall key, is_Some (c0 !! key) -> instances key c = 0%nat) /\
  c0 ⊆ tokenizerCache (mem c) /\
  (forall c', rtc (step NewLocalTokenizer) c c' ->
              tokenizerCache (mem c) ⊆ tokenizerCache (mem c')) /\
  (forall key, failures key c = errors_returned key c) /\
  (forall i t err,
     threads c !! i = Some t -> at_pc t = Returned (inr err) ->
     exists n, NewLocalTokenizer n (baseModel t) = inr err) /\
  (forall key tok,
     c0 !! key = None -> tokenizerCache (mem c) !! key = Some tok ->
     instances key c = 1%nat /\ exists n, NewLocalTokenizer n key = inl tok) /\
  (forall key,
     models <> [] ->
     Forall (fun m => normalizeModelForTokenizer m = key) models ->
     c0 !! key = None ->
     finished c ->
     ((instances key c = 1%nat /\
       exists tok n, tokenizerCache (mem c) !! key = Some tok /\
                     NewLocalTokenizer n key = inl tok) \/
      (instances key c = 0%nat /\ tokenizerCache (mem c) !! key = None /\
       failures key c = length models)) /\
     ((forall n err, NewLocalTokenizer n key <> inr err) ->
      instances key c = 1%nat /\ is_Some (tokenizerCache (mem c) !! key)) /\
     ((forall n tok, NewLocalTokenizer n key <> inl tok) ->
      instances key c = 0%nat /\ tokenizerCache (mem c) !! key = None /\
      failures key c = length models)).
Proof.
  intros Hreach. pose proof (reachable_invariant models c0 c Hreach) as Hinv.
  split; [|split; [|split; [|split; [|split; [|split; [|split]]]]]].
  - intros key. eapply invariant_at_most_once; eassumption.
  - intros key. eapply invariant_cached_never_built; eassumption.
  - apply (inv_cache_grows _ _ _ _ _ _ Hinv).
  - intros c'. eapply run_cache_grows; eassumption.
  - apply (inv_failures _ _ _ _ _ _ Hinv).
  - apply (inv_returned_err _ _ _ _ _ _ Hinv).
  - intros key tok. eapply invariant_cached_built; eassumption.
  - intros key Hne Hkeys Hc0 Hfin. split; [|split].
    + eapply invariant_finished; eassumption.
    + eapply invariant_exactly_once; eassumption.
    + eapply invariant_never_built; eassumption.
Qed.
End AtMostOnce.

(** Two callers race for [gemini-2.0-flash], for which the constructor
    never fails: one instance is built. *)
Lemma tokenizer_constructed_once_witness :
  Concurrent.instances "gemini-2.0-flash" Scenarios.after_race = 1%nat /\
  is_Some (Concurrent.tokenizerCache (Concurrent.mem Scenarios.after_race)
             !! "gemini-2.0-flash").
Proof.
  assert (Hreach : Concurrent.reachable Scenarios.char_tokenizer_calls
                     Scenarios.two_callers ∅ Scenarios.after_race).
  { apply run_sound with (schedule := Scenarios.racing_schedule). vm_compute. reflexivity. }
  destruct (tokenizer_constructed_once unit string Scenarios.char_tokenizer_calls
              Scenarios.two_callers ∅ Scenarios.after_race Hreach)
    as (_ & _ & _ & _ & _ & _ & _ & Hend).
  destruct (Hend "gemini-2.0-flash") as (_ & Honce & _).
  - discriminate.
  - repeat constructor.
  - reflexivity.
  - repeat constructor.
  - apply Honce. intros n err. discriminate.
Defined.

(** C10, as stated, fails when the tokenizer cannot be built: each of
    two callers for [gemini-1.0-pro] calls the constructor, gets its
    error and returns it; no instance is constructed and nothing is put
    in the cache. *)
Lemma tokenizer_constructor_failure_builds_none :
  Concurrent.run Scenarios.char_tokenizer_calls Scenarios.failing_schedule
    (Concurrent.initial string Scenarios.failing_callers ∅)
    = Some Scenarios.after_failures /\
  Concurrent.instances "gemini-1.0-pro" Scenarios.after_failures = 0%nat /\
  Concurrent.failures "gemini-1.0-pro" Scenarios.after_failures = 2%nat /\
  Concurrent.tokenizerCache (Concurrent.mem Scenarios.after_failures)
    !! "gemini-1.0-pro" = None /\
  ~ (forall (LocalTokenizer error : Type)
            (NewLocalTokenizer : nat -> string -> LocalTokenizer + error)
            (models : list string) (c0 : gmap string LocalTokenizer)
            (c : Concurrent.config LocalTokenizer error) (key : string),
       Concurrent.reachable NewLocalTokenizer models c0 c ->
       models <> [] ->
       Forall (fun m => Tokenizer.normalizeModelForTokenizer m = key) models ->
       c0 !! key = None ->
       Concurrent.finished c ->
       Concurrent.instances key c = 1%nat /\
       is_Some (Concurrent.tokenizerCache (Concurrent.mem c) !! key)).
Proof.
  assert (Hrun : Concurrent.run Scenarios.char_tokenizer_calls Scenarios.failing_schedule
                   (Concurrent.initial string Scenarios.failing_callers ∅)
                 = Some Scenarios.after_failures)
    by (vm_compute; reflexivity).
  split; [exact Hrun|]. split; [reflexivity|]. split; [reflexivity|].
  split; [reflexivity|].
  intros H.
  destruct (H unit string Scenarios.char_tokenizer_calls Scenarios.failing_callers ∅
              Scenarios.after_failures "gemini-1.0-pro") as [Hone _].
  - eapply run_sound. exact Hrun.
  - discriminate.
  - repeat constructor.
  - reflexivity.
  - repeat constructor.
  - discriminate Hone.
Qed.

(** A constructor that fails for the first caller and not for the
    second: the first caller returns the error, the second calls the
    constructor again, and its instance, the only one, is cached. *)
Example constructor_fails_then_succeeds :
  Concurrent.run Examples.flaky_new Examples.flaky_schedule
    (Concurrent.initial string Scenarios.failing_callers ∅)
    = Some Examples.after_flaky /\
  Concurrent.instances "gemini-1.0-pro" Examples.after_flaky = 1%nat /\
  Concurrent.failures "gemini-1.0-pro" Examples.after_flaky = 1%nat /\
  Concurrent.errors_returned "gemini-1.0-pro" Examples.after_flaky = 1%nat.
Proof. repeat split; vm_compute; reflexivity. Qed.

(** ** More on the thinking-budget resolver *)

Section ResolverBounds.
Import Registry Util Scenarios Examples.

Lemma apply_min_max_upper (ts : ThinkingSupport) (budget : Z) :
  0 < TMax ts -> apply_min_max ts budget <= TMax ts.
Proof.
  intros H. unfold apply_min_max. cbv zeta.
  destruct ((budget <? Min ts) && (0 <? Min ts));
    match goal with
    | |- context [(TMax ts <? ?b)] =>
        destruct (Z.ltb_spec (TMax ts) b), (Z.ltb_spec 0 (TMax ts)); simpl; lia
    end.
Qed.

Lemma apply_min_max_lower (ts : ThinkingSupport) (budget : Z) :
  0 < Min ts -> TMax ts <= 0 \/ Min ts <= TMax ts ->
  Min ts <= apply_min_max ts budget.
Proof.
  intros H Hle. unfold apply_min_max. cbv zeta.
  destruct (Z.ltb_spec budget (Min ts)), (Z.ltb_spec 0 (Min ts)); simpl; try lia;
    match goal with
    | |- context [(TMax ts <? ?b)] =>
        destruct (Z.ltb_spec (TMax ts) b), (Z.ltb_spec 0 (TMax ts)); simpl; lia
    end.
Qed.

Lemma apply_min_max_idem (ts : ThinkingSupport) (budget : Z) :
  apply_min_max ts (apply_min_max ts budget) = apply_min_max ts budget.
Proof.
  rewrite !apply_min_max_clamp_spec. unfold clamp_spec.
  repeat case_decide; lia.
Qed.

Lemma apply_min_max_mono (ts : ThinkingSupport) (b1 b2 : Z) :
  b1 <= b2 -> apply_min_max ts b1 <= apply_min_max ts b2.
Proof.
  intros H. rewrite !apply_min_max_clamp_spec. unfold clamp_spec.
  repeat case_decide; lia.
Qed.

(** X1. Whatever the suffix level and the user budget, the budget
    resolved for a model with a thinking sub-record respects the bounds
    of that record: it is at most [Max] when [Max > 0], and at least
    [Min], with the flag set, when [Min > 0] and the bounds are
    consistent. *)
Theorem GetThinkingBudget_within_bounds
    (reg : ModelRegistry) (model : string) (info : ModelInfo)
    (ts : ThinkingSupport) (suffixLevel : ThinkingLevel) (userBudget : Z) :
  GetModelInfo reg model = Some info ->
  Thinking info = Some ts ->
  (0 < TMax ts ->
   fst (GetThinkingBudget reg model suffixLevel userBudget) <= TMax ts) /\
  (0 < Min ts -> TMax ts <= 0 \/ Min ts <= TMax ts ->
   Min ts <= fst (GetThinkingBudget reg model suffixLevel userBudget) /\
   snd (GetThinkingBudget reg model suffixLevel userBudget) = true).
Proof.
  intros Hinfo Hts. unfold GetThinkingBudget. rewrite Hinfo, Hts. cbv zeta. simpl.
  split.
  - apply apply_min_max_upper.
  - intros Hmin Hle.
    match goal with
    | |- Min ts <= apply_min_max ts ?b /\ _ =>
        pose proof (apply_min_max_lower ts b Hmin Hle) as Hlow
    end.
    split; [exact Hlow|]. apply Z.ltb_lt. lia.
Qed.

Lemma GetThinkingBudget_within_bounds_witness :
  fst (GetThinkingBudget sonnet_registry "claude-sonnet-thinking-high" "low" 7) <= 32768 /\
  1024 <= fst (GetThinkingBudget sonnet_registry "claude-sonnet-thinking-high" "low" 7).
Proof.
  destruct (GetThinkingBudget_within_bounds sonnet_registry
              "claude-sonnet-thinking-high" sonnet_info sonnet_thinking "low" 7
              eq_refl eq_refl) as [Hup Hlow].
  split.
  - apply Hup. reflexivity.
  - apply Hlow; [reflexivity | right; discriminate].
Defined.

(** X2. [GetThinkingBudget] sets its flag exactly when the registry has
    a thinking sub-record for the model and the resolved budget is
    positive; for any other model it returns [(0, false)]. *)
Theorem GetThinkingBudget_flag_iff
    (reg : ModelRegistry) (model : string) (suffixLevel : ThinkingLevel)
    (userBudget : Z) :
  (snd (GetThinkingBudget reg model suffixLevel userBudget) = true <->
   (exists info ts, GetModelInfo reg model = Some info /\ Thinking info = Some ts) /\
   0 < fst (GetThinkingBudget reg model suffixLevel userBudget)) /\
  ((forall info, GetModelInfo reg model = Some info -> Thinking info = None) ->
   GetThinkingBudget reg model suffixLevel userBudget = (0, false)).
Proof.
  unfold GetThinkingBudget.
  destruct (GetModelInfo reg model) as [info|] eqn:Hinfo.
  - destruct (Thinking info) as [ts|] eqn:Hts; cbv zeta; simpl.
    + split.
      * rewrite Z.ltb_lt. split; [intros H; split; [eauto | exact H] | tauto].
      * intros H. specialize (H info eq_refl). congruence.
    + split; [|reflexivity]. split; [discriminate|].
      intros [(info' & ts & [= <-] & Hts') _]. congruence.
  - simpl. split; [|reflexivity]. split; [discriminate|].
    intros [(info' & ts & Hnone & _) _]. discriminate.
Qed.

(** X3. A resolved budget is a fixed point of the resolver: handed back
    as the user budget it comes out unchanged, with the same flag,
    whatever suffix level goes with it. *)
Theorem GetThinkingBudget_fixed_point
    (reg : ModelRegistry) (model : string) (lvl lvl' : ThinkingLevel)
    (userBudget : Z) :
  0 < fst (GetThinkingBudget reg model lvl userBudget) ->
  GetThinkingBudget reg model lvl' (fst (GetThinkingBudget reg model lvl userBudget))
  = GetThinkingBudget reg model lvl userBudget.
Proof.
  unfold GetThinkingBudget.
  destruct (GetModelInfo reg model) as [info|]; [|simpl; lia].
  destruct (Thinking info) as [ts|]; [|simpl; lia].
  cbv zeta. simpl. intros Hpos.
  apply Z.ltb_lt in Hpos. rewrite Hpos.
  now rewrite apply_min_max_idem, Hpos.
Qed.

Lemma GetThinkingBudget_fixed_point_witness :
  GetThinkingBudget sonnet_registry "claude-sonnet-thinking-high" "low" 24576 = (24576, true).
Proof.
  exact (GetThinkingBudget_fixed_point sonnet_registry "claude-sonnet-thinking-high"
           "high" "low" 0 eq_refl).
Defined.

(** X4. The resolved budget grows with the user budget: of two positive
    user budgets the larger never resolves to the smaller budget. *)
Theorem GetThinkingBudget_monotone
    (reg : ModelRegistry) (model : string) (lvl1 lvl2 : ThinkingLevel)
    (budget1 budget2 : Z) :
  0 < budget1 -> budget1 <= budget2 ->
  fst (GetThinkingBudget reg model lvl1 budget1)
  <= fst (GetThinkingBudget reg model lvl2 budget2).
Proof.
  intros Hpos Hle. unfold GetThinkingBudget.
  destruct (GetModelInfo reg model) as [info|]; [|simpl; lia].
  destruct (Thinking info) as [ts|]; [|simpl; lia].
  cbv zeta. simpl.
  destruct (Z.ltb_spec 0 budget1); [|lia].
  destruct (Z.ltb_spec 0 budget2); [|lia].
  now apply apply_min_max_mono.
Qed.

Lemma GetThinkingBudget_monotone_witness :
  fst (GetThinkingBudget sonnet_registry "claude-sonnet-thinking-high" "low" 500)
  <= fst (GetThinkingBudget sonnet_registry "claude-sonnet-thinking-high" "max" 50000).
Proof.
  apply GetThinkingBudget_monotone; [reflexivity | discriminate].
Defined.

(** X5. For a model whose registry table is all zero the fallback table
    decides, and with no user budget the four levels resolve in order:
    low is at most medium, medium at most high, high at most max. *)
Theorem GetThinkingBudget_fallback_levels_ordered
    (reg : ModelRegistry) (model : string) (info : ModelInfo)
    (ts : ThinkingSupport) (userBudget : Z) :
  GetModelInfo reg model = Some info ->
  Thinking info = Some ts ->
  ThinkingBudgets_is_zero (Budgets ts) = true ->
  userBudget <= 0 ->
  let budget lvl := fst (GetThinkingBudget reg model lvl userBudget) in
  budget "low" = apply_min_max ts 1024 /\
  budget "medium" = apply_min_max ts 8192 /\
  budget "high" = apply_min_max ts 24576 /\
  budget "max" = apply_min_max ts 32768 /\
  budget "low" <= budget "medium" <= budget "high" /\
  budget "high" <= budget "max".
Proof.
  intros Hinfo Hts Hzero Hub budget. subst budget. cbv beta.
  unfold GetThinkingBudget. rewrite Hinfo, Hts. cbv zeta.
  destruct (Z.ltb_spec 0 userBudget); [lia|].
  unfold effective_budgets. rewrite Hzero. simpl.
  repeat split; try reflexivity; apply apply_min_max_mono; vm_compute; discriminate.
Qed.

Lemma GetThinkingBudget_fallback_levels_ordered_witness :
  fst (GetThinkingBudget plain_registry "claude-opus-thinking" "low" 0) = 2048 /\
  fst (GetThinkingBudget plain_registry "claude-opus-thinking" "max" 0) = 16384.
Proof.
  destruct (GetThinkingBudget_fallback_levels_ordered plain_registry
              "claude-opus-thinking" plain_info plain_thinking 0
              eq_refl eq_refl eq_refl ltac:(lia))
    as (Hlow & _ & _ & Hmax & _).
  split; [rewrite Hlow | rewrite Hmax]; reflexivity.
Defined.
End ResolverBounds.

Section AutoApply.
Import Registry Util Scenarios Examples.

(** X6. What is applied automatically comes from the registry. For a
    model with a name and a thinking sub-record, [GetModelThinkingMin]
    is the [Min] of that sub-record; the default budget and the budget
    applied automatically are that [Min] when it is positive and 1024
    when it is not, with thoughts included. For any other model (no
    name, no record, or a record without thinking) the minimum is 0,
    the default budget 1024, and nothing is applied. So the default
    budget is always positive, and a model supports thinking exactly
    when it has a name and such a sub-record. *)
Theorem GetAutoAppliedThinkingConfig_positive (reg : ModelRegistry) (model : string) :
  0 < GetDefaultThinkingBudget reg model /\
  (ModelSupportsThinking reg model = true <->
   model <> "" /\
   exists info ts, GetModelInfo reg model = Some info /\ Thinking info = Some ts) /\
  (forall info ts,
     model <> "" -> GetModelInfo reg model = Some info -> Thinking info = Some ts ->
     GetModelThinkingMin reg model = Min ts /\
     (0 < Min ts ->
      GetDefaultThinkingBudget reg model = Min ts /\
      GetAutoAppliedThinkingConfig reg model = (Min ts, true, true)) /\
     (Min ts <= 0 ->
      GetDefaultThinkingBudget reg model = 1024 /\
      GetAutoAppliedThinkingConfig reg model = (1024, true, true))) /\
  (ModelSupportsThinking reg model = false ->
   GetModelThinkingMin reg model = 0 /\
   GetDefaultThinkingBudget reg model = 1024 /\
   GetAutoAppliedThinkingConfig reg model = (0, false, false)).
Proof.
  split; [|split; [|split]].
  - unfold GetDefaultThinkingBudget. cbv zeta.
    destruct (Z.ltb_spec 0 (GetModelThinkingMin reg model)); [assumption | reflexivity].
  - unfold ModelSupportsThinking.
    destruct (String.eqb_spec model "") as [->|Hne].
    + split; [discriminate | intros [H _]; now destruct H].
    + destruct (GetModelInfo reg model) as [info|].
      * destruct (Thinking info) as [ts|] eqn:Hts.
        -- split; [eauto | reflexivity].
        -- split; [discriminate|]. intros [_ (info' & ts & [= <-] & H)]. congruence.
      * split; [discriminate|]. intros [_ (info' & ts & H & _)]. discriminate.
  - intros info ts Hne Hinfo Hts. apply String.eqb_neq in Hne.
    unfold GetAutoAppliedThinkingConfig, ModelSupportsThinking, GetDefaultThinkingBudget,
      GetModelThinkingMin.
    rewrite Hne, Hinfo, Hts. cbv zeta.
    split; [reflexivity|]. split; intros Hmin.
    + destruct (Z.ltb_spec 0 (Min ts)); [now split | lia].
    + destruct (Z.ltb_spec 0 (Min ts)); [lia | now split].
  - unfold GetAutoAppliedThinkingConfig, ModelSupportsThinking, GetDefaultThinkingBudget,
      GetModelThinkingMin.
    destruct (String.eqb model ""); [now intros _|].
    destruct (GetModelInfo reg model) as [info|]; [|now intros _].
    destruct (Thinking info) as [ts|]; [discriminate | now intros _].
Qed.

(** X7. With nothing asked for (no user budget, no suffix level) and no
    default level in the registry, the resolver gives a model with a
    positive [Min] and consistent bounds the very budget that is applied
    automatically. *)
Theorem GetThinkingBudget_agrees_with_default
    (reg : ModelRegistry) (model : string) (info : ModelInfo) (ts : ThinkingSupport) :
  model <> "" ->
  GetModelInfo reg model = Some info ->
  Thinking info = Some ts ->
  DefaultLevel ts = "" ->
  0 < Min ts ->
  TMax ts <= 0 \/ Min ts <= TMax ts ->
  GetThinkingBudget reg model "" 0 = (GetDefaultThinkingBudget reg model, true) /\
  GetAutoAppliedThinkingConfig reg model = (Min ts, true, true).
Proof.
  intros Hne Hinfo Hts Hlvl Hmin Hle.
  apply String.eqb_neq in Hne.
  unfold GetAutoAppliedThinkingConfig, ModelSupportsThinking, GetDefaultThinkingBudget,
    GetModelThinkingMin, GetThinkingBudget.
  rewrite Hne, Hinfo, Hts, Hlvl. cbv zeta. simpl.
  destruct (Z.ltb_spec 0 (Min ts)); [|lia].
  assert (Hclamp : apply_min_max ts (Min ts) = Min ts).
  { rewrite apply_min_max_clamp_spec. unfold clamp_spec. repeat case_decide; lia. }
  rewrite Hclamp. split; [|reflexivity].
  f_equal. apply Z.ltb_lt. assumption.
Qed.

Lemma GetThinkingBudget_agrees_with_default_witness :
  GetThinkingBudget plain_registry "claude-opus-thinking" "" 0 = (2048, true).
Proof.
  assert (Hne : "claude-opus-thinking" <> "") by discriminate.
  assert (Hmin : 0 < Min plain_thinking) by reflexivity.
  assert (Hle : TMax plain_thinking <= 0 \/ Min plain_thinking <= TMax plain_thinking)
    by (right; discriminate).
  destruct (GetThinkingBudget_agrees_with_default plain_registry
              "claude-opus-thinking" plain_info plain_thinking
              Hne eq_refl eq_refl eq_refl Hmin Hle) as [H _].
  rewrite H. reflexivity.
Defined.
End AutoApply.

(** ** More on the suffix parser *)

Section SuffixParserMore.
Import Util.

(** X8. The parser takes a name for a thinking name exactly when the
    name ends, byte for byte, in [-thinking] or in [-thinking-] followed
    by one of the four levels; every other name comes back with the level
    unset and the flag off. *)
Theorem ParseThinkingSuffix_flag_iff (modelName : string) :
  (snd (ParseThinkingSuffix modelName) = true <->
   exists base suffix,
     In suffix ["-thinking-max"; "-thinking-high"; "-thinking-medium";
                "-thinking-low"; "-thinking"] /\
     modelName = (base ++ suffix)%string) /\
  (snd (ParseThinkingSuffix modelName) = false ->
   ParseThinkingSuffix modelName = ("", false)).
Proof.
  split; [split|].
  - intros H. destruct (ParseThinkingSuffix modelName) as [lvl flag] eqn:E.
    simpl in H. subst flag. now apply ParseThinkingSuffix_true_inv in E.
  - intros (base & suffix & Hin & ->). unfold ParseThinkingSuffix. simpl in Hin.
    destruct Hin as [<-|[<-|[<-|[<-|[<-|[]]]]]].
    + now rewrite HasSuffix_app.
    + repeat other_suffix. now rewrite HasSuffix_app.
    + repeat other_suffix. now rewrite HasSuffix_app.
    + repeat other_suffix. now rewrite HasSuffix_app.
    + repeat other_suffix. now rewrite HasSuffix_app.
  - unfold ParseThinkingSuffix.
    repeat match goal with
           | |- context [Strings.HasSuffix modelName ?s] =>
               destruct (Strings.HasSuffix modelName s); [discriminate|]
           end.
    reflexivity.
Qed.
End SuffixParserMore.

(** ** More on the Claude request translator *)

Section TranslatorMore.
Import Registry Json Providers Scenarios Examples.

Lemma find_member_skip (rest : json -> Result) (key : string)
    (ms ms' : list (string * json)) :
  has_member key ms = false ->
  find_member rest key (ms ++ ms') = find_member rest key ms'.
Proof.
  induction ms as [|[k v] ms IH]; simpl; [reflexivity|].
  destruct (String.eqb k key); simpl; [discriminate | exact IH].
Qed.

Lemma not_exists_has_member (key : string) (ms : list (string * json)) :
  Result_Exists (Get_path [key] (JObj ms)) = false -> has_member key ms = false.
Proof.
  intros H. destruct (has_member key ms) eqn:E; [|reflexivity].
  apply has_member_find in E.
  change (Result_Exists (find_member (Get_path []) key ms) = false) in H. congruence.
Qed.

Lemma update_first_skip (f : json -> option json) (key : string)
    (ms ms' : list (string * json)) :
  has_member key ms = false ->
  update_first f key (ms ++ ms') =
    match update_first f key ms' with
    | Some r => Some (ms ++ r)%list
    | None => None
    end.
Proof.
  induction ms as [|[k v] ms IH]; simpl.
  - intros _. now destruct (update_first f key ms').
  - destruct (String.eqb k key); simpl; [discriminate|].
    intros H. rewrite (IH H). now destruct (update_first f key ms').
Qed.

(** A successful write leaves the paths through members of another
    name as they were. *)
Lemma Set_path_other (key key' : string) (rest rest' : list string) (v j j' : json) :
  key <> key' ->
  Set_path (key' :: rest') v j = Some j' ->
  Get_path (key :: rest) j' = Get_path (key :: rest) j.
Proof.
  intros Hne. simpl.
  destruct j as [| | | | | |ms]; try discriminate;
    try (intros [= <-]; simpl;
         destruct (String.eqb_spec key' key); [congruence | reflexivity]).
  destruct (has_member key' ms).
  - destruct rest' as [|k r].
    + destruct (update_first _ key' ms) as [ms'|] eqn:Hu; [|discriminate].
      intros [= <-]. eapply find_member_update_other; eassumption.
    + destruct (update_first _ key' ms) as [ms'|] eqn:Hu; [|discriminate].
      intros [= <-]. eapply find_member_update_other; eassumption.
  - intros [= <-]. now apply find_member_app_other.
Qed.

Lemma SetBytes_other (body : json) (path : string) (v : json)
    (key key' : string) (rest rest' : list string) :
  split_path path = key' :: rest' ->
  key <> key' ->
  Get_path (key :: rest) (SetBytes body path v) = Get_path (key :: rest) body.
Proof.
  intros Hpath Hne. destruct (SetBytes_cases body path v) as [->|Hset]; [reflexivity|].
  rewrite Hpath in Hset. eapply Set_path_other; eassumption.
Qed.

(** What [ApplyToClaude] makes of an object body without [thinking]. *)
Lemma ApplyToClaude_object (cfg : ThinkingConfig) (ms : list (string * json)) :
  Enabled cfg = true ->
  Result_Exists (Get (JObj ms) "thinking") = false ->
  ApplyToClaude (Some cfg) (JObj ms)
  = JObj (ms ++ [("thinking",
                  JObj [("type", JStr "enabled");
                        ("budget_tokens", JNum (BudgetTokens cfg))])]).
Proof.
  intros Hen Hex.
  assert (Hm : has_member "thinking" ms = false) by now apply not_exists_has_member.
  unfold ApplyToClaude. rewrite Hen, Hex. simpl.
  unfold SetBytes.
  change (split_path "thinking.type") with ["thinking"; "type"].
  change (split_path "thinking.budget_tokens") with ["thinking"; "budget_tokens"].
  simpl. rewrite Hm. simpl.
  rewrite has_member_app, Hm. simpl.
  rewrite update_first_skip by assumption. simpl. reflexivity.
Qed.

Lemma Get_appended_thinking (ms : list (string * json)) (fields : list (string * json))
    (field : string) :
  Result_Exists (Get (JObj ms) "thinking") = false ->
  Get_path ["thinking"; field] (JObj (ms ++ [("thinking", JObj fields)]))
  = find_member (Get_path []) field fields.
Proof.
  intros Hex. simpl. rewrite find_member_skip by now apply not_exists_has_member.
  simpl. now destruct (find_member _ field fields).
Qed.

(** X9. On an object body without a [thinking] member an enabled
    configuration appends the member
    [thinking = {type: enabled, budget_tokens: B}] after the members of
    the body, and both fields read back; a body that is an array is left
    as it is. *)
Theorem ApplyToClaude_writes (cfg : ThinkingConfig) (ms : list (string * json)) :
  Enabled cfg = true ->
  Result_Exists (Get (JObj ms) "thinking") = false ->
  let out := ApplyToClaude (Some cfg) (JObj ms) in
  out = JObj (ms ++ [("thinking",
                      JObj [("type", JStr "enabled");
                            ("budget_tokens", JNum (BudgetTokens cfg))])]) /\
  Get out "thinking.type" = Some (JStr "enabled") /\
  Get out "thinking.budget_tokens" = Some (JNum (BudgetTokens cfg)) /\
  forall items, ApplyToClaude (Some cfg) (JArr items) = JArr items.
Proof.
  intros Hen Hex out. subst out. rewrite (ApplyToClaude_object cfg ms Hen Hex).
  split; [reflexivity|]. split; [|split].
  - change (Get ?j "thinking.type") with (Get_path ["thinking"; "type"] j).
    now rewrite Get_appended_thinking.
  - change (Get ?j "thinking.budget_tokens")
      with (Get_path ["thinking"; "budget_tokens"] j).
    now rewrite Get_appended_thinking.
  - intros items. unfold ApplyToClaude. rewrite Hen. reflexivity.
Qed.

Lemma ApplyToClaude_writes_witness :
  ApplyToClaude (Some {| Enabled := true; BudgetTokens := 24576 |}) body_plain
  = JObj [("model", JStr "claude-sonnet-thinking-high"); ("max_tokens", JNum 1000);
          ("thinking", JObj [("type", JStr "enabled"); ("budget_tokens", JNum 24576)])].
Proof.
  exact (proj1 (ApplyToClaude_writes {| Enabled := true; BudgetTokens := 24576 |}
                  [("model", JStr "claude-sonnet-thinking-high"); ("max_tokens", JNum 1000)]
                  eq_refl eq_refl)).
Defined.

Lemma ApplyToClaude_other_paths (t : option ThinkingConfig) (body : json)
    (key : string) (rest : list string) :
  key <> "thinking" ->
  Get_path (key :: rest) (ApplyToClaude t body) = Get_path (key :: rest) body.
Proof.
  intros Hne. unfold ApplyToClaude.
  destruct t as [cfg|]; [|reflexivity].
  destruct (negb (Enabled cfg)); [reflexivity|].
  destruct (Result_Exists (Get body "thinking")); [reflexivity|].
  rewrite (SetBytes_other _ "thinking.budget_tokens" _ key "thinking" rest ["budget_tokens"])
    by (reflexivity || assumption).
  now rewrite (SetBytes_other _ "thinking.type" _ key "thinking" rest ["type"])
    by (reflexivity || assumption).
Qed.

(** X10. [ApplyToClaude] touches nothing but [thinking]: whatever the
    configuration and the body, every lookup by member names that
    starts with a name other than [thinking] reads after it what it
    read before, and a body that has a [thinking] member already,
    whatever its value, comes back as it is. *)
Theorem ApplyToClaude_frame (t : option ThinkingConfig) (body : json)
    (key : string) (rest : list string) :
  key <> "thinking" ->
  Get_path (key :: rest) (ApplyToClaude t body) = Get_path (key :: rest) body /\
  (Result_Exists (Get body "thinking") = true -> ApplyToClaude t body = body).
Proof.
  intros Hne. split; [now apply ApplyToClaude_other_paths | apply ApplyToClaude_fixed].
Qed.

Lemma ApplyToClaude_frame_witness :
  Get_path ["max_tokens"]
    (ApplyToClaude (Some {| Enabled := true; BudgetTokens := 24576 |}) body_plain)
  = Some (JNum 1000).
Proof.
  destruct (ApplyToClaude_frame (Some {| Enabled := true; BudgetTokens := 24576 |})
              body_plain "max_tokens" []) as [H _]; [discriminate|].
  rewrite H. reflexivity.
Defined.

Lemma EnsureClaudeMaxTokens_other_paths (raw : json -> string) (reg : ModelRegistry)
    (modelName : string) (body : json) (key : string) (rest : list string) :
  key <> "max_tokens" ->
  Get_path (key :: rest) (EnsureClaudeMaxTokens raw reg modelName body)
  = Get_path (key :: rest) body.
Proof.
  intros Hne. unfold EnsureClaudeMaxTokens. cbv zeta.
  destruct (negb _); [reflexivity|].
  destruct (_ <=? 0); [reflexivity|].
  destruct (_ <? _); [|reflexivity].
  now apply (SetBytes_other _ "max_tokens" _ key "max_tokens" rest []).
Qed.

(** X11. [EnsureClaudeMaxTokens] touches nothing but [max_tokens]:
    whatever the model and the body, every lookup by member names that
    starts with a name other than [max_tokens] reads after it what it
    read before, and in particular the thinking configuration stays as
    it was. *)
Theorem EnsureClaudeMaxTokens_frame (raw : json -> string) (reg : ModelRegistry)
    (modelName : string) (body : json) (key : string) (rest : list string) :
  key <> "max_tokens" ->
  Get_path (key :: rest) (EnsureClaudeMaxTokens raw reg modelName body)
  = Get_path (key :: rest) body /\
  Get (EnsureClaudeMaxTokens raw reg modelName body) "thinking.type"
  = Get body "thinking.type" /\
  Get (EnsureClaudeMaxTokens raw reg modelName body) "thinking.budget_tokens"
  = Get body "thinking.budget_tokens".
Proof.
  intros Hne. split; [now apply EnsureClaudeMaxTokens_other_paths|].
  split.
  - apply (EnsureClaudeMaxTokens_other_paths raw reg modelName body "thinking" ["type"]).
    discriminate.
  - apply (EnsureClaudeMaxTokens_other_paths raw reg modelName body "thinking"
             ["budget_tokens"]).
    discriminate.
Qed.

Lemma EnsureClaudeMaxTokens_frame_witness :
  Get_path ["thinking"; "budget_tokens"]
    (EnsureClaudeMaxTokens no_raw empty_registry "claude-sonnet" body_s4)
  = Some (JNum 20000).
Proof.
  destruct (EnsureClaudeMaxTokens_frame no_raw empty_registry "claude-sonnet" body_s4
              "thinking" ["budget_tokens"]) as [H _]; [discriminate|].
  rewrite H. reflexivity.
Defined.

(** X12. [EnsureClaudeMaxTokens] never lowers [max_tokens]: for every
    model and every body the value read after it is at least the value
    read before. *)
Theorem EnsureClaudeMaxTokens_never_lowers (raw : json -> string)
    (reg : ModelRegistry) (modelName : string) (body : json) :
  Result_Int (Get body "max_tokens")
  <= Result_Int (Get (EnsureClaudeMaxTokens raw reg modelName body) "max_tokens").
Proof.
  destruct (String.eqb_spec (Result_String raw (Get body "thinking.type")) "enabled")
    as [Hty|Hty].
  - destruct (Z.ltb_spec 0 (Result_Int (Get body "thinking.budget_tokens"))) as [Hb|Hb].
    + rewrite (EnsureClaudeMaxTokens_max raw reg modelName body Hty Hb). lia.
    + unfold EnsureClaudeMaxTokens. rewrite Hty. simpl.
      destruct (Z.leb_spec (Result_Int (Get body "thinking.budget_tokens")) 0); [lia | lia].
  - unfold EnsureClaudeMaxTokens. apply String.eqb_neq in Hty. rewrite Hty. simpl. lia.
Qed.

Lemma ParseClaudeThinkingFromModel_inv (reg : ModelRegistry) (modelName : string)
    (cfg : ThinkingConfig) :
  ParseClaudeThinkingFromModel reg modelName = Some cfg ->
  Enabled cfg = true /\ 0 < BudgetTokens cfg /\
  exists info, GetModelInfo reg modelName = Some info.
Proof.
  unfold ParseClaudeThinkingFromModel.
  destruct (Util.ParseThinkingSuffix modelName) as [lvl flag].
  destruct flag; simpl; [|discriminate].
  destruct (Util.GetThinkingBudget reg modelName lvl 0) as [budget f] eqn:Hb.
  destruct (Z.leb_spec budget 0); [discriminate|].
  intros [= <-]. simpl. split; [reflexivity|]. split; [assumption|].
  unfold Util.GetThinkingBudget in Hb.
  destruct (GetModelInfo reg modelName) as [info|]; [eauto|].
  injection Hb as <- _. lia.
Qed.

(** X13. The two steps of the Claude translator compose: when the model
    name resolves to a thinking configuration with budget [B], applying
    it to an object body without [thinking] and then ensuring
    [max_tokens] gives a body with thinking enabled, budget [B], and a
    [max_tokens] that is at least the model's positive
    [max_completion_tokens] (one that fits an [int64]), or at least
    [B + 4000] when the registry gives none, and never below what the
    body asked for. *)
Theorem Claude_thinking_pipeline (raw : json -> string) (reg : ModelRegistry)
    (modelName : string) (cfg : ThinkingConfig) (ms : list (string * json)) :
  ParseClaudeThinkingFromModel reg modelName = Some cfg ->
  Result_Exists (Get (JObj ms) "thinking") = false ->
  BudgetTokens cfg + 4000 < 2 ^ 63 ->
  let out := EnsureClaudeMaxTokens raw reg modelName
               (ApplyToClaude (Some cfg) (JObj ms)) in
  Get out "thinking.type" = Some (JStr "enabled") /\
  Get out "thinking.budget_tokens" = Some (JNum (BudgetTokens cfg)) /\
  Result_Int (Get (JObj ms) "max_tokens") <= Result_Int (Get out "max_tokens") /\
  exists info,
    GetModelInfo reg modelName = Some info /\
    (MaxCompletionTokens info <= 0 ->
     BudgetTokens cfg + 4000 <= Result_Int (Get out "max_tokens")) /\
    (0 < MaxCompletionTokens info < 2 ^ 63 ->
     MaxCompletionTokens info <= Result_Int (Get out "max_tokens")).
Proof.
  intros Hcfg Hex Hrange out.
  destruct (ParseClaudeThinkingFromModel_inv reg modelName cfg Hcfg)
    as (Hen & Hpos & info & Hinfo).
  pose proof (ApplyToClaude_object cfg ms Hen Hex) as Hbody.
  set (body := ApplyToClaude (Some cfg) (JObj ms)) in *.
  assert (Hty : Get body "thinking.type" = Some (JStr "enabled")).
  { rewrite Hbody. change (Get ?j "thinking.type") with (Get_path ["thinking"; "type"] j).
    now rewrite Get_appended_thinking. }
  assert (Hbt : Get body "thinking.budget_tokens" = Some (JNum (BudgetTokens cfg))).
  { rewrite Hbody.
    change (Get ?j "thinking.budget_tokens")
      with (Get_path ["thinking"; "budget_tokens"] j).
    now rewrite Get_appended_thinking. }
  assert (Hold : Get body "max_tokens" = Get (JObj ms) "max_tokens").
  { subst body. apply (ApplyToClaude_other_paths (Some cfg) (JObj ms) "max_tokens" []).
    discriminate. }
  assert (Hint : Result_Int (Get body "thinking.budget_tokens") = BudgetTokens cfg).
  { rewrite Hbt. simpl. apply wrap64_small. lia. }
  assert (Hmax := EnsureClaudeMaxTokens_max raw reg modelName body).
  rewrite Hty, Hint, Hinfo, Hold in Hmax. specialize (Hmax eq_refl Hpos).
  cbv zeta in Hmax. fold out in Hmax.
  split.
  { subst out. rewrite <- Hty.
    apply (EnsureClaudeMaxTokens_other_paths raw reg modelName body "thinking" ["type"]).
    discriminate. }
  split.
  { subst out. rewrite <- Hbt.
    apply (EnsureClaudeMaxTokens_other_paths raw reg modelName body "thinking"
             ["budget_tokens"]).
    discriminate. }
  split; [lia|].
  exists info. split; [exact Hinfo|]. split.
  - intros Hmc. destruct (Z.ltb_spec 0 (MaxCompletionTokens info)); [lia|].
    unfold fallbackBuffer in Hmax. rewrite wrap64_small in Hmax by lia. lia.
  - intros Hmc. destruct (Z.ltb_spec 0 (MaxCompletionTokens info)); [|lia].
    rewrite wrap64_small in Hmax by lia. lia.
Qed.

Lemma Claude_thinking_pipeline_witness :
  Result_Int
    (Get (EnsureClaudeMaxTokens no_raw sonnet_registry "claude-sonnet-thinking-high"
            (ApplyToClaude (Some {| Enabled := true; BudgetTokens := 24576 |}) body_plain))
         "max_tokens")
  >= 28576.
Proof.
  destruct (Claude_thinking_pipeline no_raw sonnet_registry "claude-sonnet-thinking-high"
              {| Enabled := true; BudgetTokens := 24576 |}
              [("model", JStr "claude-sonnet-thinking-high"); ("max_tokens", JNum 1000)]
              eq_refl eq_refl eq_refl)
    as (_ & _ & _ & info & Hinfo & Hunknown & _).
  injection Hinfo as <-.
  apply Z.le_ge. apply Hunknown. discriminate.
Defined.
End TranslatorMore.

(** ** The unified request *)

Section UnifiedRequest.
Import Registry Json Scenarios Examples IR.

Context {Payload : Type}.

(** X14. [ApplyThinkingToIR] is idempotent: applied to its own result,
    for the same model and registry, it changes nothing more. *)
Theorem ApplyThinkingToIR_idempotent (reg : ModelRegistry) (model : string)
    (req : UnifiedChatRequest Payload) :
  ApplyThinkingToIR reg model (ApplyThinkingToIR reg model req)
  = ApplyThinkingToIR reg model req.
Proof.
  assert (H : ApplyThinkingToIR reg model req = req \/
              exists b, Thinking (ApplyThinkingToIR reg model req)
                        = Some {| IncludeThoughts := true; ThinkingBudget := b |}).
  { unfold ApplyThinkingToIR.
    destruct (match Thinking req with Some th => IncludeThoughts th | None => false end);
      [now left|].
    destruct (Providers.ParseClaudeThinkingFromModel reg model); [|now left].
    right. eexists. reflexivity. }
  destruct H as [H | [b Hb]]; [now rewrite !H|].
  unfold ApplyThinkingToIR at 1. now rewrite Hb.
Qed.

(** X15. When the request does not already include thoughts and the
    model name resolves to a thinking configuration with budget [B],
    [ApplyThinkingToIR] sets [Thinking] to include thoughts with the
    budget [B] read as an [int32] (so [B] itself below [2^31]), leaves
    the other fields alone, and leaves [MaxTokens] set, not below its
    old value, not below the model's positive [MaxCompletionTokens], and
    not below [B + 4000] when the registry gives no positive limit. *)
Theorem ApplyThinkingToIR_applied (reg : ModelRegistry) (model : string)
    (req : UnifiedChatRequest Payload) (cfg : Providers.ThinkingConfig) :
  Providers.ParseClaudeThinkingFromModel reg model = Some cfg ->
  (forall th, Thinking req = Some th -> IncludeThoughts th = false) ->
  let out := ApplyThinkingToIR reg model req in
  Thinking out
  = Some {| IncludeThoughts := true;
            ThinkingBudget := Some (wrap32 (Providers.BudgetTokens cfg)) |} /\
  (Providers.BudgetTokens cfg < 2 ^ 31 ->
   wrap32 (Providers.BudgetTokens cfg) = Providers.BudgetTokens cfg) /\
  Other out = Other req /\
  exists (mt : Z) (info : ModelInfo),
    MaxTokens out = Some mt /\
    GetModelInfo reg model = Some info /\
    (forall old, MaxTokens req = Some old -> old <= mt) /\
    (0 < MaxCompletionTokens info -> MaxCompletionTokens info <= mt) /\
    (MaxCompletionTokens info <= 0 -> Providers.BudgetTokens cfg + 4000 < 2 ^ 63 ->
     Providers.BudgetTokens cfg + 4000 <= mt).
Proof.
  intros Hcfg Huser out.
  destruct (ParseClaudeThinkingFromModel_inv reg model cfg Hcfg)
    as (_ & Hpos & info & Hinfo).
  assert (Hflag : match Thinking req with
                  | Some th => IncludeThoughts th
                  | None => false
                  end = false).
  { destruct (Thinking req) as [th|]; [now apply Huser | reflexivity]. }
  subst out. unfold ApplyThinkingToIR. rewrite Hflag, Hcfg, Hinfo. cbn [Thinking Other MaxTokens].
  split; [reflexivity|]. split.
  { intros Hsmall. unfold wrap32. rewrite Z.mod_small by lia. lia. }
  split; [reflexivity|].
  set (required := if 0 <? MaxCompletionTokens info then MaxCompletionTokens info
                   else wrap64 (Providers.BudgetTokens cfg + 4000)).
  assert (Hreq1 : 0 < MaxCompletionTokens info -> required = MaxCompletionTokens info).
  { intros H. subst required. now destruct (Z.ltb_spec 0 (MaxCompletionTokens info)); [|lia]. }
  assert (Hreq2 : MaxCompletionTokens info <= 0 ->
                  Providers.BudgetTokens cfg + 4000 < 2 ^ 63 ->
                  required = Providers.BudgetTokens cfg + 4000).
  { intros H Hr. subst required.
    destruct (Z.ltb_spec 0 (MaxCompletionTokens info)); [lia|].
    apply wrap64_small. lia. }
  destruct (MaxTokens req) as [old|].
  - destruct (Z.ltb_spec old required).
    + exists required, info. repeat split; try reflexivity.
      * intros ? [= <-]. lia.
      * intros H'. rewrite Hreq1 by assumption. lia.
      * intros H1 H2. rewrite Hreq2 by assumption. lia.
    + exists old, info. repeat split; try reflexivity.
      * intros ? [= <-]. lia.
      * intros H'. rewrite <- Hreq1 by assumption. lia.
      * intros H1 H2. rewrite <- Hreq2 by assumption. lia.
  - exists required, info. repeat split; try reflexivity.
    + intros ? [=].
    + intros H'. rewrite Hreq1 by assumption. lia.
    + intros H1 H2. rewrite Hreq2 by assumption. lia.
Qed.

(** X16. [ApplyThinkingToIR] hands the request back as it got it when
    the request already includes thoughts, when the model name has no
    thinking suffix, or when the registry has no record for the model
    name. *)
Theorem ApplyThinkingToIR_leaves_alone (reg : ModelRegistry) (model : string)
    (req : UnifiedChatRequest Payload) :
  (exists th, Thinking req = Some th /\ IncludeThoughts th = true) \/
  snd (Util.ParseThinkingSuffix model) = false \/
  GetModelInfo reg model = None ->
  ApplyThinkingToIR reg model req = req.
Proof.
  intros H. unfold ApplyThinkingToIR.
  destruct (match Thinking req with Some th => IncludeThoughts th | None => false end)
    eqn:Huser; [reflexivity|].
  destruct (Providers.ParseClaudeThinkingFromModel reg model) as [cfg|] eqn:Hcfg;
    [|reflexivity].
  exfalso. destruct H as [(th & Hth & Hinc) | [Hsuffix | Hnone]].
  - rewrite Hth, Hinc in Huser. discriminate.
  - unfold Providers.ParseClaudeThinkingFromModel in Hcfg.
    destruct (Util.ParseThinkingSuffix model) as [lvl flag]. simpl in Hsuffix.
    subst flag. discriminate.
  - destruct (ParseClaudeThinkingFromModel_inv reg model cfg Hcfg) as (_ & _ & info & Hinfo).
    congruence.
Qed.

End UnifiedRequest.

Lemma ApplyThinkingToIR_applied_witness :
  IR.Thinking
    (IR.ApplyThinkingToIR Scenarios.sonnet_registry "claude-sonnet-thinking-high"
       Examples.request_s1)
  = Some {| IR.IncludeThoughts := true; IR.ThinkingBudget := Some 24576 |} /\
  exists mt,
    IR.MaxTokens
      (IR.ApplyThinkingToIR Scenarios.sonnet_registry "claude-sonnet-thinking-high"
         Examples.request_s1)
    = Some mt /\ 28576 <= mt.
Proof.
  destruct (ApplyThinkingToIR_applied Scenarios.sonnet_registry
              "claude-sonnet-thinking-high" Examples.request_s1
              {| Providers.Enabled := true; Providers.BudgetTokens := 24576 |}
              eq_refl ltac:(intros th; discriminate))
    as (Hth & _ & _ & mt & info & Hmt & Hinfo & _ & _ & Hlow).
  split; [exact Hth|].
  exists mt. split; [exact Hmt|].
  injection Hinfo as <-. apply Hlow; [discriminate | reflexivity].
Defined.

Lemma ApplyThinkingToIR_leaves_alone_witness :
  IR.Thinking
    (IR.ApplyThinkingToIR Scenarios.sonnet_registry "gemini-2.0-flash"
       Examples.request_s1)
  = None.
Proof.
  rewrite (ApplyThinkingToIR_leaves_alone Scenarios.sonnet_registry "gemini-2.0-flash"
             Examples.request_s1 (or_intror (or_introl eq_refl))).
  reflexivity.
Defined.

(** ** The token counter, one caller at a time *)

Section SubstringSearch.
Import Tokenizer.

Lemma substring_prefix_rest (s : string) (n : nat) :
  exists post, s = (substring 0 n s ++ post)%string.
Proof.
  revert n; induction s as [|c s IH]; intros [|n].
  - now exists "".
  - now exists "".
  - now exists (String c s).
  - destruct (IH n) as [post Hpost]. exists post. simpl.
    change (String c s = String c (substring 0 n s ++ post)%string). now f_equal.
Qed.

Lemma substring_occurs (s : string) (i n : nat) :
  exists pre post, s = (pre ++ substring i n s ++ post)%string.
Proof.
  revert i; induction s as [|c s IH]; intros i.
  - exists "", "". now destruct i, n.
  - destruct i as [|i].
    + exists "". apply substring_prefix_rest.
    + destruct (IH i) as (pre & post & H). exists (String c pre), post. simpl.
      change (String c s = String c (pre ++ substring i n s ++ post)%string).
      now f_equal.
Qed.

Lemma substring_prefix_app (a b : string) :
  substring 0 (String.length a) (a ++ b)%string = a.
Proof.
  induction a as [|c a IH]; simpl.
  - now destruct b.
  - change (String c (substring 0 (String.length a) (a ++ b)%string) = String c a).
    now f_equal.
Qed.

Lemma contains_occurs (s sub : string) :
  contains s sub = true <-> exists pre post, s = (pre ++ sub ++ post)%string.
Proof.
  unfold contains. split.
  - intros H. apply andb_true_iff in H as [_ H].
    apply existsb_exists in H as (i & _ & Hi).
    unfold slice_eq in Hi. apply String.eqb_eq in Hi.
    destruct (substring_occurs s i (String.length sub)) as (pre & post & H).
    rewrite Hi in H. eauto.
  - intros (pre & post & ->).
    rewrite !string_app_length.
    apply andb_true_iff. split; [apply Nat.leb_le; lia|].
    apply existsb_exists. exists (String.length pre). split.
    + apply in_seq. lia.
    + unfold slice_eq. rewrite substring_app_skip, substring_prefix_app.
      apply String.eqb_refl.
Qed.

Lemma containsAny_occurs_aux (s : string) (substrs : list string) :
  containsAny s substrs = true <->
  exists sub pre post, In sub substrs /\ s = (pre ++ sub ++ post)%string.
Proof.
  unfold containsAny. rewrite existsb_exists. split.
  - intros (sub & Hin & H). apply contains_occurs in H as (pre & post & H). eauto.
  - intros (sub & pre & post & Hin & H). exists sub. split; [assumption|].
    apply contains_occurs. eauto.
Qed.

(** X17. The hand-written search of [containsAny] is substring search:
    it answers true exactly when one of the given strings occurs
    somewhere in [s], so that an empty string among them makes it
    answer true for every [s], and no list of strings makes it answer
    true for an [s] shorter than all of them. *)
Theorem containsAny_occurs (s : string) (substrs : list string) :
  (containsAny s substrs = true <->
   exists sub pre post, In sub substrs /\ s = (pre ++ sub ++ post)%string) /\
  (In "" substrs -> containsAny s substrs = true) /\
  (Forall (fun sub => (String.length s < String.length sub)%nat) substrs ->
   containsAny s substrs = false).
Proof.
  split; [apply containsAny_occurs_aux|]. split.
  - intros Hin. apply containsAny_occurs_aux. exists "", "", s. now split.
  - intros Hall. destruct (containsAny s substrs) eqn:H; [|reflexivity].
    apply containsAny_occurs_aux in H as (sub & pre & post & Hin & Hs).
    pose proof (proj1 (List.Forall_forall _ _) Hall sub Hin) as Hlen. simpl in Hlen.
    rewrite Hs, !string_app_length in Hlen. lia.
Qed.

(** X18. [normalizeModelForTokenizer] maps every model name to one of
    three tokenizer families and is idempotent; a name in which
    [gemini-3], [gemini-2.5] or [gemini-2.0] occurs goes to
    [gemini-2.0-flash] whatever else occurs in it, and a name goes to
    [gemini-1.5-flash] or [gemini-1.0-pro] only if [gemini-1.5], or
    [gemini-1.0] or [gemini-pro], occurs in it. *)
Theorem normalizeModelForTokenizer_families (model : string) :
  In (normalizeModelForTokenizer model)
     ["gemini-2.0-flash"; "gemini-1.5-flash"; "gemini-1.0-pro"] /\
  normalizeModelForTokenizer (normalizeModelForTokenizer model)
  = normalizeModelForTokenizer model /\
  (forall v pre post,
     In v ["gemini-3"; "gemini-2.5"; "gemini-2.0"] ->
     model = (pre ++ v ++ post)%string ->
     normalizeModelForTokenizer model = "gemini-2.0-flash") /\
  (normalizeModelForTokenizer model = "gemini-1.5-flash" ->
   exists pre post, model = (pre ++ "gemini-1.5" ++ post)%string) /\
  (normalizeModelForTokenizer model = "gemini-1.0-pro" ->
   exists v pre post,
     In v ["gemini-1.0"; "gemini-pro"] /\ model = (pre ++ v ++ post)%string).
Proof.
  assert (Hcases :
    (containsAny model ["gemini-3"; "gemini-2.5"; "gemini-2.0"] = true /\
     normalizeModelForTokenizer model = "gemini-2.0-flash") \/
    (containsAny model ["gemini-3"; "gemini-2.5"; "gemini-2.0"] = false /\
     containsAny model ["gemini-1.5"] = true /\
     normalizeModelForTokenizer model = "gemini-1.5-flash") \/
    (containsAny model ["gemini-3"; "gemini-2.5"; "gemini-2.0"] = false /\
     containsAny model ["gemini-1.0"; "gemini-pro"] = true /\
     normalizeModelForTokenizer model = "gemini-1.0-pro") \/
    (containsAny model ["gemini-3"; "gemini-2.5"; "gemini-2.0"] = false /\
     normalizeModelForTokenizer model = "gemini-2.0-flash")).
  { unfold normalizeModelForTokenizer.
    destruct (containsAny model ["gemini-3"; "gemini-2.5"; "gemini-2.0"]); [tauto|].
    destruct (containsAny model ["gemini-1.5"]); [tauto|].
    destruct (containsAny model ["gemini-1.0"; "gemini-pro"]); tauto. }
  assert (Hfirst : forall v pre post,
            In v ["gemini-3"; "gemini-2.5"; "gemini-2.0"] ->
            model = (pre ++ v ++ post)%string ->
            containsAny model ["gemini-3"; "gemini-2.5"; "gemini-2.0"] = true).
  { intros v pre post Hv Hm. apply containsAny_occurs_aux. eauto. }
  destruct Hcases as [[H2 ->] | [(H2 & H15 & ->) | [(H2 & H10 & ->) | [H2 ->]]]].
  - repeat split; try reflexivity; try discriminate. simpl. tauto.
  - split; [simpl; tauto|]. split; [reflexivity|]. split; [|split].
    + intros v pre post Hv Hm. rewrite (Hfirst v pre post Hv Hm) in H2. discriminate.
    + intros _. apply containsAny_occurs_aux in H15 as (sub & pre & post & [<-|[]] & H).
      eauto.
    + discriminate.
  - split; [simpl; tauto|]. split; [reflexivity|]. split; [|split].
    + intros v pre post Hv Hm. rewrite (Hfirst v pre post Hv Hm) in H2. discriminate.
    + discriminate.
    + intros _. apply containsAny_occurs_aux in H10 as (sub & pre & post & Hin & H).
      eauto.
  - repeat split; try reflexivity; try discriminate. simpl. tauto.
Qed.

End SubstringSearch.

Section CounterMore.
Import Json Tokenizer.

Variable raw : json -> string.
Variable LocalTokenizer : Type.
Variable error : Type.
Variable NewLocalTokenizer : string -> LocalTokenizer + error.
Variable CountTokens : LocalTokenizer -> list Content -> Z + error.

Lemma parseContent_some (value : json) (role : string) (content : Content) :
  parseContent raw value role = Some content ->
  Role content = role /\ Parts content <> [].
Proof.
  unfold parseContent. destruct (negb _); [discriminate|].
  destruct (flat_map _ _) as [|p ps]; [discriminate|].
  intros [= <-]. simpl. split; [reflexivity | discriminate].
Qed.

(** X19. Every content [extractContentsFromPayload] hands to the
    tokenizer has a role that is not empty and at least one part, and
    there are never more contents than the elements of the contents
    array and one for the system instruction. *)
Theorem extractContentsFromPayload_well_formed (payload : json) :
  Forall (fun content => Role content <> "" /\ Parts content <> [])
         (extractContentsFromPayload raw payload) /\
  (length (extractContentsFromPayload raw payload)
   <= 1 + length (array_items (Get payload (fst (schema_paths payload)))))%nat.
Proof.
  unfold extractContentsFromPayload.
  destruct (schema_paths payload) as [contentsPath systemPath]. cbn [fst].
  set (system :=
         match Get payload systemPath with
         | Some systemInstruction =>
             match parseContent raw systemInstruction "user" with
             | Some content => [content]
             | None => []
             end
         | None => []
         end).
  assert (Hsys : Forall (fun content => Role content <> "" /\ Parts content <> []) system /\
                 (length system <= 1)%nat).
  { subst system. destruct (Get payload systemPath) as [si|]; [|split; [constructor | simpl; lia]].
    destruct (parseContent raw si "user") as [content|] eqn:Hc;
      [|split; [constructor | simpl; lia]].
    apply parseContent_some in Hc as [Hrole Hparts].
    split; [|simpl; lia]. constructor; [|constructor].
    split; [rewrite Hrole; discriminate | assumption]. }
  destruct Hsys as [Hsys Hlen].
  destruct (negb (Result_IsArray (Get payload contentsPath))).
  { split; [assumption | lia]. }
  split.
  - apply Forall_app. split; [assumption|].
    induction (array_items (Get payload contentsPath)) as [|value values IH];
      [constructor|].
    simpl. apply Forall_app. split; [|assumption].
    destruct (parseContent raw value _) as [content|] eqn:Hc; [|constructor].
    apply parseContent_some in Hc as [Hrole Hparts].
    constructor; [|constructor]. split; [|assumption].
    rewrite Hrole.
    destruct (String.eqb_spec (Result_String raw (Get value "role")) "");
      [discriminate | assumption].
  - rewrite length_app.
    assert (forall values : list json,
              (length
                 (flat_map
                    (fun value =>
                       let role := Result_String raw (Get value "role") in
                       let role := if String.eqb role "" then "user" else role in
                       match parseContent raw value role with
                       | Some content => [content]
                       | None => []
                       end) values)
               <= length values)%nat) as Hitems.
    { induction values as [|value values IH]; simpl; [lia|].
      rewrite length_app.
      destruct (parseContent raw value _); simpl in *; lia. }
    specialize (Hitems (array_items (Get payload contentsPath))).
    cbv zeta in Hitems. lia.
Qed.

(** X20. [getOrCreateTokenizer] memoizes by tokenizer family: a call never
    removes or changes a cache entry; when it hands back a tokenizer,
    that tokenizer is cached under the family of the model, and every
    later call for a model of the same family hands back the same
    tokenizer and leaves the cache as it is; when it hands back an
    error, the error is the constructor's and the cache is as before. *)
Theorem getOrCreateTokenizer_memoizes (model : string)
    (cache : gmap string LocalTokenizer) :
  let result := getOrCreateTokenizer LocalTokenizer error NewLocalTokenizer model cache in
  cache ⊆ snd result /\
  (forall tok,
     fst result = inl tok ->
     snd result !! normalizeModelForTokenizer model = Some tok /\
     forall model',
       normalizeModelForTokenizer model' = normalizeModelForTokenizer model ->
       getOrCreateTokenizer LocalTokenizer error NewLocalTokenizer model' (snd result)
       = (inl tok, snd result)) /\
  (forall err,
     fst result = inr err ->
     snd result = cache /\
     NewLocalTokenizer (normalizeModelForTokenizer model) = inr err).
Proof.
  assert (Hhit : forall model' (c : gmap string LocalTokenizer) tok,
            c !! normalizeModelForTokenizer model' = Some tok ->
            getOrCreateTokenizer LocalTokenizer error NewLocalTokenizer model' c
            = (inl tok, c)).
  { intros model' c tok H. unfold getOrCreateTokenizer. now rewrite H. }
  intros result.
  destruct (cache !! normalizeModelForTokenizer model) as [tok0|] eqn:Hc.
  - assert (Hr : result = (inl tok0, cache)) by now apply Hhit.
    rewrite Hr. simpl. split; [reflexivity|]. split; [|discriminate].
    intros tok [= <-]. split; [assumption|].
    intros model' Hsame. apply Hhit. now rewrite Hsame.
  - destruct (NewLocalTokenizer (normalizeModelForTokenizer model)) as [tok0|err0] eqn:Hn.
    + assert (Hr : result
                   = (inl tok0, <[normalizeModelForTokenizer model := tok0]> cache)).
      { subst result. unfold getOrCreateTokenizer. now rewrite Hc, Hn. }
      rewrite Hr. simpl.
      split; [now apply insert_subseteq|]. split; [|discriminate].
      intros tok [= <-].
      split; [apply lookup_insert_eq|].
      intros model' Hsame. apply Hhit. rewrite Hsame. apply lookup_insert_eq.
    + assert (Hr : result = (inr err0, cache)).
      { subst result. unfold getOrCreateTokenizer. now rewrite Hc, Hn. }
      rewrite Hr. simpl.
      split; [reflexivity|]. split; [discriminate|].
      intros err [= <-]. now split.
Qed.

(** X21. A payload that is not a JSON object (an array, a string, a
    number, a boolean or null) counts as 0 tokens, the tokenizer's
    count is not asked for, and the cache is the one
    [getOrCreateTokenizer] leaves. *)
Theorem CountTokensFromGeminiRequest_non_object (model : string) (payload : json)
    (cache : gmap string LocalTokenizer) :
  (forall ms, payload <> JObj ms) ->
  extractContentsFromPayload raw payload = [] /\
  CountTokensFromGeminiRequest raw LocalTokenizer error NewLocalTokenizer CountTokens
    model payload cache
  = (0, snd (getOrCreateTokenizer LocalTokenizer error NewLocalTokenizer model cache)).
Proof.
  intros Hobj.
  assert (Hget : forall key rest, Get_path (key :: rest) payload = None)
    by (intros; now apply Get_non_object).
  assert (Hcontents : extractContentsFromPayload raw payload = []).
  { unfold extractContentsFromPayload, schema_paths.
    change (Get payload "request.contents")
      with (Get_path ["request"; "contents"] payload).
    rewrite Hget. simpl.
    change (Get payload "systemInstruction") with (Get_path ["systemInstruction"] payload).
    change (Get payload "contents") with (Get_path ["contents"] payload).
    rewrite !Hget. reflexivity. }
  split; [assumption|].
  unfold CountTokensFromGeminiRequest. rewrite Hcontents.
  destruct (getOrCreateTokenizer _ _ _ _ _) as [[tok|err] cache']; reflexivity.
Qed.

End CounterMore.

Lemma CountTokensFromGeminiRequest_non_object_witness :
  Tokenizer.CountTokensFromGeminiRequest Scenarios.no_raw unit string
    Scenarios.char_tokenizer_new Scenarios.char_tokenizer_count
    "gemini-2.5-pro" (Json.JArr [Json.JStr "hi"]) ∅
  = (0, {[ "gemini-2.0-flash" := tt ]}).
Proof.
  destruct (CountTokensFromGeminiRequest_non_object Scenarios.no_raw unit string
              Scenarios.char_tokenizer_new Scenarios.char_tokenizer_count
              "gemini-2.5-pro" (Json.JArr [Json.JStr "hi"]) ∅
              ltac:(intros ms; discriminate)) as [_ H].
  rewrite H. reflexivity.
Defined.

(** ** The mutex discipline of getOrCreateTokenizer *)

Section LockDiscipline.
Import Tokenizer Concurrent Locking.

Variable LocalTokenizer : Type.
Variable error : Type.
Variable NewLocalTokenizer : nat -> string -> LocalTokenizer + error.

Local Abbreviation Thread := (thread LocalTokenizer error).
Local Abbreviation Config := (config LocalTokenizer error).
Local Abbreviation Pc := (pc LocalTokenizer error).

Lemma holders_update (f : Pc -> bool) (ts : list Thread) (i : nat) (t t' : Thread) :
  ts !! i = Some t ->
  (holders f (<[i := t']> ts) + (if f (at_pc t) then 1 else 0)
   = holders f ts + (if f (at_pc t') then 1 else 0))%nat.
Proof.
  unfold holders. revert i; induction ts as [|t0 ts IH]; intros [|i]; simpl;
    try discriminate.
  - intros [= ->]. destruct (f (at_pc t)), (f (at_pc t')); simpl; lia.
  - intros Hi. specialize (IH i Hi). destruct (f (at_pc t0)); simpl; lia.
Qed.

Lemma holders_positive (f : Pc -> bool) (ts : list Thread) :
  (0 < holders f ts)%nat -> exists i t, ts !! i = Some t /\ f (at_pc t) = true.
Proof.
  unfold holders. induction ts as [|t0 ts IH]; simpl; [lia|].
  destruct (f (at_pc t0)) eqn:Hf.
  - intros _. exists 0%nat, t0. now split.
  - intros H. destruct (IH H) as (i & t & Hi & Ht). exists (S i), t. now split.
Qed.

Lemma holders_none (f : Pc -> bool) (ts : list Thread) (i : nat) (t : Thread) :
  holders f ts = 0%nat -> ts !! i = Some t -> f (at_pc t) = false.
Proof.
  unfold holders. revert i; induction ts as [|t0 ts IH]; intros [|i]; simpl;
    try discriminate.
  - intros H [= ->]. destruct (f (at_pc t)); [discriminate | reflexivity].
  - intros H Hi. destruct (f (at_pc t0)); [discriminate|]. now apply (IH i).
Qed.

Lemma holders_initial (f : Pc -> bool) (models : list string) :
  f AtRLock = false ->
  holders f (map (fun m => {| model := m; at_pc := AtRLock |}) models) = 0%nat.
Proof.
  intros Hf. unfold holders. induction models as [|m models IH]; simpl; [reflexivity|].
  now rewrite Hf.
Qed.

Lemma initial_lock_invariant (models : list string) (c0 : gmap string LocalTokenizer) :
  lock_invariant (initial error models c0).
Proof.
  constructor; unfold initial; simpl.
  - now rewrite holders_initial.
  - now rewrite holders_initial.
  - discriminate.
Qed.

Lemma step_lock_invariant (c c' : Config) :
  lock_invariant c -> step NewLocalTokenizer c c' -> lock_invariant c'.
Proof.
  intros [Hr Hw Hx] Hstep. destruct Hstep as [i t ts sh sh' p' Hi Hts]. simpl in *.
  pose proof (holders_update holds_rlock ts i t {| model := model t; at_pc := p' |} Hi)
    as Hur.
  pose proof (holders_update holds_lock ts i t {| model := model t; at_pc := p' |} Hi)
    as Huw.
  simpl in Hur, Huw.
  inversion Hts; subst; simpl in *;
    match goal with H : _ = at_pc _ |- _ => rewrite <- H in Hur, Huw end;
    simpl in Hur, Huw;
    match goal with
    | Hw' : holders holds_lock _ = (if writer ?s then _ else _) |- _ =>
        destruct (writer s) eqn:Hwr
    end;
    try discriminate;
    try (specialize (Hx eq_refl));
    constructor; simpl; try rewrite Hwr; try lia; try (intros; lia);
    try discriminate.
Qed.

Lemma reachable_lock_invariant (models : list string) (c0 : gmap string LocalTokenizer)
    (c : Config) :
  reachable NewLocalTokenizer models c0 c -> lock_invariant c.
Proof.
  unfold reachable. intros Hrun.
  refine (rtc_ind_r (fun c => lock_invariant c) _ _ _ c Hrun).
  - apply initial_lock_invariant.
  - intros c1 c2 _ Hstep IH. eapply step_lock_invariant; eassumption.
Qed.


(** X22. The read-write mutex does what it is for: in every state of
    every interleaving, the reader count of the mutex is the number of
    callers between [RLock] and [RUnlock], the write lock is taken
    exactly when some caller is between [Lock] and its return, and
    while a caller is there no other caller holds the write lock or a
    read lock, so the cache is never read or written while it is
    written. *)
Theorem tokenizerCacheMu_exclusion (models : list string)
    (c0 : gmap string LocalTokenizer) (c : Config) :
  reachable NewLocalTokenizer models c0 c ->
  readers (mem c) = holders holds_rlock (threads c) /\
  (writer (mem c) = true <->
   exists i t, threads c !! i = Some t /\ holds_lock (at_pc t) = true) /\
  (forall i j ti tj,
     threads c !! i = Some ti -> threads c !! j = Some tj -> i <> j ->
     holds_lock (at_pc ti) = true ->
     holds_lock (at_pc tj) = false /\ holds_rlock (at_pc tj) = false).
Proof.
  intros Hreach.
  destruct (reachable_lock_invariant models c0 c Hreach) as [Hr Hw Hx].
  pose proof (reachable_invariant LocalTokenizer error NewLocalTokenizer models c0 c Hreach)
    as Hinv.
  assert (Hheld : forall i t, threads c !! i = Some t -> holds_lock (at_pc t) = true ->
                              writer (mem c) = true).
  { intros i t Hi Ht. destruct (writer (mem c)) eqn:Hwr; [reflexivity|].
    rewrite (inv_writer_free _ _ _ _ _ _ Hinv Hwr i t Hi) in Ht. discriminate. }
  split; [assumption|]. split; [split|].
  - intros Hwr. rewrite Hwr in Hw. apply holders_positive. lia.
  - intros (i & t & Hi & Ht). eauto.
  - intros i j ti tj Hi Hj Hne Hti. split.
    + destruct (holds_lock (at_pc tj)) eqn:Htj; [|reflexivity].
      destruct Hne. eapply (inv_writer_one _ _ _ _ _ _ Hinv); eassumption.
    + apply (holders_none holds_rlock (threads c) j tj); [|assumption].
      rewrite <- Hr. apply Hx. eauto.
Qed.

Lemma thread_can_step (key : string) (p : Pc) (sh : shared LocalTokenizer) :
  (p = AtRLock -> writer sh = false) ->
  (p = AtLock -> writer sh = false /\ readers sh = 0%nat) ->
  is_returned p = false ->
  exists p' sh', thread_step NewLocalTokenizer key (p, sh) (p', sh').
Proof.
  intros Hrl Hl Hret. destruct p as [| |[tok|]| | | |tok|r]; try discriminate.
  - eexists _, _. apply step_rlock. now apply Hrl.
  - eexists _, _. apply step_read.
  - eexists _, _. apply step_runlock_hit.
  - eexists _, _. apply step_runlock_miss.
  - destruct (Hl eq_refl). eexists _, _. now apply step_lock.
  - destruct (tokenizerCache sh !! key) as [tok|] eqn:Hc.
    + eexists _, _. eapply step_recheck_hit. eassumption.
    + eexists _, _. now apply step_recheck_miss.
  - destruct (NewLocalTokenizer (calls sh) key) as [tok|err] eqn:Hn.
    + eexists _, _. eapply step_new_ok. eassumption.
    + eexists _, _. eapply step_new_err. eassumption.
  - eexists _, _. apply step_insert.
Qed.

Lemma finished_or_not (c : Config) :
  finished c \/ exists i t, threads c !! i = Some t /\ is_returned (at_pc t) = false.
Proof.
  unfold finished. induction (threads c) as [|t0 ts IH].
  - left. constructor.
  - destruct (is_returned (at_pc t0)) eqn:Ht0.
    + destruct IH as [IH | (i & t & Hi & Ht)].
      * left. now constructor.
      * right. exists (S i), t. now split.
    + right. exists 0%nat, t0. now split.
Qed.

Lemma waiting_writer_or_none (ts : list Thread) :
  (exists i t, ts !! i = Some t /\ at_pc t = AtLock) \/
  Forall (fun t => at_pc t <> AtLock) ts.
Proof.
  induction ts as [|t0 ts IH].
  - right. constructor.
  - destruct (at_pc t0) eqn:Ht0;
      try (destruct IH as [(i & t & Hi & Ht) | IH];
           [left; exists (S i), t; now split
           |right; constructor; [rewrite Ht0; discriminate | assumption]]).
    left. exists 0%nat, t0. now split.
Qed.

(** Some caller can step, and not one that a writer waiting at [Lock]
    would hold back. *)
Lemma lock_invariant_progress (c : Config) :
  lock_invariant c ->
  finished c \/
  exists i t p' sh',
    threads c !! i = Some t /\
    thread_step NewLocalTokenizer (baseModel t) (at_pc t, mem c) (p', sh') /\
    (at_pc t = AtRLock -> Forall (fun tj => at_pc tj <> AtLock) (threads c)).
Proof.
  intros [Hr Hw Hx]. destruct c as [ts sh]. simpl in *.
  assert (Hgo : forall i t,
            ts !! i = Some t ->
            (at_pc t = AtRLock -> writer sh = false) ->
            (at_pc t = AtLock -> writer sh = false /\ readers sh = 0%nat) ->
            is_returned (at_pc t) = false ->
            (at_pc t = AtRLock -> Forall (fun tj : Thread => at_pc tj <> AtLock) ts) ->
            exists i t p' sh',
              ts !! i = Some t /\
              thread_step NewLocalTokenizer (baseModel t) (at_pc t, sh) (p', sh') /\
              (at_pc t = AtRLock -> Forall (fun tj : Thread => at_pc tj <> AtLock) ts)).
  { intros i t Hi H1 H2 H3 H4.
    destruct (thread_can_step (baseModel t) (at_pc t) sh H1 H2 H3) as (p' & sh' & Hts).
    exists i, t, p', sh'. auto. }
  destruct (writer sh) eqn:Hwr.
  - right. destruct (holders_positive holds_lock ts) as (i & t & Hi & Ht); [lia|].
    apply (Hgo i t Hi); destruct (at_pc t); try discriminate; reflexivity.
  - destruct (readers sh) as [|n] eqn:Hrd.
    + destruct (waiting_writer_or_none ts) as [(i & t & Hi & Ht) | Hnone].
      * right. apply (Hgo i t Hi); rewrite Ht; try discriminate; auto.
      * destruct (finished_or_not {| threads := ts; mem := sh |})
          as [Hfin | (i & t & Hi & Ht)]; [now left|].
        right. apply (Hgo i t Hi); auto.
    + right. destruct (holders_positive holds_rlock ts) as (i & t & Hi & Ht); [lia|].
      apply (Hgo i t Hi); destruct (at_pc t); try discriminate; reflexivity.
Qed.

Lemma lock_invariant_step (c : Config) :
  lock_invariant c -> finished c \/ exists c', step NewLocalTokenizer c c'.
Proof.
  intros Hinv. destruct (lock_invariant_progress c Hinv)
    as [Hfin | (i & t & p' & sh' & Hi & Hts & _)]; [now left|].
  right. destruct c as [ts sh]. eexists. econstructor; eassumption.
Qed.

Lemma list_sum_update (g : Thread -> nat) (ts : list Thread) (i : nat) (t t' : Thread) :
  ts !! i = Some t ->
  (list_sum (map g (<[i := t']> ts)) + g t = list_sum (map g ts) + g t')%nat.
Proof.
  revert i; induction ts as [|t0 ts IH]; intros [|i]; simpl; try discriminate.
  - intros [= ->]. lia.
  - intros Hi. specialize (IH i Hi). lia.
Qed.

Lemma step_steps_left (c c' : Config) :
  step NewLocalTokenizer c c' -> (steps_left c' < steps_left c)%nat.
Proof.
  intros Hstep. destruct Hstep as [i t ts sh sh' p' Hi Hts]. unfold steps_left. simpl.
  pose proof (list_sum_update (fun t => remaining (at_pc t)) ts i t
                {| model := model t; at_pc := p' |} Hi) as Hu.
  simpl in Hu.
  inversion Hts; subst;
    match goal with H : _ = at_pc _ |- _ => rewrite <- H in Hu end;
    simpl in Hu; lia.
Qed.

Lemma steps_left_initial (models : list string) (c0 : gmap string LocalTokenizer) :
  steps_left (initial error models c0) = (7 * length models)%nat.
Proof.
  unfold steps_left, initial. simpl.
  induction models as [|m models IH]; simpl in *; lia.
Qed.

Lemma nsteps_steps_left (n : nat) (c c' : Config) :
  nsteps (step NewLocalTokenizer) n c c' -> (n + steps_left c' <= steps_left c)%nat.
Proof.
  induction 1 as [|n c1 c2 c3 Hstep _ IH]; [lia|].
  apply step_steps_left in Hstep. lia.
Qed.

(** X23. No deadlock: in every state of every interleaving either all
    callers have returned or some caller can take its next step, and
    that caller is not one that a writer waiting at [Lock] holds back
    (it is not at [RLock], or no caller stands at [Lock]); and from
    every such state the callers can all be run to their return. *)
Theorem getOrCreateTokenizer_no_deadlock (models : list string)
    (c0 : gmap string LocalTokenizer) (c : Config) :
  reachable NewLocalTokenizer models c0 c ->
  (finished c \/
   exists i t p' sh',
     threads c !! i = Some t /\
     thread_step NewLocalTokenizer (baseModel t) (at_pc t, mem c) (p', sh') /\
     (at_pc t = AtRLock -> Forall (fun tj => at_pc tj <> AtLock) (threads c))) /\
  (exists c', rtc (step NewLocalTokenizer) c c' /\ finished c').
Proof.
  intros Hreach. apply reachable_lock_invariant in Hreach.
  split; [now apply lock_invariant_progress|].
  remember (steps_left c) as k eqn:Hk.
  revert c Hreach Hk. induction (lt_wf k) as [k _ IH]. intros c Hinv ->.
  destruct (lock_invariant_step c Hinv) as [Hfin | [c1 Hstep]].
  - exists c. split; [constructor | assumption].
  - destruct (IH (steps_left c1) (step_steps_left c c1 Hstep) c1) as (c' & Hrun & Hfin).
    + eapply step_lock_invariant; eassumption.
    + reflexivity.
    + exists c'. split; [eapply rtc_l; eassumption | assumption].
Qed.

(** X24. Every interleaving of [N] callers is short: after [n] steps
    from the start the callers have at most [7 * N - n] statements
    before them, so no run has more than [7 * N] steps. *)
Theorem getOrCreateTokenizer_runs_bounded (models : list string)
    (c0 : gmap string LocalTokenizer) (n : nat) (c : Config) :
  nsteps (step NewLocalTokenizer) n (initial error models c0) c ->
  (n + steps_left c <= 7 * length models)%nat /\ (n <= 7 * length models)%nat.
Proof.
  intros Hrun. apply nsteps_steps_left in Hrun.
  rewrite steps_left_initial in Hrun. lia.
Qed.

Lemma run_nsteps (schedule : list nat) (c c' : Config) :
  run NewLocalTokenizer schedule c = Some c' ->
  nsteps (step NewLocalTokenizer) (length schedule) c c'.
Proof.
  revert c; induction schedule as [|i rest IH]; intros c; simpl.
  - intros [= <-]. constructor.
  - destruct (exec _ i c) as [c1|] eqn:He; [|discriminate].
    intros Hrun. eapply nsteps_l; [eapply exec_sound; eassumption | now apply IH].
Qed.

Lemma step_handed (models : list string) (c0 : gmap string LocalTokenizer)
    (c c' : Config) :
  invariant NewLocalTokenizer models c0 c ->
  (forall i t tok, threads c !! i = Some t -> handed (at_pc t) = Some tok ->
                   tokenizerCache (mem c) !! baseModel t = Some tok) ->
  step NewLocalTokenizer c c' ->
  forall i t tok, threads c' !! i = Some t -> handed (at_pc t) = Some tok ->
                  tokenizerCache (mem c') !! baseModel t = Some tok.
Proof.
  intros Hinv IH Hstep. destruct Hstep as [i t ts sh sh' p' Hi Hts]. simpl in *.
  intros j tj tok Hj Hh.
  assert (Hold : forall tok', handed (at_pc t) = Some tok' ->
                              tokenizerCache sh !! baseModel t = Some tok')
    by (intros tok'; apply (IH i t tok' Hi)).
  destruct (lookup_thread_update LocalTokenizer error ts i j t _ tj Hi Hj)
    as [[-> ->] | [Hne Hj']].
  - unfold baseModel in *. simpl in *.
    inversion Hts; subst; simpl in *; try discriminate.
    + destruct (tokenizerCache sh' !! _) eqn:Hc; [|discriminate].
      now injection Hh as <-.
    + injection Hh as <-. apply Hold.
      match goal with H : _ = at_pc t |- _ => now rewrite <- H end.
    + injection Hh as <-. assumption.
    + injection Hh as <-. apply lookup_insert_eq.
  - specialize (IH j tj tok Hj' Hh). simpl in IH.
    inversion Hts; subst; simpl in *; try assumption.
    destruct (decide (baseModel t = baseModel tj)) as [Heq|Hdiff].
    + pose proof (inv_miss _ _ _ _ _ _ Hinv i t Hi) as Hmiss. simpl in Hmiss.
      rewrite Heq in Hmiss. rewrite Hmiss in IH; [discriminate|].
      right. match goal with H : AtInsert ?k = at_pc t |- _ => exists k; now rewrite <- H end.
    + now rewrite lookup_insert_ne.
Qed.

Lemma reachable_handed (models : list string) (c0 : gmap string LocalTokenizer)
    (c : Config) :
  reachable NewLocalTokenizer models c0 c ->
  forall i t tok, threads c !! i = Some t -> handed (at_pc t) = Some tok ->
                  tokenizerCache (mem c) !! baseModel t = Some tok.
Proof.
  unfold reachable. intros Hrun.
  cut (rtc (step NewLocalTokenizer) (initial error models c0) c /\
       forall i (t : Thread) tok,
         threads c !! i = Some t -> handed (at_pc t) = Some tok ->
         tokenizerCache (mem c) !! baseModel t = Some tok); [now intros [_ H]|].
  refine (rtc_ind_r
            (fun c => rtc (step NewLocalTokenizer) (initial error models c0) c /\
                      forall i (t : Thread) tok,
                        threads c !! i = Some t ->
                        handed (at_pc t) = Some tok ->
                        tokenizerCache (mem c) !! baseModel t = Some tok)
            _ _ _ c Hrun).
  - split; [constructor|]. intros i t tok. unfold initial. simpl.
    change (map ?f ?l) with (f <$> l). rewrite list_lookup_fmap.
    destruct (models !! i); simpl; [|discriminate]. now intros [= <-].
  - intros c1 c2 _ Hstep [Hreach IH]. split.
    + eapply rtc_r; eassumption.
    + eapply step_handed; [|exact IH|exact Hstep].
      apply (reachable_invariant LocalTokenizer error NewLocalTokenizer models c0 c1 Hreach).
Qed.

(** X25. All callers share one tokenizer per family, whatever the
    constructor hands back from one call to the next: in every state of
    every interleaving, a tokenizer a caller has returned is the cache
    entry of its family; it is the entry the cache had at the start,
    and then no instance was constructed for the family, or it was
    handed back by a call of the constructor, and then that is the one
    instance constructed for the family; and two callers of the same
    family that have returned a tokenizer have returned the same
    one. *)
Theorem callers_share_tokenizer (models : list string)
    (c0 : gmap string LocalTokenizer) (c : Config) :
  reachable NewLocalTokenizer models c0 c ->
  (forall i t tok,
     threads c !! i = Some t -> at_pc t = Returned (inl tok) ->
     tokenizerCache (mem c) !! baseModel t = Some tok /\
     ((c0 !! baseModel t = Some tok /\ instances (baseModel t) c = 0%nat) \/
      (c0 !! baseModel t = None /\ instances (baseModel t) c = 1%nat /\
       exists n, NewLocalTokenizer n (baseModel t) = inl tok))) /\
  (forall i j ti tj toki tokj,
     threads c !! i = Some ti -> threads c !! j = Some tj ->
     at_pc ti = Returned (inl toki) -> at_pc tj = Returned (inl tokj) ->
     baseModel ti = baseModel tj -> toki = tokj).
Proof.
  intros Hreach.
  pose proof (reachable_handed models c0 c Hreach) as Hhanded.
  pose proof (reachable_invariant LocalTokenizer error NewLocalTokenizer models c0 c Hreach)
    as Hinv.
  assert (Hret : forall i t tok,
            threads c !! i = Some t -> at_pc t = Returned (inl tok) ->
            tokenizerCache (mem c) !! baseModel t = Some tok).
  { intros i t tok Hi Hp. apply (Hhanded i t tok Hi). now rewrite Hp. }
  split.
  - intros i t tok Hi Hp. pose proof (Hret i t tok Hi Hp) as Hc.
    split; [assumption|].
    destruct (c0 !! baseModel t) as [tok0|] eqn:H0.
    + left. split.
      * f_equal.
        pose proof (inv_cache_grows _ _ _ _ _ _ Hinv) as Hsub.
        pose proof (lookup_weaken _ _ _ _ H0 Hsub) as Hc0. congruence.
      * eapply invariant_cached_never_built; [exact Hinv | eauto].
    + right. split; [reflexivity|].
      exact (invariant_cached_built LocalTokenizer error NewLocalTokenizer models c0 c
               (baseModel t) tok Hinv H0 Hc).
  - intros i j ti tj toki tokj Hi Hj Hpi Hpj Hsame.
    pose proof (Hret i ti toki Hi Hpi) as Hci.
    pose proof (Hret j tj tokj Hj Hpj) as Hcj.
    rewrite Hsame in Hci. congruence.
Qed.

End LockDiscipline.

Lemma mid_race_reachable :
  Concurrent.reachable Scenarios.char_tokenizer_calls Scenarios.two_callers ∅
    Examples.mid_race.
Proof.
  apply run_sound with (schedule := [0; 1; 0; 1; 0; 1; 0; 0]%nat).
  vm_compute. reflexivity.
Defined.

Lemma after_race_reachable :
  Concurrent.reachable Scenarios.char_tokenizer_calls Scenarios.two_callers ∅
    Scenarios.after_race.
Proof.
  apply run_sound with (schedule := Scenarios.racing_schedule).
  vm_compute. reflexivity.
Defined.

Lemma after_numbered_race_reachable :
  Concurrent.reachable Examples.numbered_new Scenarios.two_callers ∅
    Examples.after_numbered_race.
Proof.
  apply run_sound with (schedule := Scenarios.racing_schedule).
  vm_compute. reflexivity.
Defined.

(** While the first caller constructs, the second holds no lock. *)
Lemma tokenizerCacheMu_exclusion_witness :
  Concurrent.holds_lock (LocalTokenizer := unit) (error := string) Concurrent.AtLock = false /\
  Locking.holds_rlock (LocalTokenizer := unit) (error := string) Concurrent.AtLock = false.
Proof.
  destruct (tokenizerCacheMu_exclusion unit string Scenarios.char_tokenizer_calls
              Scenarios.two_callers ∅ Examples.mid_race mid_race_reachable)
    as (_ & _ & H).
  apply (H 0%nat 1%nat
           {| Concurrent.model := "gemini-3-pro"; Concurrent.at_pc := Concurrent.AtNew |}
           {| Concurrent.model := "gemini-2.5-flash";
              Concurrent.at_pc := Concurrent.AtLock |});
    [reflexivity | reflexivity | discriminate | reflexivity].
Defined.

Lemma getOrCreateTokenizer_no_deadlock_witness :
  exists c',
    rtc (Concurrent.step Scenarios.char_tokenizer_calls) Examples.mid_race c' /\
    Concurrent.finished c'.
Proof.
  exact (proj2 (getOrCreateTokenizer_no_deadlock unit string Scenarios.char_tokenizer_calls
                  Scenarios.two_callers ∅ Examples.mid_race mid_race_reachable)).
Defined.

Lemma getOrCreateTokenizer_runs_bounded_witness :
  (12 + Locking.steps_left Scenarios.after_race <= 14)%nat.
Proof.
  apply (getOrCreateTokenizer_runs_bounded unit string Scenarios.char_tokenizer_calls
           Scenarios.two_callers ∅ 12 Scenarios.after_race).
  apply (run_nsteps unit string Scenarios.char_tokenizer_calls Scenarios.racing_schedule).
  vm_compute. reflexivity.
Defined.

(** With a constructor whose instances are numbered by the call that
    built them, both callers of the race hold instance 0, the only one
    constructed. *)
Lemma callers_share_tokenizer_witness :
  Concurrent.tokenizerCache (Concurrent.mem Examples.after_numbered_race)
    !! "gemini-2.0-flash" = Some 0%nat /\
  Concurrent.instances "gemini-2.0-flash" Examples.after_numbered_race = 1%nat.
Proof.
  destruct (callers_share_tokenizer nat string Examples.numbered_new
              Scenarios.two_callers ∅ Examples.after_numbered_race
              after_numbered_race_reachable)
    as [H _].
  destruct (H 1%nat {| Concurrent.model := "gemini-2.5-flash";
                       Concurrent.at_pc := Concurrent.Returned (inl 0%nat) |} 0%nat
              eq_refl eq_refl) as [Hc [[Habs _] | (_ & Hone & _)]].
  - discriminate Habs.
  - split; [exact Hc | exact Hone].
Defined.

(** ** More of the Claude login flow *)

Section ClaudeLoginMore.
Import Login Scenarios Examples.

Variable Config : Type.

Ltac flow_cases w :=
  unfold ClaudeAuthenticator_Login;
  unfold mbind, M_bind, bind, or_fail, emit, ret, fail;
  destruct (GeneratePKCECodes w) as [pkceCodes|?]; cbn; [|try reflexivity];
  [destruct (GenerateRandomState w) as [state|?]; cbn; [|try reflexivity];
   [destruct (GenerateAuthURL w state pkceCodes) as [[authURL returnedState]|?]; cbn;
    [|try reflexivity]]].

(** The result of [Login], the events apart. *)
Lemma Login_result (w : world) (cfg : Config) (opts : option LoginOptions) :
  snd (ClaudeAuthenticator_Login Config w (Some cfg) opts)
  = match GeneratePKCECodes w with
    | inr err => inr (Errorf "claude pkce generation failed: %w" (Some err))
    | inl pkceCodes =>
    match GenerateRandomState w with
    | inr err => inr (Errorf "claude state generation failed: %w" (Some err))
    | inl state =>
    match GenerateAuthURL w state pkceCodes with
    | inr err => inr (Errorf "claude authorisation url generation failed: %w" (Some err))
    | inl (authURL, returnedState) =>
    match stdin w with
    | ScanError err => inr (Errorf "failed to read authorisation code: %w" (Some err))
    | ScanEOF => inr (Errorf "no authorisation code provided" None)
    | ScanLine text =>
    if String.eqb (TrimSpace text) ""
    then inr (Errorf "empty authorisation code provided" None)
    else
    match ExchangeCodeForTokens w (TrimSpace text) returnedState pkceCodes with
    | inr err => inr (AuthenticationError ErrCodeExchangeFailed err)
    | inl authBundle =>
    match CreateTokenStorage w authBundle with
    | None => inr (Errorf "claude token storage missing account information" None)
    | Some tokenStorage =>
    if String.eqb (Email tokenStorage) ""
    then inr (Errorf "claude token storage missing account information" None)
    else inl {| ID := "claude-" ++ Email tokenStorage ++ ".json";
                Provider := "claude";
                FileName := "claude-" ++ Email tokenStorage ++ ".json";
                Storage := tokenStorage;
                AuthMetadata := {[ "email" := Email tokenStorage ]} |}
    end end end end end end.
Proof.
  flow_cases w.
  destruct (negb _ && _); cbn; [destruct (browser_OpenURL w authURL); cbn|];
    (destruct (stdin w) as [text| |?]; cbn; [|reflexivity|reflexivity];
     destruct (String.eqb (TrimSpace text) ""); cbn; [reflexivity|];
     destruct (ExchangeCodeForTokens w _ _ _) as [authBundle|?]; cbn; [|reflexivity];
     destruct (CreateTokenStorage w authBundle) as [tokenStorage|]; cbn; [|reflexivity];
     destruct (String.eqb (Email tokenStorage) ""); cbn; [reflexivity|];
     destruct (negb _); reflexivity).
Qed.


(** X26. What a successful [Login] means: the configuration was there,
    every collaborator answered, the line read is not blank, the
    exchange was asked with the trimmed code, the state that
    [GenerateAuthURL] returned and the generated PKCE codes, and the
    record handed back is for provider [claude], with the token storage
    made from the exchanged bundle, a non-empty email, that email as
    its only metadata, and [claude-<email>.json] both as ID and as file
    name. *)
Theorem Login_success (w : world) (cfg : option Config) (opts : option LoginOptions)
    (auth : Auth) :
  snd (ClaudeAuthenticator_Login Config w cfg opts) = inl auth ->
  exists pkceCodes state authURL returnedState text authBundle,
    is_Some cfg /\
    GeneratePKCECodes w = inl pkceCodes /\
    GenerateRandomState w = inl state /\
    GenerateAuthURL w state pkceCodes = inl (authURL, returnedState) /\
    stdin w = ScanLine text /\
    TrimSpace text <> "" /\
    ExchangeCodeForTokens w (TrimSpace text) returnedState pkceCodes = inl authBundle /\
    CreateTokenStorage w authBundle = Some (Storage auth) /\
    Email (Storage auth) <> "" /\
    ID auth = ("claude-" ++ Email (Storage auth) ++ ".json")%string /\
    FileName auth = ID auth /\
    Provider auth = "claude" /\
    AuthMetadata auth = {[ "email" := Email (Storage auth) ]}.
Proof.
  destruct cfg as [cfg|]; [|discriminate].
  rewrite Login_result.
  destruct (GeneratePKCECodes w) as [pkceCodes|?]; [|discriminate].
  destruct (GenerateRandomState w) as [state|?]; [|discriminate].
  destruct (GenerateAuthURL w state pkceCodes) as [[authURL returnedState]|?] eqn:Hurl;
    [|discriminate].
  destruct (stdin w) as [text| |?]; [|discriminate|discriminate].
  destruct (String.eqb_spec (TrimSpace text) "") as [|Hcode]; [discriminate|].
  destruct (ExchangeCodeForTokens w _ _ _) as [authBundle|?] eqn:Hex; [|discriminate].
  destruct (CreateTokenStorage w authBundle) as [tokenStorage|] eqn:Hst; [|discriminate].
  destruct (String.eqb_spec (Email tokenStorage) "") as [|Hemail]; [discriminate|].
  intros [= <-]. simpl.
  exists pkceCodes, state, authURL, returnedState, text, authBundle.
  repeat split; eauto.
Qed.

(** X27. The browser is never fatal and never needed: whether a browser
    is available, whether it opens, and what the options say change
    nothing in what [Login] returns; and with [NoBrowser] set, or no
    browser available, no URL is opened and no warning logged. *)
Theorem Login_browser_never_fatal (w : world) (cfg : option Config)
    (opts opts' : option LoginOptions) (available : bool)
    (open : string -> option error) :
  snd (ClaudeAuthenticator_Login Config (with_browser w available open) cfg opts')
  = snd (ClaudeAuthenticator_Login Config w cfg opts) /\
  ((exists o, opts = Some o /\ NoBrowser o = true) \/ browser_IsAvailable w = false ->
   Forall (fun ev => match ev with
                     | OpenedURL _ | LogWarnf _ _ => False
                     | _ => True
                     end)
          (fst (ClaudeAuthenticator_Login Config w cfg opts))).
Proof.
  split.
  - destruct cfg as [cfg|]; [|reflexivity]. now rewrite !Login_result.
  - intros Hoff. destruct cfg as [cfg|]; [|constructor].
    assert (Hcond : negb (NoBrowser match opts with
                                    | Some o => o
                                    | None => {| NoBrowser := false; Metadata := ∅ |}
                                    end) && browser_IsAvailable w = false).
    { destruct Hoff as [(o & -> & Ho) | Hav].
      - now rewrite Ho.
      - rewrite Hav. apply andb_false_r. }
    unfold ClaudeAuthenticator_Login.
    unfold mbind, M_bind, bind, or_fail, emit, ret, fail.
    destruct (GeneratePKCECodes w) as [pkceCodes|?]; cbn; [|constructor].
    destruct (GenerateRandomState w) as [state|?]; cbn; [|constructor].
    destruct (GenerateAuthURL w state pkceCodes) as [[authURL returnedState]|?]; cbn;
      [|constructor].
    rewrite Hcond. cbn.
    destruct (stdin w) as [text| |?]; cbn; [|repeat constructor..].
    destruct (String.eqb (TrimSpace text) ""); cbn; [repeat constructor|].
    destruct (ExchangeCodeForTokens w _ _ _) as [authBundle|?]; cbn;
      [|repeat constructor].
    destruct (CreateTokenStorage w authBundle) as [tokenStorage|]; cbn;
      [|repeat constructor].
    destruct (String.eqb (Email tokenStorage) ""); cbn; [repeat constructor|].
    destruct (negb (String.eqb (APIKey authBundle) "")); cbn; repeat constructor.
Qed.

(** X28. [Login] prints nothing, opens nothing and logs nothing exactly
    when it fails before the prompt: without a configuration, or when
    the PKCE codes, the state or the authorisation URL cannot be
    made. *)
Theorem Login_silent_iff_setup_fails (w : world) (cfg : option Config)
    (opts : option LoginOptions) :
  fst (ClaudeAuthenticator_Login Config w cfg opts) = [] <->
  cfg = None \/
  (exists err, GeneratePKCECodes w = inr err) \/
  (exists pkceCodes,
     GeneratePKCECodes w = inl pkceCodes /\
     ((exists err, GenerateRandomState w = inr err) \/
      (exists state err,
         GenerateRandomState w = inl state /\
         GenerateAuthURL w state pkceCodes = inr err))).
Proof.
  destruct cfg as [cfg|]; [|split; [now left | reflexivity]].
  unfold ClaudeAuthenticator_Login.
  unfold mbind, M_bind, bind, or_fail, emit, ret, fail.
  destruct (GeneratePKCECodes w) as [pkceCodes|e1]; cbn.
  2: { split; [intros _; right; left; eauto | reflexivity]. }
  destruct (GenerateRandomState w) as [state|e2]; cbn.
  2: { split; [intros _; right; right; exists pkceCodes; split; [reflexivity|]; left; eauto
              | reflexivity]. }
  destruct (GenerateAuthURL w state pkceCodes) as [[authURL returnedState]|e3] eqn:Hurl; cbn.
  2: { split; [|reflexivity]. intros _. right; right. exists pkceCodes.
       split; [reflexivity|]. right. exists state, e3. now split. }
  split.
  - intros H. exfalso. revert H.
    destruct (negb _ && _); cbn; [destruct (browser_OpenURL w authURL); cbn|];
      (destruct (stdin w) as [text| |?]; cbn; [|discriminate|discriminate];
       destruct (String.eqb (TrimSpace text) ""); cbn; [discriminate|];
       destruct (ExchangeCodeForTokens w _ _ _) as [authBundle|?]; cbn; [|discriminate];
       destruct (CreateTokenStorage w authBundle) as [tokenStorage|]; cbn; [|discriminate];
       destruct (String.eqb (Email tokenStorage) ""); cbn; [discriminate|];
       destruct (negb _); discriminate).
  - intros [H | [[err H] | (pk & Hpk & [[err H] | (st & err & Hst & H)])]];
      try discriminate.
    injection Hpk as <-. injection Hst as <-. rewrite Hurl in H. discriminate.
Qed.

(** X29. [Login] never hands back a collaborator's error as it got it:
    every error it returns was made by [fmt.Errorf] in the flow, or is
    an [AuthenticationError] of kind [ExchangeFailed] whose cause is the
    error of the exchange. *)
Theorem Login_errors_wrapped (w : world) (cfg : option Config)
    (opts : option LoginOptions) :
  match snd (ClaudeAuthenticator_Login Config w cfg opts) with
  | inl _ => True
  | inr (External _) => False
  | inr (Errorf format wrapped) =>
      In format ["cliproxy auth: configuration is required";
                 "claude pkce generation failed: %w";
                 "claude state generation failed: %w";
                 "claude authorisation url generation failed: %w";
                 "failed to read authorisation code: %w";
                 "no authorisation code provided";
                 "empty authorisation code provided";
                 "claude token storage missing account information"]
  | inr (AuthenticationError code cause) =>
      code = ErrCodeExchangeFailed /\
      exists code' state pkceCodes,
        ExchangeCodeForTokens w code' state pkceCodes = inr cause
  end.
Proof.
  destruct cfg as [cfg|]; [|simpl; tauto].
  rewrite Login_result.
  destruct (GeneratePKCECodes w) as [pkceCodes|?]; [|simpl; tauto].
  destruct (GenerateRandomState w) as [state|?]; [|simpl; tauto].
  destruct (GenerateAuthURL w state pkceCodes) as [[authURL returnedState]|?];
    [|simpl; tauto].
  destruct (stdin w) as [text| |?]; [|simpl; tauto..].
  destruct (String.eqb (TrimSpace text) ""); [simpl; tauto|].
  destruct (ExchangeCodeForTokens w _ _ _) as [authBundle|?] eqn:Hex;
    [|split; [reflexivity | eauto]].
  destruct (CreateTokenStorage w authBundle) as [tokenStorage|]; [|simpl; tauto].
  destruct (String.eqb (Email tokenStorage) ""); simpl; tauto.
Qed.

End ClaudeLoginMore.

Lemma Login_success_witness :
  exists auth,
    snd (Login.ClaudeAuthenticator_Login unit Examples.world_ok (Some tt) None) = inl auth /\
    Login.ID auth = "claude-a@b.c.json".
Proof.
  eexists. split; [reflexivity|].
  destruct (Login_success unit Examples.world_ok (Some tt) None _ eq_refl)
    as (? & ? & ? & ? & ? & ? & _ & _ & _ & _ & _ & _ & _ & _ & _ & Hid & _).
  exact Hid.
Defined.

(** ** More of the credential log *)

Section CredentialLogMore.
Import Misc.

Lemma string_prefix_app (a b : string) : String.prefix a (a ++ b) = true.
Proof.
  induction a as [|c a IH]; simpl.
  - now destruct b.
  - change (String.prefix (String c a) (String c (a ++ b)%string) = true).
    simpl. destruct (ascii_dec c c); [assumption | contradiction].
Qed.

Lemma string_prefix_inv (a s : string) :
  String.prefix a s = true -> exists rest, s = (a ++ rest)%string.
Proof.
  revert s; induction a as [|c a IH]; intros s H.
  - now exists s.
  - destruct s as [|c' s]; simpl in H; [discriminate|].
    destruct (ascii_dec c c') as [<-|]; [|discriminate].
    destruct (IH s H) as [rest ->]. now exists rest.
Qed.

Lemma substring_app_rest (a b : string) :
  substring (String.length a) (String.length (a ++ b) - String.length a) (a ++ b)%string = b.
Proof.
  rewrite substring_app_skip, string_app_length.
  replace (String.length a + String.length b - String.length a)%nat
    with (String.length b) by lia.
  apply substring_all.
Qed.

Lemma Replace1_prefix (s old new : string) :
  String.prefix old s = true ->
  Replace1 s old new
  = (new ++ substring (String.length old) (String.length s - String.length old) s)%string.
Proof. intros H. destruct s; cbn [Replace1]; now rewrite H. Qed.

Lemma Replace1_absent (s old new : string) :
  (forall pre post, s <> (pre ++ old ++ post)%string) -> Replace1 s old new = s.
Proof.
  induction s as [|c s IH]; intros Habsent.
  - cbn [Replace1]. destruct (String.prefix old "") eqn:Hp; [|reflexivity].
    apply string_prefix_inv in Hp as [rest Hrest]. now destruct (Habsent "" rest).
  - cbn [Replace1]. destruct (String.prefix old (String c s)) eqn:Hp.
    + apply string_prefix_inv in Hp as [rest Hrest]. now destruct (Habsent "" rest).
    + f_equal. apply IH. intros pre post ->.
      now apply (Habsent (String c pre) post).
Qed.

(** X30. The path [LogSavingCredentials] shows: when the cleaned path
    starts with the value of [HOME], that start is replaced by [~] and
    the rest is shown as it is; when the value of [HOME] occurs nowhere
    in the cleaned path, the cleaned path is shown as it is; and an
    empty path prints nothing, any other path one line. *)
Theorem LogSavingCredentials_display (home path : string) :
  (forall rest, Clean path = (home ++ rest)%string ->
                display_path home path = ("~" ++ rest)%string) /\
  ((forall pre post, Clean path <> (pre ++ home ++ post)%string) ->
   display_path home path = Clean path) /\
  LogSavingCredentials home path
  = if String.eqb path "" then []
    else [("Saving credentials to to " ++ display_path home path ++ Login.nl)%string].
Proof.
  unfold display_path. split; [|split].
  - intros rest ->.
    rewrite Replace1_prefix by apply string_prefix_app.
    now rewrite substring_app_rest.
  - apply Replace1_absent.
  - reflexivity.
Qed.

End CredentialLogMore.
